(** * laser_scan_matcher: the keyframe-relative registration pipeline

    A shallow embedding of [laser_scan_matcher.cpp] (namespace [scan_tools],
    class [LaserScanMatcher]) and the properties of its point-set builder,
    prediction fusion, keyframe manager, covariance projection and per-reading
    state machine.

    Conventions of the embedding
    - a C++ [double] is a primitive binary64 [float]; a [float] (message
      fields of sensor_msgs/LaserScan, Eigen's [Matrix2f]) is carried as the
      binary64 value it denotes and its arithmetic is rounded to binary32
      (module [F32]);
    - the libraries the node links against (tf, libm, CSM, pcl) are not part
      of the repository: their operations are the fields of the class
      [Externals], and every theorem holds for every implementation of them;
    - an access outside an array's bounds is undefined behaviour in C++: the
      embedding returns [None] there;
    - publishing, logging and the queries to the tf listener are recorded as
      a list of [Event]s. *)

From Stdlib Require Import ZArith List Bool Lia String.
From Stdlib Require Import Floats.
From stdpp Require Import base option list.

Local Open Scope Z_scope.
Local Open Scope list_scope.

(** ** Numbers *)

(** [a > b] and [a < b] on doubles, false as soon as an operand is NaN. *)
Definition fgt (a b : float) : bool := PrimFloat.ltb b a.
Definition flt (a b : float) : bool := PrimFloat.ltb a b.

(** CSM's [is_nan]. *)
Definition is_nan (v : float) : bool := PrimFloat.is_nan v.

(** Single precision, on the binary64 carrier. *)
Module F32.
Definition prec : Z := 24.
Definition emax : Z := 128.

(** Conversion [double -> float]. *)
Definition round (x : float) : float :=
  match Prim2SF x with
  | S754_finite s m e => SF2Prim (binary_round prec emax s m e)
  | _ => x
  end.

Definition add (x y : float) : float :=
  SF2Prim (SFadd prec emax (Prim2SF x) (Prim2SF y)).
Definition sub (x y : float) : float :=
  SF2Prim (SFsub prec emax (Prim2SF x) (Prim2SF y)).
Definition mul (x y : float) : float :=
  SF2Prim (SFmul prec emax (Prim2SF x) (Prim2SF y)).
Definition sqrt (x : float) : float :=
  SF2Prim (SFsqrt prec emax (Prim2SF x)).
Definition opp (x : float) : float := PrimFloat.opp x.

(** Conversion [unsigned int -> float]. *)
Definition of_nat (i : nat) : float :=
  SF2Prim (binary_normalize prec emax (Z.of_nat i) 0 false).
End F32.

(** Unsigned 32-bit wrap-around, for [n-1] on an [unsigned int]. *)
Definition uint32_pred (n : nat) : nat :=
  Z.to_nat ((Z.of_nat n - 1) mod 2 ^ 32).

(** ** Messages *)

Record QuaternionMsg := mkQuaternionMsg
  { qm_x : float; qm_y : float; qm_z : float; qm_w : float }.

Record PoseMsg := mkPoseMsg
  { pm_x : float; pm_y : float; pm_z : float; pm_orientation : QuaternionMsg }.

(** geometry_msgs/Twist, the fields the node reads. *)
Record Twist := mkTwist
  { linear_x : float; linear_y : float; angular_z : float }.

(** A point of the cloud; [z] is never read. *)
Record PointT := mkPointT { pt_x : float; pt_y : float }.

(** ** The external libraries *)

Class Externals := {
(** roscpp *)
Time : Type;
toSec : Time -> Time -> float;          (* [(a - b).toSec()] *)
(** tf *)
Transform : Type;
Quaternion : Type;
tf_getIdentity : Transform;
tf_default : Transform;                 (* [tf::Transform t;], contents unspecified *)
tf_mul : Transform -> Transform -> Transform;
tf_inverse : Transform -> Transform;
tf_setOrigin : Transform -> float -> float -> float -> Transform;
tf_setRotation : Transform -> Quaternion -> Transform;
tf_getRotation : Transform -> Quaternion;
tf_getX : Transform -> float;           (* [getOrigin().getX()] *)
tf_getY : Transform -> float;
q_setRPY : float -> float -> float -> Quaternion;
q_getRPY : Quaternion -> float * float * float;  (* [Matrix3x3(q).getRPY] *)
q_inverse : Quaternion -> Quaternion;
q_mul : Quaternion -> Quaternion -> Quaternion;
getYaw : Quaternion -> float;
quaternionMsgToTF : QuaternionMsg -> Quaternion;
poseMsgToTF : PoseMsg -> Transform;
poseTFToMsg : Transform -> PoseMsg;
(** libm *)
cos : float -> float;
sin : float -> float;
cosf : float -> float;
sinf : float -> float;
(** PointT: the arithmetic of its coordinate type, as overload
    resolution selects it in [PointCloudToLDP] *)
pt_sub : float -> float -> float;
pt_mul : float -> float -> float;
pt_add : float -> float -> float;
pt_sqrt : float -> float;
pt_atan2 : float -> float -> float;
(** CSM's [ld_alloc_new]: the initial content of the cells *)
alloc_valid : Z;
alloc_reading : float;
alloc_theta : float;
alloc_cluster : Z;
alloc_bound : float;                    (* [min_theta], [max_theta] *)
alloc_pose : float                      (* [odometry], [estimate], [true_pose] *)
}.

(** ** The point set (CSM's [struct laser_data]) *)

Definition Pose3 : Type := float * float * float.
Definition zero3 : Pose3 := (0%float, 0%float, 0%float).

Record LDP := mkLDP {
  nrays : nat;
  valid : list Z;
  readings : list float;
  theta : list float;
  cluster : list Z;
  min_theta : float;
  max_theta : float;
  odometry : Pose3;
  estimate : Pose3;
  true_pose : Pose3
}.

Definition set_valid (l : LDP) (i : nat) (v : Z) : LDP :=
  mkLDP (nrays l) (<[i:=v]> (valid l)) (readings l) (theta l) (cluster l)
        (min_theta l) (max_theta l) (odometry l) (estimate l) (true_pose l).
Definition set_reading (l : LDP) (i : nat) (r : float) : LDP :=
  mkLDP (nrays l) (valid l) (<[i:=r]> (readings l)) (theta l) (cluster l)
        (min_theta l) (max_theta l) (odometry l) (estimate l) (true_pose l).
Definition set_theta (l : LDP) (i : nat) (t : float) : LDP :=
  mkLDP (nrays l) (valid l) (readings l) (<[i:=t]> (theta l)) (cluster l)
        (min_theta l) (max_theta l) (odometry l) (estimate l) (true_pose l).
Definition set_cluster (l : LDP) (i : nat) (c : Z) : LDP :=
  mkLDP (nrays l) (valid l) (readings l) (theta l) (<[i:=c]> (cluster l))
        (min_theta l) (max_theta l) (odometry l) (estimate l) (true_pose l).
Definition set_bounds (l : LDP) (lo hi : float) : LDP :=
  mkLDP (nrays l) (valid l) (readings l) (theta l) (cluster l)
        lo hi (odometry l) (estimate l) (true_pose l).
Definition set_odometry (l : LDP) (p : Pose3) : LDP :=
  mkLDP (nrays l) (valid l) (readings l) (theta l) (cluster l)
        (min_theta l) (max_theta l) p (estimate l) (true_pose l).
Definition set_estimate (l : LDP) (p : Pose3) : LDP :=
  mkLDP (nrays l) (valid l) (readings l) (theta l) (cluster l)
        (min_theta l) (max_theta l) (odometry l) p (true_pose l).
Definition set_true_pose (l : LDP) (p : Pose3) : LDP :=
  mkLDP (nrays l) (valid l) (readings l) (theta l) (cluster l)
        (min_theta l) (max_theta l) (odometry l) (estimate l) p.

(** The four per-ray cells of index [i]. *)
Definition ray (l : LDP) (i : nat) : option (Z * float * float * Z) :=
  v ← valid l !! i; r ← readings l !! i; t ← theta l !! i; c ← cluster l !! i;
  Some (v, r, t, c).

(** [for (unsigned int i = i0; i < xs.size(); i++) { x = xs[i]; body }],
    started at the element of index [i0]. *)
Fixpoint for_each {A St : Type} (body : nat -> A -> St -> St)
    (i : nat) (xs : list A) (s : St) : St :=
  match xs with
  | [] => s
  | x :: xs' => for_each body (S i) xs' (body i x s)
  end.

Section Node.
Context {X : Externals}.

(** sensor_msgs/LaserScan: [float32] fields and ranges. *)
Record LaserScan := mkLaserScan {
  scan_stamp : Time;
  scan_frame_id : string;
  angle_min : float;
  angle_increment : float;
  range_min : float;
  range_max : float;
  ranges : list float
}.

Record PointCloudT := mkPointCloudT {
  cloud_stamp : Time;
  cloud_frame_id : string;
  points : list PointT
}.

Definition ld_alloc_new (n : nat) : LDP :=
  mkLDP n (replicate n alloc_valid) (replicate n alloc_reading)
        (replicate n alloc_theta) (replicate n alloc_cluster)
        alloc_bound alloc_bound
        (alloc_pose, alloc_pose, alloc_pose)
        (alloc_pose, alloc_pose, alloc_pose)
        (alloc_pose, alloc_pose, alloc_pose).

(** The tail shared by both builders:
    [min_theta = theta[0]; max_theta = theta[n-1];] and the zeroing of
    [odometry] and [true_pose]. *)
Definition finish_ldp (n : nat) (ldp : LDP) : option LDP :=
  lo ← theta ldp !! 0%nat;
  hi ← theta ldp !! uint32_pred n;
  Some (set_true_pose (set_odometry (set_bounds ldp lo hi) zero3) zero3).

(** *** laserScanToLDP *)

(** The body of the loop, at index [i] with [r = ranges[i]]. *)
Definition scan_ray (scan_msg : LaserScan) (i : nat) (r : float) (ldp : LDP) : LDP :=
  let ldp :=
    if fgt r (range_min scan_msg) && flt r (range_max scan_msg)
    then set_reading (set_valid ldp i 1) i r
    else set_reading (set_valid ldp i 0) i (-1)%float in
  let ldp :=
    set_theta ldp i
      (F32.add (angle_min scan_msg) (F32.mul (F32.of_nat i) (angle_increment scan_msg))) in
  set_cluster ldp i (-1).

Definition laserScanToLDP (scan_msg : LaserScan) : option LDP :=
  let n := length (ranges scan_msg) in
  finish_ldp n (for_each (scan_ray scan_msg) 0 (ranges scan_msg) (ld_alloc_new n)).

(** *** PointCloudToLDP *)

Section Cloud.
Variables cloud_range_min_ cloud_range_max_ cloud_res_ : float.

Definition max_d2 : float := (cloud_res_ * cloud_res_)%float.

(** [dx*dx + dy*dy] for [dx = pa.x - pb.x], [dy = pa.y - pb.y]. *)
Definition dist2 (pa pb : PointT) : float :=
  let dx := pt_sub (pt_x pa) (pt_x pb) in
  let dy := pt_sub (pt_y pa) (pt_y pb) in
  (dx * dx + dy * dy)%float.

(** The downsampling loop from index 1 on; [pa] is the last element
    of [cloud_f]. The result lists the points pushed after [pa]. *)
Fixpoint filter_loop (pa : PointT) (pts : list PointT) : list PointT :=
  match pts with
  | [] => []
  | pb :: rest =>
      if fgt (dist2 pa pb) max_d2
      then pb :: filter_loop pb rest
      else filter_loop pa rest
  end.

(** [cloud_f]; [cloud->points[0]] does not exist in an empty cloud. *)
Definition cloud_filter (pts : list PointT) : option (list PointT) :=
  match pts with
  | [] => None
  | p0 :: rest => Some (p0 :: filter_loop p0 rest)
  end.

Definition has_nan (p : PointT) : bool := is_nan (pt_x p) || is_nan (pt_y p).

Definition cloud_range (p : PointT) : float :=
  pt_sqrt (pt_add (pt_mul (pt_x p) (pt_x p)) (pt_mul (pt_y p) (pt_y p))).

Definition cloud_ray (i : nat) (p : PointT) (ldp : LDP) : LDP :=
  let ldp :=
    if has_nan p then ldp   (* only a warning is logged *)
    else
      let r := cloud_range p in
      if fgt r cloud_range_min_ && flt r cloud_range_max_
      then set_reading (set_valid ldp i 1) i r
      else set_reading (set_valid ldp i 0) i (-1)%float in
  let ldp := set_theta ldp i (pt_atan2 (pt_y p) (pt_x p)) in
  set_cluster ldp i (-1).

Definition PointCloudToLDP (cloud : PointCloudT) : option LDP :=
  cloud_f ← cloud_filter (points cloud);
  let n := length cloud_f in
  finish_ldp n (for_each cloud_ray 0 cloud_f (ld_alloc_new n)).
End Cloud.

(** ** Configuration ([initParams]) *)

Record Config := mkConfig {
  base_frame_ : string;
  fixed_frame_ : string;
  use_cloud_input_ : bool;
  cloud_range_min_ : float;
  cloud_range_max_ : float;
  cloud_res_ : float;
  kf_dist_linear_ : float;
  kf_dist_angular_ : float;
  use_imu_ : bool;
  use_odom_ : bool;
  use_tf_ : bool;
  use_vel_ : bool;
  stamped_vel_ : bool;
  publish_tf_ : bool;
  publish_pose_ : bool;
  publish_pose_stamped_ : bool;
  publish_pose_with_covariance_ : bool;
  publish_pose_with_covariance_stamped_ : bool;
  position_covariance_ : list float;
  orientation_covariance_ : list float;
  do_compute_covariance : Z;
  add_imu_roll_pitch_ : bool
}.

(** [kf_dist_linear_sq_ = kf_dist_linear_ * kf_dist_linear_;] *)
Definition kf_dist_linear_sq_ (cfg : Config) : float :=
  (kf_dist_linear_ cfg * kf_dist_linear_ cfg)%float.

(** The configuration with [use_tf_] replaced. *)
Definition with_use_tf (cfg : Config) (b : bool) : Config :=
  mkConfig (base_frame_ cfg) (fixed_frame_ cfg) (use_cloud_input_ cfg)
    (cloud_range_min_ cfg) (cloud_range_max_ cfg) (cloud_res_ cfg)
    (kf_dist_linear_ cfg) (kf_dist_angular_ cfg)
    (use_imu_ cfg) (use_odom_ cfg) b (use_vel_ cfg) (stamped_vel_ cfg)
    (publish_tf_ cfg) (publish_pose_ cfg) (publish_pose_stamped_ cfg)
    (publish_pose_with_covariance_ cfg) (publish_pose_with_covariance_stamped_ cfg)
    (position_covariance_ cfg) (orientation_covariance_ cfg)
    (do_compute_covariance cfg) (add_imu_roll_pitch_ cfg).

(** ** The solver interface (CSM's [sm_params], [sm_result]) *)

(** The tuning parameters that [initParams] sets once and nothing changes
    are left out of [sm_params]. *)
Record sm_params := mk_sm_params {
  laser_ref : LDP;
  laser_sens : LDP;
  first_guess : Pose3;
  min_reading : float;
  max_reading : float;
  sm_do_compute_covariance : Z
}.

(** [gsl_matrix_get m i j] is [m i j]. *)
Definition gsl_matrix : Type := nat -> nat -> float.

Record sm_result := mk_sm_result {
  sm_valid : Z;
  sm_x : Pose3;
  cov_x_m : gsl_matrix
}.

(** ** The collaborators, as they answer during one callback *)

Record World := mkWorld {
  (** [waitForTransform] then [lookupTransform (target, source, Time(0))];
      [None] when either throws. *)
  lookupTransform : string -> string -> option Transform;
  (** the same pair with two time stamps and a fixed frame. *)
  lookupTransformAt : string -> Time -> string -> Time -> string -> option Transform;
  sm_icp : sm_params -> sm_result
}.

Inductive Event :=
| EvWarn (msg : string)
| EvLookup (target source : string)
| EvLookupAt (target : string) (t0 : Time) (source : string) (t1 : Time) (fixed : string)
| EvIcp (input : sm_params)
| EvPose2D (x y th : float)
| EvPoseStamped (stamp : Time) (frame : string) (pose : PoseMsg)
| EvPoseWithCovariance (pose : PoseMsg) (cov : list float)
| EvPoseWithCovarianceStamped (stamp : Time) (frame : string) (pose : PoseMsg) (cov : list float)
| EvSendTransform (t : Transform) (stamp : Time) (frame child : string).

(** A pose message of any kind, or a frame broadcast. *)
Definition is_output (e : Event) : bool :=
  match e with
  | EvPose2D _ _ _ | EvPoseStamped _ _ _ | EvPoseWithCovariance _ _
  | EvPoseWithCovarianceStamped _ _ _ _ | EvSendTransform _ _ _ _ => true
  | _ => false
  end.

(** A query for the static sensor-base transform. *)
Definition is_static_lookup (e : Event) : bool :=
  match e with EvLookup _ _ => true | _ => false end.

(** The inputs handed to the solver, in order. *)
Fixpoint icp_calls (evs : list Event) : list sm_params :=
  match evs with
  | [] => []
  | EvIcp i :: evs' => i :: icp_calls evs'
  | _ :: evs' => icp_calls evs'
  end.

(** ** The members of [LaserScanMatcher] *)

Record State := mkState {
  initialized_ : bool;
  received_imu_ : bool;
  received_odom_ : bool;
  received_vel_ : bool;
  base_from_laser_ : Transform;
  laser_from_base_ : Transform;
  last_icp_time_ : Time;
  latest_imu_msg_ : QuaternionMsg;      (* [latest_imu_msg_.orientation] *)
  latest_odom_msg_ : PoseMsg;           (* [latest_odom_msg_.pose.pose] *)
  latest_vel_msg_ : Twist;
  last_base_in_fixed_ : Transform;
  keyframe_base_in_fixed_ : Transform;
  last_used_odom_pose_ : Transform;
  last_used_imu_orientation_ : Quaternion;
  a_cos_ : list float;
  a_sin_ : list float;
  input_min_reading : float;            (* [input_.min_reading] *)
  input_max_reading : float;            (* [input_.max_reading] *)
  prev_ldp_scan_ : LDP
}.

Definition set_flags (s : State) (ini imu odom vel : bool) : State :=
  mkState ini imu odom vel (base_from_laser_ s) (laser_from_base_ s)
    (last_icp_time_ s) (latest_imu_msg_ s) (latest_odom_msg_ s) (latest_vel_msg_ s)
    (last_base_in_fixed_ s) (keyframe_base_in_fixed_ s) (last_used_odom_pose_ s)
    (last_used_imu_orientation_ s) (a_cos_ s) (a_sin_ s)
    (input_min_reading s) (input_max_reading s) (prev_ldp_scan_ s).
Definition set_static (s : State) (bfl lfb : Transform) : State :=
  mkState (initialized_ s) (received_imu_ s) (received_odom_ s) (received_vel_ s)
    bfl lfb
    (last_icp_time_ s) (latest_imu_msg_ s) (latest_odom_msg_ s) (latest_vel_msg_ s)
    (last_base_in_fixed_ s) (keyframe_base_in_fixed_ s) (last_used_odom_pose_ s)
    (last_used_imu_orientation_ s) (a_cos_ s) (a_sin_ s)
    (input_min_reading s) (input_max_reading s) (prev_ldp_scan_ s).
Definition set_last_icp_time (s : State) (t : Time) : State :=
  mkState (initialized_ s) (received_imu_ s) (received_odom_ s) (received_vel_ s)
    (base_from_laser_ s) (laser_from_base_ s)
    t (latest_imu_msg_ s) (latest_odom_msg_ s) (latest_vel_msg_ s)
    (last_base_in_fixed_ s) (keyframe_base_in_fixed_ s) (last_used_odom_pose_ s)
    (last_used_imu_orientation_ s) (a_cos_ s) (a_sin_ s)
    (input_min_reading s) (input_max_reading s) (prev_ldp_scan_ s).
Definition set_latest (s : State) (imu : QuaternionMsg) (odom : PoseMsg) (vel : Twist) : State :=
  mkState (initialized_ s) (received_imu_ s) (received_odom_ s) (received_vel_ s)
    (base_from_laser_ s) (laser_from_base_ s)
    (last_icp_time_ s) imu odom vel
    (last_base_in_fixed_ s) (keyframe_base_in_fixed_ s) (last_used_odom_pose_ s)
    (last_used_imu_orientation_ s) (a_cos_ s) (a_sin_ s)
    (input_min_reading s) (input_max_reading s) (prev_ldp_scan_ s).
Definition set_poses (s : State) (last kf : Transform) : State :=
  mkState (initialized_ s) (received_imu_ s) (received_odom_ s) (received_vel_ s)
    (base_from_laser_ s) (laser_from_base_ s)
    (last_icp_time_ s) (latest_imu_msg_ s) (latest_odom_msg_ s) (latest_vel_msg_ s)
    last kf (last_used_odom_pose_ s)
    (last_used_imu_orientation_ s) (a_cos_ s) (a_sin_ s)
    (input_min_reading s) (input_max_reading s) (prev_ldp_scan_ s).
Definition set_last_used (s : State) (odom : Transform) (imu : Quaternion) : State :=
  mkState (initialized_ s) (received_imu_ s) (received_odom_ s) (received_vel_ s)
    (base_from_laser_ s) (laser_from_base_ s)
    (last_icp_time_ s) (latest_imu_msg_ s) (latest_odom_msg_ s) (latest_vel_msg_ s)
    (last_base_in_fixed_ s) (keyframe_base_in_fixed_ s) odom imu
    (a_cos_ s) (a_sin_ s)
    (input_min_reading s) (input_max_reading s) (prev_ldp_scan_ s).
Definition set_cache (s : State) (c sn : list float) (lo hi : float) : State :=
  mkState (initialized_ s) (received_imu_ s) (received_odom_ s) (received_vel_ s)
    (base_from_laser_ s) (laser_from_base_ s)
    (last_icp_time_ s) (latest_imu_msg_ s) (latest_odom_msg_ s) (latest_vel_msg_ s)
    (last_base_in_fixed_ s) (keyframe_base_in_fixed_ s) (last_used_odom_pose_ s)
    (last_used_imu_orientation_ s) c sn lo hi (prev_ldp_scan_ s).
Definition set_prev (s : State) (l : LDP) : State :=
  mkState (initialized_ s) (received_imu_ s) (received_odom_ s) (received_vel_ s)
    (base_from_laser_ s) (laser_from_base_ s)
    (last_icp_time_ s) (latest_imu_msg_ s) (latest_odom_msg_ s) (latest_vel_msg_ s)
    (last_base_in_fixed_ s) (keyframe_base_in_fixed_ s) (last_used_odom_pose_ s)
    (last_used_imu_orientation_ s) (a_cos_ s) (a_sin_ s)
    (input_min_reading s) (input_max_reading s) l.

(** The constructor, run on the object's storage [raw]: members without an
    initialiser keep what the storage holds. ROS messages are value
    initialised. *)
Definition LaserScanMatcher (cfg : Config) (raw : State) : State :=
  let s := set_flags raw false false false false in
  let s := set_poses s tf_getIdentity tf_getIdentity in
  let s := set_last_used s tf_getIdentity (last_used_imu_orientation_ s) in
  let s := set_latest s (mkQuaternionMsg 0 0 0 0)
             (mkPoseMsg 0 0 0 (mkQuaternionMsg 0 0 0 0)) (mkTwist 0 0 0) in
  if use_cloud_input_ cfg
  then set_cache s [] [] (cloud_range_min_ cfg) (cloud_range_max_ cfg)
  else set_cache s [] [] (input_min_reading s) (input_max_reading s).

(** ** The auxiliary callbacks *)

Definition imuCallback (st : State) (imu_msg : QuaternionMsg) : State :=
  let st := set_latest st imu_msg (latest_odom_msg_ st) (latest_vel_msg_ st) in
  if negb (received_imu_ st)
  then
    let st := set_last_used st (last_used_odom_pose_ st) (quaternionMsgToTF imu_msg) in
    set_flags st (initialized_ st) true (received_odom_ st) (received_vel_ st)
  else st.

Definition odomCallback (st : State) (odom_msg : PoseMsg) : State :=
  let st := set_latest st (latest_imu_msg_ st) odom_msg (latest_vel_msg_ st) in
  if negb (received_odom_ st)
  then
    let st := set_last_used st (poseMsgToTF odom_msg) (last_used_imu_orientation_ st) in
    set_flags st (initialized_ st) (received_imu_ st) true (received_vel_ st)
  else st.

Definition velCallback (st : State) (twist_msg : Twist) : State :=
  let st := set_latest st (latest_imu_msg_ st) (latest_odom_msg_ st) twist_msg in
  set_flags st (initialized_ st) (received_imu_ st) (received_odom_ st) true.

(** [twist_msg->twist] of the stamped message. *)
Definition velStmpCallback (st : State) (twist : Twist) : State :=
  let st := set_latest st (latest_imu_msg_ st) (latest_odom_msg_ st) twist in
  set_flags st (initialized_ st) (received_imu_ st) (received_odom_ st) true.

(** ** Helpers of the pipeline *)

Definition createTfFromXYTheta (x y th : float) (t : Transform) : Transform :=
  let t := tf_setOrigin t x y 0 in
  tf_setRotation t (q_setRPY 0 0 th).

(** Eigen's [Matrix2f], row major. *)
Record Matrix2f := mkMatrix2f { m00 : float; m01 : float; m10 : float; m11 : float }.

Definition Matrix2f_Zero : Matrix2f := mkMatrix2f 0 0 0 0.

Definition m2_mul (a b : Matrix2f) : Matrix2f :=
  mkMatrix2f
    (F32.add (F32.mul (m00 a) (m00 b)) (F32.mul (m01 a) (m10 b)))
    (F32.add (F32.mul (m00 a) (m01 b)) (F32.mul (m01 a) (m11 b)))
    (F32.add (F32.mul (m10 a) (m00 b)) (F32.mul (m11 a) (m10 b)))
    (F32.add (F32.mul (m10 a) (m01 b)) (F32.mul (m11 a) (m11 b))).

Definition m2_transpose (a : Matrix2f) : Matrix2f :=
  mkMatrix2f (m00 a) (m10 a) (m01 a) (m11 a).

(** [Eigen::Rotation2Df t(y); t.toRotationMatrix()]. *)
Definition Rotation2Df (y : float) : Matrix2f :=
  let a := F32.round y in
  let s := sinf a in
  let c := cosf a in
  mkMatrix2f c (F32.opp s) s c.

Definition getLaserRotation (st : State) (odom_pose : Transform) : Matrix2f :=
  let laser_in_fixed := tf_mul odom_pose (laser_from_base_ st) in
  let '(_, _, y) := q_getRPY (tf_getRotation laser_in_fixed) in
  Rotation2Df y.

(** The 36 entries written by [boost::assign::list_of]. *)
Definition covariance36 (xy_cov : Matrix2f) (yaw_cov : float) : list float :=
  [ m00 xy_cov; m01 xy_cov; 0; 0; 0; 0;
    m10 xy_cov; m11 xy_cov; 0; 0; 0; 0;
    0; 0; 0; 0; 0; 0;
    0; 0; 0; 0; 0; 0;
    0; 0; 0; 0; 0; 0;
    0; 0; 0; 0; 0; yaw_cov ]%float.

Definition newKeyframeNeeded (cfg : Config) (d : Transform) : bool :=
  if fgt (abs (getYaw (tf_getRotation d))) (kf_dist_angular_ cfg) then true
  else
    let x := tf_getX d in
    let y := tf_getY d in
    if fgt (x * x + y * y)%float (kf_dist_linear_sq_ cfg) then true
    else false.

Definition createCache (st : State) (scan_msg : LaserScan) : State :=
  let angles :=
    imap (fun i (_ : float) =>
            F32.add (angle_min scan_msg) (F32.mul (F32.of_nat i) (angle_increment scan_msg)))
         (ranges scan_msg) in
  set_cache st (map cos angles) (map sin angles) (range_min scan_msg) (range_max scan_msg).

Definition getBaseLaserTransform (w : World) (cfg : Config) (st : State)
    (frame_id : string) : bool * State * list Event :=
  match lookupTransform w (base_frame_ cfg) frame_id with
  | None =>
      (false, st,
       [EvLookup (base_frame_ cfg) frame_id;
        EvWarn "Could not get initial transform from base to laser frame"])
  | Some base_from_laser =>
      (true, set_static st base_from_laser (tf_inverse base_from_laser),
       [EvLookup (base_frame_ cfg) frame_id])
  end.

(** ** getPrediction *)

Definition getPrediction (w : World) (cfg : Config) (st : State) (stamp : Time)
    : Transform * State * list Event :=
  let pred_last_base_offset := tf_getIdentity in
  let pred_last_base_offset :=
    if use_vel_ cfg then
      let dt := toSec stamp (last_icp_time_ st) in
      let pr_ch_x := (dt * linear_x (latest_vel_msg_ st))%float in
      let pr_ch_y := (dt * linear_y (latest_vel_msg_ st))%float in
      let pr_ch_a := (dt * angular_z (latest_vel_msg_ st))%float in
      createTfFromXYTheta pr_ch_x pr_ch_y pr_ch_a pred_last_base_offset
    else pred_last_base_offset in
  let '(pred_last_base_offset, st) :=
    if use_odom_ cfg && received_odom_ st then
      let latest_odom_pose := poseMsgToTF (latest_odom_msg_ st) in
      (tf_mul (tf_inverse (last_used_odom_pose_ st)) latest_odom_pose,
       set_last_used st latest_odom_pose (last_used_imu_orientation_ st))
    else (pred_last_base_offset, st) in
  let '(pred_last_base_offset, st) :=
    if use_imu_ cfg && received_imu_ st then
      let latest_imu_orientation := quaternionMsgToTF (latest_imu_msg_ st) in
      let imu_orientation_offset :=
        q_mul (q_inverse (last_used_imu_orientation_ st)) latest_imu_orientation in
      (tf_setRotation pred_last_base_offset imu_orientation_offset,
       set_last_used st (last_used_odom_pose_ st) latest_imu_orientation)
    else (pred_last_base_offset, st) in
  if use_tf_ cfg then
    let q := EvLookupAt (base_frame_ cfg) (last_icp_time_ st)
                        (base_frame_ cfg) stamp (fixed_frame_ cfg) in
    match lookupTransformAt w (base_frame_ cfg) (last_icp_time_ st)
                              (base_frame_ cfg) stamp (fixed_frame_ cfg) with
    | Some pred_last_base_offset_tf => (pred_last_base_offset_tf, st, [q])
    | None =>
        (pred_last_base_offset, st,
         [q; EvWarn "Could not get base to fixed frame transform"])
    end
  else (pred_last_base_offset, st, []).

(** ** processScan *)

(** The zeroing of [odometry], [estimate] and [true_pose] of the reference
    scan at the start of every cycle. *)
Definition zero_motion (l : LDP) : LDP :=
  set_true_pose (set_estimate (set_odometry l zero3) zero3) zero3.

(** [input_] as [sm_icp] receives it, from the predicted offset. *)
Definition icp_input (cfg : Config) (st : State) (curr_ldp_scan : LDP)
    (pred_last_base_offset : Transform) : sm_params :=
  let pred_base_in_fixed := tf_mul (last_base_in_fixed_ st) pred_last_base_offset in
  let pred_keyframe_base_offset :=
    tf_mul (tf_inverse (keyframe_base_in_fixed_ st)) pred_base_in_fixed in
  let pred_keyframe_laser_offset :=
    tf_mul (tf_mul (laser_from_base_ st) pred_keyframe_base_offset) (base_from_laser_ st) in
  mk_sm_params (prev_ldp_scan_ st) curr_ldp_scan
    (tf_getX pred_keyframe_laser_offset,
     tf_getY pred_keyframe_laser_offset,
     getYaw (tf_getRotation pred_keyframe_laser_offset))
    (input_min_reading st) (input_max_reading st) (do_compute_covariance cfg).

(** The measured offset of the scan from the keyframe, in the base frame. *)
Definition measured_offset (st : State) (output : sm_result) : Transform :=
  if negb (sm_valid output =? 0) then
    let '(x0, x1, x2) := sm_x output in
    let meas_keyframe_laser_offset := createTfFromXYTheta x0 x1 x2 tf_default in
    tf_mul (tf_mul (base_from_laser_ st) meas_keyframe_laser_offset) (laser_from_base_ st)
  else tf_getIdentity.

(** [current_transform]: the pose with roll and pitch taken from the imu. *)
Definition level (cfg : Config) (st : State) (current_transform : Transform) : Transform :=
  if add_imu_roll_pitch_ cfg && use_imu_ cfg && received_imu_ st then
    let imu_orientation := quaternionMsgToTF (latest_imu_msg_ st) in
    let '(roll, pitch, _) := q_getRPY imu_orientation in
    let '(_, _, current_yaw) := q_getRPY (tf_getRotation current_transform) in
    tf_setRotation current_transform (q_setRPY roll pitch current_yaw)
  else current_transform.

(** [xy_cov] and [yaw_cov]. *)
Definition covariance (cfg : Config) (st : State) (output : sm_result)
    : option (Matrix2f * float) :=
  if negb (do_compute_covariance cfg =? 0) then
    let xy_cov :=
      mkMatrix2f (F32.round (cov_x_m output 0 0)%nat) (F32.round (cov_x_m output 0 1)%nat)
                 (F32.round (cov_x_m output 1 0)%nat) (F32.round (cov_x_m output 1 1)%nat) in
    let yaw_cov := F32.round (cov_x_m output 2 2)%nat in
    let rotation := getLaserRotation st (keyframe_base_in_fixed_ st) in
    Some (m2_mul (m2_mul rotation xy_cov) (m2_transpose rotation), yaw_cov)
  else
    p0 ← position_covariance_ cfg !! 0%nat;
    p1 ← position_covariance_ cfg !! 1%nat;
    o2 ← orientation_covariance_ cfg !! 2%nat;
    Some (mkMatrix2f (F32.round p0) 0 0 (F32.round p1), F32.round o2).

Definition publish (cfg : Config) (current_transform : Transform)
    (xy_cov : Matrix2f) (yaw_cov : float) (time : Time) : list Event :=
  (if publish_pose_ cfg then
     [EvPose2D (tf_getX current_transform) (tf_getY current_transform)
               (getYaw (tf_getRotation current_transform))]
   else []) ++
  (if publish_pose_stamped_ cfg then
     [EvPoseStamped time (fixed_frame_ cfg) (poseTFToMsg current_transform)]
   else []) ++
  (if publish_pose_with_covariance_ cfg then
     [EvPoseWithCovariance (poseTFToMsg current_transform) (covariance36 xy_cov yaw_cov)]
   else []) ++
  (if publish_pose_with_covariance_stamped_ cfg then
     [EvPoseWithCovarianceStamped time (fixed_frame_ cfg)
        (poseTFToMsg current_transform) (covariance36 xy_cov yaw_cov)]
   else []) ++
  (if publish_tf_ cfg then
     [EvSendTransform current_transform time (fixed_frame_ cfg) (base_frame_ cfg)]
   else []).

(** [// **** swap old and new], then [last_icp_time_ = time]. *)
Definition swap (cfg : Config) (st : State) (curr_ldp_scan : LDP)
    (meas_keyframe_base_offset : Transform) (time : Time) : State :=
  let st :=
    if newKeyframeNeeded cfg meas_keyframe_base_offset
    then set_poses (set_prev st curr_ldp_scan)
                   (last_base_in_fixed_ st) (last_base_in_fixed_ st)
    else st in
  set_last_icp_time st time.

Definition processScan (w : World) (cfg : Config) (st : State)
    (curr_ldp_scan : LDP) (time : Time) : option (State * list Event) :=
  let st := set_prev st (zero_motion (prev_ldp_scan_ st)) in
  let '(pred_last_base_offset, st, ev_pred) := getPrediction w cfg st time in
  let input := icp_input cfg st curr_ldp_scan pred_last_base_offset in
  let output := sm_icp w input in
  let meas_keyframe_base_offset := measured_offset st output in
  '(st, ev_out) ←
    (if negb (sm_valid output =? 0) then
       let st := set_poses st
                   (tf_mul (keyframe_base_in_fixed_ st) meas_keyframe_base_offset)
                   (keyframe_base_in_fixed_ st) in
       let current_transform := level cfg st (last_base_in_fixed_ st) in
       '(xy_cov, yaw_cov) ← covariance cfg st output;
       Some (st, publish cfg current_transform xy_cov yaw_cov time)
     else Some (st, [EvWarn "Error in scan matching"]));
  Some (swap cfg st curr_ldp_scan meas_keyframe_base_offset time,
        ev_pred ++ [EvIcp input] ++ ev_out).

(** The state in which the solver runs, what it is given and what it
    returns in [processScan]. *)
Definition solver_state (w : World) (cfg : Config) (st : State) (time : Time) : State :=
  snd (fst (getPrediction w cfg (set_prev st (zero_motion (prev_ldp_scan_ st))) time)).

Definition solver_input (w : World) (cfg : Config) (st : State)
    (curr_ldp_scan : LDP) (time : Time) : sm_params :=
  let r := getPrediction w cfg (set_prev st (zero_motion (prev_ldp_scan_ st))) time in
  icp_input cfg (snd (fst r)) curr_ldp_scan (fst (fst r)).

Definition solver_output (w : World) (cfg : Config) (st : State)
    (curr_ldp_scan : LDP) (time : Time) : sm_result :=
  sm_icp w (solver_input w cfg st curr_ldp_scan time).

(** [meas_keyframe_base_offset] of the cycle. *)
Definition cycle_offset (w : World) (cfg : Config) (st : State)
    (curr_ldp_scan : LDP) (time : Time) : Transform :=
  measured_offset (solver_state w cfg st time) (solver_output w cfg st curr_ldp_scan time).

(** Both covariance parameters have the entries [processScan] reads. *)
Definition cov_params_ok (cfg : Config) : Prop :=
  (2 <= length (position_covariance_ cfg))%nat /\
  (3 <= length (orientation_covariance_ cfg))%nat.

(** ** The reading callbacks *)

Definition scanCallback (w : World) (cfg : Config) (st : State)
    (scan_msg : LaserScan) : option (State * list Event) :=
  r ← (if negb (initialized_ st) then
         let st := createCache st scan_msg in
         let '(ok, st, ev) := getBaseLaserTransform w cfg st (scan_frame_id scan_msg) in
         if negb ok then Some (inl (st, ev ++ [EvWarn "Skipping scan"]))
         else
           prev ← laserScanToLDP scan_msg;
           let st := set_prev st prev in
           let st := set_last_icp_time st (scan_stamp scan_msg) in
           Some (inr (set_flags st true (received_imu_ st) (received_odom_ st)
                                (received_vel_ st), ev))
       else Some (inr (st, [])));
  match r with
  | inl early => Some early
  | inr (st, ev) =>
      curr_ldp_scan ← laserScanToLDP scan_msg;
      '(st, ev') ← processScan w cfg st curr_ldp_scan (scan_stamp scan_msg);
      Some (st, ev ++ ev')
  end.

Definition cloudToLDP (cfg : Config) (cloud : PointCloudT) : option LDP :=
  PointCloudToLDP (cloud_range_min_ cfg) (cloud_range_max_ cfg) (cloud_res_ cfg) cloud.

Definition cloudCallback (w : World) (cfg : Config) (st : State)
    (cloud : PointCloudT) : option (State * list Event) :=
  r ← (if negb (initialized_ st) then
         let '(ok, st, ev) := getBaseLaserTransform w cfg st (cloud_frame_id cloud) in
         if negb ok then Some (inl (st, ev ++ [EvWarn "Skipping scan"]))
         else
           prev ← cloudToLDP cfg cloud;
           let st := set_prev st prev in
           let st := set_last_icp_time st (cloud_stamp cloud) in
           Some (inr (set_flags st true (received_imu_ st) (received_odom_ st)
                                (received_vel_ st), ev))
       else Some (inr (st, [])));
  match r with
  | inl early => Some early
  | inr (st, ev) =>
      curr_ldp_scan ← cloudToLDP cfg cloud;
      '(st, ev') ← processScan w cfg st curr_ldp_scan (cloud_stamp cloud);
      Some (st, ev ++ ev')
  end.

(** ** The node as a whole *)

(** What arrives; a reading comes with the collaborators' answers for the
    callback it triggers. *)
Inductive Message :=
| MsgScan (w : World) (scan_msg : LaserScan)
| MsgCloud (w : World) (cloud : PointCloudT)
| MsgImu (imu_msg : QuaternionMsg)
| MsgOdom (odom_msg : PoseMsg)
| MsgVel (twist_msg : Twist)
| MsgVelStamped (twist : Twist).

(** The subscriptions made by the constructor. *)
Definition deliver (cfg : Config) (st : State) (m : Message) : option (State * list Event) :=
  match m with
  | MsgScan w scan_msg =>
      if use_cloud_input_ cfg then Some (st, []) else scanCallback w cfg st scan_msg
  | MsgCloud w cloud =>
      if use_cloud_input_ cfg then cloudCallback w cfg st cloud else Some (st, [])
  | MsgImu imu_msg =>
      Some (if use_imu_ cfg then imuCallback st imu_msg else st, [])
  | MsgOdom odom_msg =>
      Some (if use_odom_ cfg then odomCallback st odom_msg else st, [])
  | MsgVel twist_msg =>
      Some (if use_vel_ cfg && negb (stamped_vel_ cfg) then velCallback st twist_msg else st, [])
  | MsgVelStamped twist =>
      Some (if use_vel_ cfg && stamped_vel_ cfg then velStmpCallback st twist else st, [])
  end.

Fixpoint run (cfg : Config) (st : State) (ms : list Message) : option (State * list Event) :=
  match ms with
  | [] => Some (st, [])
  | m :: ms' =>
      '(st, ev) ← deliver cfg st m;
      '(st, ev') ← run cfg st ms';
      Some (st, ev ++ ev')
  end.

(** The states the node can be in. *)
Inductive reachable (cfg : Config) : State -> Prop :=
| reach_new raw : reachable cfg (LaserScanMatcher cfg raw)
| reach_deliver st m st' ev :
    reachable cfg st -> deliver cfg st m = Some (st', ev) -> reachable cfg st'.

(** What tf guarantees of the identity transform: origin 0 and yaw 0. *)
Definition identity_reads_zero : Prop :=
  tf_getX tf_getIdentity = 0%float /\
  tf_getY tf_getIdentity = 0%float /\
  getYaw (tf_getRotation tf_getIdentity) = 0%float.

(** *** The covariance, following the specification

    [R * Sigma * R^T] entry by entry, a matrix being read through its
    indices, and the 6x6 layout of the published covariance. *)

Definition entry (a : Matrix2f) (i j : nat) : float :=
  match i, j with
  | O, O => m00 a
  | O, _ => m01 a
  | _, O => m10 a
  | _, _ => m11 a
  end.

(** [(A * B) (i, j) = A(i,0) * B(0,j) + A(i,1) * B(1,j)], in single precision. *)
Definition product_entry (a b : nat -> nat -> float) (i j : nat) : float :=
  F32.add (F32.mul (a i 0%nat) (b 0%nat j)) (F32.mul (a i 1%nat) (b 1%nat j)).

Definition rotated_entry (r sigma : Matrix2f) (i j : nat) : float :=
  product_entry (product_entry (entry r) (entry sigma)) (fun k l => entry r l k) i j.

(** Position block in the upper left corner, heading variance in the last
    cell, zero elsewhere. *)
Definition layout6 (block : nat -> nat -> float) (yaw_var : float) (i j : nat) : float :=
  if (i <? 2)%nat && (j <? 2)%nat then block i j
  else if (i =? 5)%nat && (j =? 5)%nat then yaw_var
  else 0%float.

(** The heading that [getLaserRotation] takes from a pose. *)
Definition laser_heading (st : State) (odom_pose : Transform) : float :=
  snd (q_getRPY (tf_getRotation (tf_mul odom_pose (laser_from_base_ st)))).

(** The position block of the solver's covariance, as [Matrix2f]. *)
Definition solver_xy (output : sm_result) : Matrix2f :=
  mkMatrix2f (F32.round (cov_x_m output 0 0)%nat) (F32.round (cov_x_m output 0 1)%nat)
             (F32.round (cov_x_m output 1 0)%nat) (F32.round (cov_x_m output 1 1)%nat).

(** The covariance carried by a pose-with-covariance message. *)
Definition event_covariance (e : Event) : option (list float) :=
  match e with
  | EvPoseWithCovariance _ c | EvPoseWithCovarianceStamped _ _ _ c => Some c
  | _ => None
  end.

End Node.

(** ** Notions used by the further properties *)

Section NodeNotions.
Context {X : Externals}.

(** The bearing of sample [i], as both [laserScanToLDP] and [createCache]
    compute it. *)
Definition bearing (scan_msg : LaserScan) (i : nat) : float :=
  F32.add (angle_min scan_msg) (F32.mul (F32.of_nat i) (angle_increment scan_msg)).

(** [atan2(p.y, p.x)]. *)
Definition cloud_bearing (p : PointT) : float := pt_atan2 (pt_y p) (pt_x p).

(** A point set as the builders return it: at least one ray, every array
    with one cell per ray, [odometry] and [true_pose] zero. *)
Definition ldp_built (l : LDP) : Prop :=
  (0 < nrays l)%nat /\
  length (valid l) = nrays l /\
  length (readings l) = nrays l /\
  length (theta l) = nrays l /\
  length (cluster l) = nrays l /\
  odometry l = zero3 /\
  true_pose l = zero3.

(** The solver of the reading reports an invalid result whatever it is
    given; other messages carry no solver. *)
Definition solver_down (m : Message) : Prop :=
  match m with
  | MsgScan w _ | MsgCloud w _ => forall input, sm_valid (sm_icp w input) = 0
  | _ => True
  end.

(** The odometry messages [ms] delivered in order. *)
Definition odom_feed (st : State) (ms : list PoseMsg) : State := foldl odomCallback st ms.

(** The imu messages [ms] delivered in order. *)
Definition imu_feed (st : State) (ms : list QuaternionMsg) : State := foldl imuCallback st ms.

(** The number of output topics that are enabled. *)
Definition enabled_outputs (cfg : Config) : nat :=
  (if publish_pose_ cfg then 1 else 0) +
  (if publish_pose_stamped_ cfg then 1 else 0) +
  (if publish_pose_with_covariance_ cfg then 1 else 0) +
  (if publish_pose_with_covariance_stamped_ cfg then 1 else 0) +
  (if publish_tf_ cfg then 1 else 0).

(** What an output carries, read back from the event: the planar pose of a
    2D pose message, the pose of the other pose messages, the transform of a
    broadcast. *)
Definition carries (ct : Transform) (cfg : Config) (time : Time) (e : Event) : Prop :=
  match e with
  | EvPose2D x y th =>
      x = tf_getX ct /\ y = tf_getY ct /\ th = getYaw (tf_getRotation ct)
  | EvPoseStamped stamp frame pose =>
      stamp = time /\ frame = fixed_frame_ cfg /\ pose = poseTFToMsg ct
  | EvPoseWithCovariance pose _ => pose = poseTFToMsg ct
  | EvPoseWithCovarianceStamped stamp frame pose _ =>
      stamp = time /\ frame = fixed_frame_ cfg /\ pose = poseTFToMsg ct
  | EvSendTransform t stamp frame child =>
      t = ct /\ stamp = time /\ frame = fixed_frame_ cfg /\ child = base_frame_ cfg
  | _ => True
  end.

(** Two states agree on what the matching pipeline tracks: the static
    transforms and whether they are resolved, the time of the last cycle,
    the two poses and the reference scan. *)
Definition same_tracking (a b : State) : Prop :=
  initialized_ a = initialized_ b /\
  base_from_laser_ a = base_from_laser_ b /\
  laser_from_base_ a = laser_from_base_ b /\
  last_icp_time_ a = last_icp_time_ b /\
  last_base_in_fixed_ a = last_base_in_fixed_ b /\
  keyframe_base_in_fixed_ a = keyframe_base_in_fixed_ b /\
  prev_ldp_scan_ a = prev_ldp_scan_ b.

(** Two states agree on what [createCache] writes. *)
Definition same_cache (a b : State) : Prop :=
  a_cos_ a = a_cos_ b /\
  a_sin_ a = a_sin_ b /\
  input_min_reading a = input_min_reading b /\
  input_max_reading a = input_max_reading b.

End NodeNotions.

(** ** A planar implementation of the external libraries

    Poses of the plane with the heading kept as a unit vector, single
    precision cloud points, CSM's allocator, and series for the libm
    functions. It is what the examples below are evaluated with. *)

Module Stub.

Definition M_PI : float := 0x1.921fb54442d18p+1%float.

(** [sum_k term_k] with [term_(k+1) = - term_k * x2 / ((k+1) * (k+2))]. *)
Fixpoint series (n : nat) (k term acc x2 : float) : float :=
  match n with
  | O => acc
  | S n' =>
      let term' := (- term * x2 / ((k + 1) * (k + 2)))%float in
      series n' (k + 2)%float term' (acc + term')%float x2
  end.

Definition cos_series (x : float) : float := series 24 0 1 1 (x * x)%float.
Definition sin_series (x : float) : float := series 24 1 x x (x * x)%float.

(** [tan (a/2)] from [tan a]. *)
Definition half_tan (z : float) : float := (z / (1 + sqrt (1 + z * z)))%float.

Fixpoint atan_terms (n : nat) (k pow acc z2 : float) : float :=
  match n with
  | O => acc
  | S n' =>
      let pow' := (- pow * z2)%float in
      atan_terms n' (k + 2)%float pow' (acc + pow' / (k + 2))%float z2
  end.

Definition atan_series (z : float) : float :=
  let t := half_tan (half_tan (half_tan z)) in
  (8 * atan_terms 16 1 t t (t * t))%float.

Definition atan2_series (y x : float) : float :=
  if PrimFloat.is_nan y || PrimFloat.is_nan x then nan
  else if PrimFloat.ltb 0 x then atan_series (y / x)
  else if PrimFloat.ltb x 0 then
    if PrimFloat.ltb y 0 then (atan_series (y / x) - M_PI)%float
    else (atan_series (y / x) + M_PI)%float
  else if PrimFloat.ltb 0 y then (M_PI / 2)%float
  else if PrimFloat.ltb y 0 then (- (M_PI / 2))%float
  else 0%float.

(** A rotation of the plane: cosine and sine of the heading. *)
Record Rot := mkRot { rc : float; rs : float }.
Record Pose := mkPose { rot : Rot; tx : float; ty : float }.

Definition rot_mul (a b : Rot) : Rot :=
  mkRot (rc a * rc b - rs a * rs b)%float (rc a * rs b + rs a * rc b)%float.
Definition rot_inv (a : Rot) : Rot := mkRot (rc a) (- rs a)%float.

Definition pose_mul (a b : Pose) : Pose :=
  mkPose (rot_mul (rot a) (rot b))
         (tx a + (rc (rot a) * tx b - rs (rot a) * ty b))%float
         (ty a + (rs (rot a) * tx b + rc (rot a) * ty b))%float.
Definition pose_inv (a : Pose) : Pose :=
  mkPose (rot_inv (rot a))
         (- (rc (rot a) * tx a + rs (rot a) * ty a))%float
         (- (rc (rot a) * ty a - rs (rot a) * tx a))%float.

Definition rot_of_msg (q : QuaternionMsg) : Rot :=
  mkRot (qm_w q * qm_w q - qm_z q * qm_z q)%float (2 * qm_w q * qm_z q)%float.
Definition msg_of_rot (r : Rot) : QuaternionMsg :=
  let w := sqrt ((1 + rc r) / 2)%float in
  mkQuaternionMsg 0 0 (rs r / (2 * w))%float w.

Definition float_of_Z (z : Z) : float :=
  SF2Prim (binary_normalize FloatOps.prec FloatOps.emax z 0 false).

#[export] Instance planar : Externals := {|
  Time := Z;                                  (* whole seconds *)
  toSec a b := float_of_Z (a - b);
  Transform := Pose;
  Quaternion := Rot;
  tf_getIdentity := mkPose (mkRot 1 0) 0 0;
  tf_default := mkPose (mkRot nan nan) nan nan;
  tf_mul := pose_mul;
  tf_inverse := pose_inv;
  tf_setOrigin := fun t x y _ => mkPose (rot t) x y;
  tf_setRotation := fun t q => mkPose q (tx t) (ty t);
  tf_getRotation := rot;
  tf_getX := tx;
  tf_getY := ty;
  q_setRPY := fun _ _ y => mkRot (cos_series y) (sin_series y);
  q_getRPY := fun q => (0%float, 0%float, atan2_series (rs q) (rc q));
  q_inverse := rot_inv;
  q_mul := rot_mul;
  getYaw := fun q => atan2_series (rs q) (rc q);
  quaternionMsgToTF := rot_of_msg;
  poseMsgToTF := fun p => mkPose (rot_of_msg (pm_orientation p)) (pm_x p) (pm_y p);
  poseTFToMsg := fun t => mkPoseMsg (tx t) (ty t) 0 (msg_of_rot (rot t));
  cos := cos_series;
  sin := sin_series;
  cosf := fun a => F32.round (cos_series a);
  sinf := fun a => F32.round (sin_series a);
  pt_sub := F32.sub;
  pt_mul := F32.mul;
  pt_add := F32.add;
  pt_sqrt := F32.sqrt;
  pt_atan2 := fun y x => F32.round (atan2_series y x);
  alloc_valid := 0;
  alloc_reading := nan;
  alloc_theta := nan;
  alloc_cluster := -1;
  alloc_bound := nan;
  alloc_pose := nan
|}.

End Stub.

(** ** Example inputs

    A node with the default parameters of [initParams] on the planar
    libraries, a sensor mounted a quarter turn to the left of the base, and
    stubs of the solver. *)

Module Examples.
Import Stub.

(** The parameters, with the defaults of [initParams] for the others. *)
Definition config (cloud : bool) (angular : float) (tf vel odom imu : bool)
    (cov : Z) (pose pose_cov : bool) : Config :=
  mkConfig "base_link" "world" cloud
    (1 / 10)%float 50%float (5 / 100)%float
    (1 / 10)%float angular
    imu odom tf vel false
    true pose false pose_cov false
    (replicate 3 (1 / 1000000000)%float) (replicate 3 (1 / 1000000000)%float)
    cov false.

(** [kf_dist_angular_ = 10.0 * (M_PI / 180.0)]. *)
Definition ten_degrees : float := (10 * (M_PI / 180))%float.

Definition default_config : Config :=
  config false ten_degrees true false true true 0 true false.

(** The storage the node is constructed in. *)
Definition raw : @State planar :=
  @mkState planar true true true true tf_default tf_default (0 : Z)
    (mkQuaternionMsg nan nan nan nan) (mkPoseMsg nan nan nan (mkQuaternionMsg nan nan nan nan))
    (mkTwist nan nan nan) tf_default tf_default tf_default (mkRot nan nan)
    [] [] nan nan (ld_alloc_new 0).

(** Mounts of the sensor: turned left by 90 and by 45 degrees. *)
Definition quarter_turn : option Pose := Some (mkPose (mkRot 0 1) 0 0).
Definition eighth_turn : option Pose :=
  Some (mkPose (mkRot (sqrt (1 / 2)) (sqrt (1 / 2))) 0 0).

Definition diag3 (a b c : float) : gsl_matrix :=
  fun i j =>
    match i, j with
    | 0%nat, 0%nat => a
    | 1%nat, 1%nat => b
    | 2%nat, 2%nat => c
    | _, _ => 0%float
    end.

(** A solver that reports the offset [(x, 0, 0)] with covariance
    [diag (1, 4, 9)], or fails. *)
Definition solver (ok : bool) (x : float) (_ : sm_params) : sm_result :=
  mk_sm_result (if ok then 1 else 0) (x, 0%float, 0%float) (diag3 1 4 9).

(** The collaborators: the answer of the static lookup, whether the timed
    lookup answers, and the solver. *)
Definition world (mount : option Pose) (timed ok : bool) (x : float) : @World planar :=
  @mkWorld planar (fun _ _ => mount)
          (fun _ _ _ _ _ => if timed then Some (mkPose (mkRot 1 0) 3 4) else None)
          (solver ok x).

Definition scan (stamp : Z) (rs : list float) : @LaserScan planar :=
  @mkLaserScan planar stamp "laser" 0%float (1 / 4)%float (1 / 2)%float 10%float rs.

Definition scan1 : @LaserScan planar := scan 1 [1; 2; 11]%float.
Definition scan2 : @LaserScan planar := scan 2 [1; 2; 3; 4]%float.

Definition cloud1 : @PointCloudT planar :=
  @mkPointCloudT planar 1 "laser" [mkPointT nan 1; mkPointT 1 1; mkPointT 2 2].

(** A cloud whose second point is 1/64 away from the first. *)
Definition cloud2 : @PointCloudT planar :=
  @mkPointCloudT planar 2 "laser"
    [mkPointT 1 0; mkPointT 1 (1 / 64); mkPointT 1 1; mkPointT 2 2].

(** The state after [scan1], when the static lookup answers and the solver
    reports no motion. *)
Definition after_first_on (mount : option Pose) (cfg : Config) : @State planar :=
  match scanCallback (world mount false true 0) cfg (LaserScanMatcher cfg raw) scan1 with
  | Some (st, _) => st
  | None => raw
  end.

Definition after_first (cfg : Config) : @State planar := after_first_on quarter_turn cfg.

Definition ldp_of (m : @LaserScan planar) : LDP :=
  match laserScanToLDP m with Some l => l | None => ld_alloc_new 0 end.

(** A state with velocity and odometry data. *)
Definition moving : @State planar :=
  odomCallback
    (odomCallback (velCallback (after_first default_config) (mkTwist 1 0 0))
       (mkPoseMsg 0 0 0 (mkQuaternionMsg 0 0 0 1)))
    (mkPoseMsg 1 2 0 (mkQuaternionMsg 0 0 0 1)).

(** Every prediction source enabled. *)
Definition all_sources : Config :=
  config false ten_degrees true true true true 0 true false.

(** The configuration with a negative angular threshold. *)
Definition negative_angular : Config :=
  config false (-1)%float false false false false 0 true false.

(** The configuration that publishes the solver's covariance. *)
Definition with_covariance : Config :=
  config false ten_degrees false false false false 1 false true.

(** The published covariance for a rotation by [heading]. *)
Definition covariance_for (heading : float) (output : sm_result) : list float :=
  let r := Rotation2Df heading in
  covariance36 (m2_mul (m2_mul r (solver_xy output)) (m2_transpose r))
               (F32.round (cov_x_m output 2 2)%nat).

(** The heading of the keyframe pose, and the heading of the sensor at the
    keyframe. *)
Definition keyframe_heading (st : @State planar) : float :=
  getYaw (tf_getRotation (keyframe_base_in_fixed_ st)).
Definition sensor_heading (st : @State planar) : float :=
  getYaw (tf_getRotation (tf_mul (keyframe_base_in_fixed_ st) (base_from_laser_ st))).

(** A scan with a NaN and an infinite sample, and one with other bounds
    and another angular step. *)
Definition scan3 : @LaserScan planar := scan 3 [1; nan; infinity]%float.
Definition scan4 : @LaserScan planar :=
  @mkLaserScan planar 4 "laser" 0%float (1 / 8)%float 1%float 20%float [3; 4]%float.

Definition ldp_of_cloud (c : @PointCloudT planar) : LDP :=
  match PointCloudToLDP (1 / 10) 50 (5 / 100) c with
  | Some l => l
  | None => ld_alloc_new 0
  end.

(** Odometry and orientation messages. *)
Definition odom1 : PoseMsg := mkPoseMsg 0 0 0 (mkQuaternionMsg 0 0 0 1).
Definition odom2 : PoseMsg := mkPoseMsg 1 2 0 (mkQuaternionMsg 0 0 0 1).
Definition odom3 : PoseMsg := mkPoseMsg 3 2 0 (mkQuaternionMsg 0 0 0 1).
Definition imu1 : QuaternionMsg := mkQuaternionMsg 0 0 0 1.
Definition imu2 : QuaternionMsg := mkQuaternionMsg 0 0 1 0.

(** Odometry as the only prediction source, and orientation as the only
    one. *)
Definition odometry_only : Config :=
  config false ten_degrees false false true false 0 true false.
Definition orientation_only : Config :=
  config false ten_degrees false false false true 0 true false.

(** The configured covariance on the covariance topic. *)
Definition configured_covariance : Config :=
  config false ten_degrees false false false false 0 false true.

(** Cloud input. *)
Definition cloud_input : Config :=
  config true ten_degrees false false false false 0 true false.

(** A cloud of two points 1/2 apart. *)
Definition cloud3 : @PointCloudT planar :=
  @mkPointCloudT planar 3 "laser" [mkPointT 0 0; mkPointT (1 / 2) 0].

(** Both keyframe thresholds NaN. *)
Definition nan_thresholds : Config :=
  mkConfig "base_link" "world" false
    (1 / 10)%float 50%float (5 / 100)%float
    nan nan
    false false false false false
    true true false false false
    (replicate 3 (1 / 1000000000)%float) (replicate 3 (1 / 1000000000)%float)
    0 false.

(** A solver outage: two readings that do not match, and an orientation
    message between them. *)
Definition outage : list (@Message planar) :=
  [MsgScan (world quarter_turn false false 0) scan2;
   MsgImu imu1;
   MsgScan (world quarter_turn false false 0) scan1].

End Examples.

(** ** Tactics for the examples *)

(** [exists s e] for the result [Some (s, e)] that [t] evaluates to. *)
Ltac run_to_result t :=
  let v := eval vm_compute in t in
  lazymatch v with Some (?s, ?e) => exists s, e end.

(** [t = v] by evaluation of [t]. *)
Ltac by_vm :=
  lazymatch goal with |- ?t = _ => vm_cast_no_check (@eq_refl _ t) end.

(** * Properties *)

(** ** Comparisons of doubles *)

Lemma SFltb_irrefl (s : spec_float) : SFltb s s = false.
Proof.
  unfold SFltb, SFcompare.
  destruct s as [[]|[]| |[] m e]; try reflexivity;
    rewrite Z.compare_refl, Pos.compare_cont_refl; reflexivity.
Qed.

Lemma fgt_irrefl (a : float) : fgt a a = false.
Proof. unfold fgt. rewrite ltb_spec. apply SFltb_irrefl. Qed.

Lemma float_neq (a b : float) : PrimFloat.Leibniz.eqb a b = false -> a <> b.
Proof.
  intros H E. apply Leibniz.eqb_spec in E. rewrite E in H. discriminate.
Qed.

(** ** Loops that write one cell per iteration *)

Section ForEach.
Context {A St B : Type}.
Variable body : nat -> A -> St -> St.
Variable get : St -> list B.
Variable wr : nat -> A -> option B.
Hypothesis Hbody : forall i a s,
  get (body i a s) = match wr i a with Some v => <[i:=v]> (get s) | None => get s end.

Lemma body_length i a s : length (get (body i a s)) = length (get s).
Proof. rewrite Hbody. destruct (wr i a); [apply length_insert | reflexivity]. Qed.

Lemma for_each_length xs : forall i s,
  length (get (for_each body i xs s)) = length (get s).
Proof.
  induction xs as [|x xs IH]; intros i s; simpl; [reflexivity|].
  rewrite IH. apply body_length.
Qed.

Lemma for_each_below xs : forall i s j,
  (j < i)%nat -> get (for_each body i xs s) !! j = get s !! j.
Proof.
  induction xs as [|x xs IH]; intros i s j Hj; simpl; [reflexivity|].
  rewrite IH by lia. rewrite Hbody.
  destruct (wr i x); [apply list_lookup_insert_ne; lia | reflexivity].
Qed.

Lemma for_each_lookup xs : forall i s k a,
  xs !! k = Some a -> (i + k < length (get s))%nat ->
  get (for_each body i xs s) !! (i + k)%nat =
  match wr (i + k)%nat a with Some v => Some v | None => get s !! (i + k)%nat end.
Proof.
  induction xs as [|x xs IH]; intros i s k a Hk Hlen; [discriminate|].
  destruct k as [|k]; simpl in Hk.
  - injection Hk as ->. rewrite Nat.add_0_r in *. simpl.
    rewrite for_each_below by lia. rewrite Hbody.
    destruct (wr i a); [apply list_lookup_insert_eq; assumption | reflexivity].
  - simpl. replace (i + S k)%nat with (S i + k)%nat in * by lia.
    rewrite (IH (S i) (body i x s) k a Hk) by (rewrite body_length; assumption).
    destruct (wr (S i + k)%nat a); [reflexivity|].
    rewrite Hbody. destruct (wr i x); [apply list_lookup_insert_ne; lia | reflexivity].
Qed.
End ForEach.

Lemma for_each_preserved {A St C : Type} (body : nat -> A -> St -> St) (f : St -> C)
    (Hf : forall i a s, f (body i a s) = f s) xs :
  forall i s, f (for_each body i xs s) = f s.
Proof.
  induction xs as [|x xs IH]; intros i s; simpl; [reflexivity|].
  rewrite IH. apply Hf.
Qed.

Lemma uint32_pred_lt (n : nat) : (0 < n)%nat -> (uint32_pred n < n)%nat.
Proof.
  intros Hn. unfold uint32_pred.
  assert (0 <= (Z.of_nat n - 1) mod 2 ^ 32 <= Z.of_nat n - 1).
  { split; [apply Z.mod_pos_bound; lia | apply Z.mod_le; lia]. }
  lia.
Qed.

(** ** The point-set builder *)

Section BuilderFacts.
Context {X : Externals}.

Lemma finish_ldp_some (n : nat) (l : LDP) :
  (0 < n)%nat -> length (theta l) = n ->
  exists lo hi,
    finish_ldp n l = Some (set_true_pose (set_odometry (set_bounds l lo hi) zero3) zero3).
Proof.
  intros Hn Hlen. unfold finish_ldp.
  destruct (lookup_lt_is_Some_2 (theta l) 0%nat) as [lo Hlo]; [lia|].
  destruct (lookup_lt_is_Some_2 (theta l) (uint32_pred n)) as [hi Hhi].
  { rewrite Hlen. apply uint32_pred_lt, Hn. }
  exists lo, hi. rewrite Hlo. simpl. rewrite Hhi. reflexivity.
Qed.

Lemma scan_ray_valid m i r l :
  valid (scan_ray m i r l) =
  match Some (if fgt r (range_min m) && flt r (range_max m) then 1 else 0) with
  | Some v => <[i:=v]> (valid l) | None => valid l end.
Proof. unfold scan_ray. destruct (fgt r (range_min m) && flt r (range_max m)); reflexivity. Qed.

Lemma scan_ray_readings m i r l :
  readings (scan_ray m i r l) =
  match Some (if fgt r (range_min m) && flt r (range_max m) then r else (-1)%float) with
  | Some v => <[i:=v]> (readings l) | None => readings l end.
Proof. unfold scan_ray. destruct (fgt r (range_min m) && flt r (range_max m)); reflexivity. Qed.

Lemma scan_ray_theta m i r l :
  theta (scan_ray m i r l) =
  match Some (F32.add (angle_min m) (F32.mul (F32.of_nat i) (angle_increment m))) with
  | Some v => <[i:=v]> (theta l) | None => theta l end.
Proof. unfold scan_ray. destruct (fgt r (range_min m) && flt r (range_max m)); reflexivity. Qed.

Lemma scan_ray_cluster m i r l :
  cluster (scan_ray m i r l) =
  match Some (-1) with Some v => <[i:=v]> (cluster l) | None => cluster l end.
Proof. unfold scan_ray. destruct (fgt r (range_min m) && flt r (range_max m)); reflexivity. Qed.

Lemma scan_ray_nrays m i r l : nrays (scan_ray m i r l) = nrays l.
Proof. unfold scan_ray. destruct (fgt r (range_min m) && flt r (range_max m)); reflexivity. Qed.

(** C6. A range reading with at least one sample is built into a point set
    with one ray per sample, whatever the samples are. Ray [i] is valid
    exactly when [range_min < ranges[i] < range_max] (both strict); a valid
    ray carries the range, an invalid one carries -1; every ray has
    cluster -1 and bearing [angle_min + i * angle_increment], computed in
    single precision as the message fields are. *)
Theorem laserScanToLDP_spec (scan_msg : LaserScan) :
  ranges scan_msg <> [] ->
  exists ldp,
    laserScanToLDP scan_msg = Some ldp /\
    nrays ldp = length (ranges scan_msg) /\
    length (valid ldp) = length (ranges scan_msg) /\
    length (readings ldp) = length (ranges scan_msg) /\
    length (theta ldp) = length (ranges scan_msg) /\
    length (cluster ldp) = length (ranges scan_msg) /\
    forall i r, ranges scan_msg !! i = Some r ->
      (valid ldp !! i = Some 1 <->
       PrimFloat.ltb (range_min scan_msg) r = true /\
       PrimFloat.ltb r (range_max scan_msg) = true) /\
      valid ldp !! i =
        Some (if fgt r (range_min scan_msg) && flt r (range_max scan_msg) then 1 else 0) /\
      readings ldp !! i =
        Some (if fgt r (range_min scan_msg) && flt r (range_max scan_msg)
              then r else (-1)%float) /\
      theta ldp !! i =
        Some (F32.add (angle_min scan_msg)
                      (F32.mul (F32.of_nat i) (angle_increment scan_msg))) /\
      cluster ldp !! i = Some (-1).
Proof.
  intros Hne. unfold laserScanToLDP.
  set (n := length (ranges scan_msg)).
  set (wv := fun (_ : nat) (r : float) =>
               Some (if fgt r (range_min scan_msg) && flt r (range_max scan_msg) then 1 else 0)).
  set (wr := fun (_ : nat) (r : float) =>
               Some (if fgt r (range_min scan_msg) && flt r (range_max scan_msg)
                     then r else (-1)%float)).
  set (wt := fun (i : nat) (_ : float) =>
               Some (F32.add (angle_min scan_msg)
                             (F32.mul (F32.of_nat i) (angle_increment scan_msg)))).
  set (wc := fun (_ : nat) (_ : float) => Some (-1)).
  pose proof (scan_ray_valid scan_msg : forall i a s, _ = match wv i a with _ => _ end) as Bv.
  pose proof (scan_ray_readings scan_msg : forall i a s, _ = match wr i a with _ => _ end) as Br.
  pose proof (scan_ray_theta scan_msg : forall i a s, _ = match wt i a with _ => _ end) as Bt.
  pose proof (scan_ray_cluster scan_msg : forall i a s, _ = match wc i a with _ => _ end) as Bc.
  set (l := for_each (scan_ray scan_msg) 0 (ranges scan_msg) (ld_alloc_new n)).
  assert (Hn : (0 < n)%nat) by (subst n; destruct (ranges scan_msg); simpl; [congruence | lia]).
  assert (Hv : length (valid l) = n).
  { subst l. rewrite (for_each_length _ valid wv Bv). apply length_replicate. }
  assert (Hr : length (readings l) = n).
  { subst l. rewrite (for_each_length _ readings wr Br). apply length_replicate. }
  assert (Ht : length (theta l) = n).
  { subst l. rewrite (for_each_length _ theta wt Bt). apply length_replicate. }
  assert (Hc : length (cluster l) = n).
  { subst l. rewrite (for_each_length _ cluster wc Bc). apply length_replicate. }
  destruct (finish_ldp_some n l Hn Ht) as (lo & hi & ->).
  eexists; split; [reflexivity|]. simpl.
  split. { subst l. apply (for_each_preserved _ nrays (scan_ray_nrays scan_msg)). }
  do 4 (split; [assumption|]).
  intros i r Hi.
  assert (Hlt : (i < n)%nat) by (apply lookup_lt_Some in Hi; exact Hi).
  pose proof (for_each_lookup _ valid wv Bv (ranges scan_msg) 0%nat (ld_alloc_new n) i r Hi) as Ev.
  pose proof (for_each_lookup _ readings wr Br (ranges scan_msg) 0%nat (ld_alloc_new n) i r Hi) as Er.
  pose proof (for_each_lookup _ theta wt Bt (ranges scan_msg) 0%nat (ld_alloc_new n) i r Hi) as Et.
  pose proof (for_each_lookup _ cluster wc Bc (ranges scan_msg) 0%nat (ld_alloc_new n) i r Hi) as Ec.
  simpl in Ev, Er, Et, Ec.
  rewrite length_replicate in Ev; rewrite length_replicate in Er;
  rewrite length_replicate in Et; rewrite length_replicate in Ec.
  fold l in Ev, Er, Et, Ec.
  rewrite (Ev Hlt), (Er Hlt), (Et Hlt), (Ec Hlt).
  split; [|repeat split; reflexivity].
  unfold fgt, flt.
  destruct (PrimFloat.ltb (range_min scan_msg) r),
           (PrimFloat.ltb r (range_max scan_msg)); simpl;
    (split; [intros E; try discriminate E; split; reflexivity
            | intros [E1 E2]; try discriminate E1; try discriminate E2; reflexivity]).
Qed.

Lemma cloud_ray_valid rmin rmax i p l :
  valid (cloud_ray rmin rmax i p l) =
  match (if has_nan p then None
         else Some (if fgt (cloud_range p) rmin && flt (cloud_range p) rmax then 1 else 0)) with
  | Some v => <[i:=v]> (valid l) | None => valid l end.
Proof.
  unfold cloud_ray. destruct (has_nan p); [reflexivity|].
  destruct (fgt (cloud_range p) rmin && flt (cloud_range p) rmax); reflexivity.
Qed.

Lemma cloud_ray_readings rmin rmax i p l :
  readings (cloud_ray rmin rmax i p l) =
  match (if has_nan p then None
         else Some (if fgt (cloud_range p) rmin && flt (cloud_range p) rmax
                    then cloud_range p else (-1)%float)) with
  | Some v => <[i:=v]> (readings l) | None => readings l end.
Proof.
  unfold cloud_ray. destruct (has_nan p); [reflexivity|].
  destruct (fgt (cloud_range p) rmin && flt (cloud_range p) rmax); reflexivity.
Qed.

Lemma cloud_ray_theta rmin rmax i p l :
  theta (cloud_ray rmin rmax i p l) =
  match Some (pt_atan2 (pt_y p) (pt_x p)) with
  | Some v => <[i:=v]> (theta l) | None => theta l end.
Proof.
  unfold cloud_ray. destruct (has_nan p); [reflexivity|].
  destruct (fgt (cloud_range p) rmin && flt (cloud_range p) rmax); reflexivity.
Qed.

Lemma cloud_ray_cluster rmin rmax i p l :
  cluster (cloud_ray rmin rmax i p l) =
  match Some (-1) with Some v => <[i:=v]> (cluster l) | None => cluster l end.
Proof.
  unfold cloud_ray. destruct (has_nan p); [reflexivity|].
  destruct (fgt (cloud_range p) rmin && flt (cloud_range p) rmax); reflexivity.
Qed.

Lemma cloud_ray_nrays rmin rmax i p l : nrays (cloud_ray rmin rmax i p l) = nrays l.
Proof.
  unfold cloud_ray. destruct (has_nan p); [reflexivity|].
  destruct (fgt (cloud_range p) rmin && flt (cloud_range p) rmax); reflexivity.
Qed.

(** The second loop of [PointCloudToLDP], over a non-empty [cloud_f]. *)
Lemma cloud_build rmin rmax (cloud_f : list PointT) :
  cloud_f <> [] ->
  exists ldp,
    finish_ldp (length cloud_f)
      (for_each (cloud_ray rmin rmax) 0 cloud_f (ld_alloc_new (length cloud_f))) = Some ldp /\
    nrays ldp = length cloud_f /\
    length (valid ldp) = length cloud_f /\
    length (readings ldp) = length cloud_f /\
    length (theta ldp) = length cloud_f /\
    length (cluster ldp) = length cloud_f /\
    forall i p, cloud_f !! i = Some p ->
      theta ldp !! i = Some (pt_atan2 (pt_y p) (pt_x p)) /\
      cluster ldp !! i = Some (-1) /\
      (has_nan p = true ->
         valid ldp !! i = Some alloc_valid /\ readings ldp !! i = Some alloc_reading) /\
      (has_nan p = false ->
         valid ldp !! i =
           Some (if fgt (cloud_range p) rmin && flt (cloud_range p) rmax then 1 else 0) /\
         readings ldp !! i =
           Some (if fgt (cloud_range p) rmin && flt (cloud_range p) rmax
                 then cloud_range p else (-1)%float)).
Proof.
  intros Hne.
  set (n := length cloud_f).
  set (wv := fun (_ : nat) (p : PointT) =>
               if has_nan p then None
               else Some (if fgt (cloud_range p) rmin && flt (cloud_range p) rmax then 1 else 0)).
  set (wr := fun (_ : nat) (p : PointT) =>
               if has_nan p then None
               else Some (if fgt (cloud_range p) rmin && flt (cloud_range p) rmax
                          then cloud_range p else (-1)%float)).
  set (wt := fun (_ : nat) (p : PointT) => Some (pt_atan2 (pt_y p) (pt_x p))).
  set (wc := fun (_ : nat) (_ : PointT) => Some (-1)).
  pose proof (cloud_ray_valid rmin rmax : forall i a s, _ = match wv i a with _ => _ end) as Bv.
  pose proof (cloud_ray_readings rmin rmax : forall i a s, _ = match wr i a with _ => _ end) as Br.
  pose proof (cloud_ray_theta rmin rmax : forall i a s, _ = match wt i a with _ => _ end) as Bt.
  pose proof (cloud_ray_cluster rmin rmax : forall i a s, _ = match wc i a with _ => _ end) as Bc.
  set (l := for_each (cloud_ray rmin rmax) 0 cloud_f (ld_alloc_new n)).
  assert (Hn : (0 < n)%nat) by (subst n; destruct cloud_f; simpl; [congruence | lia]).
  assert (Hv : length (valid l) = n).
  { subst l. rewrite (for_each_length _ valid wv Bv). apply length_replicate. }
  assert (Hr : length (readings l) = n).
  { subst l. rewrite (for_each_length _ readings wr Br). apply length_replicate. }
  assert (Ht : length (theta l) = n).
  { subst l. rewrite (for_each_length _ theta wt Bt). apply length_replicate. }
  assert (Hc : length (cluster l) = n).
  { subst l. rewrite (for_each_length _ cluster wc Bc). apply length_replicate. }
  destruct (finish_ldp_some n l Hn Ht) as (lo & hi & ->).
  eexists; split; [reflexivity|]. simpl.
  split. { subst l. apply (for_each_preserved _ nrays (cloud_ray_nrays rmin rmax)). }
  do 4 (split; [assumption|]).
  intros i p Hi.
  assert (Hlt : (i < n)%nat) by (apply lookup_lt_Some in Hi; exact Hi).
  pose proof (for_each_lookup _ valid wv Bv cloud_f 0%nat (ld_alloc_new n) i p Hi) as Ev.
  pose proof (for_each_lookup _ readings wr Br cloud_f 0%nat (ld_alloc_new n) i p Hi) as Er.
  pose proof (for_each_lookup _ theta wt Bt cloud_f 0%nat (ld_alloc_new n) i p Hi) as Et.
  pose proof (for_each_lookup _ cluster wc Bc cloud_f 0%nat (ld_alloc_new n) i p Hi) as Ec.
  simpl in Ev, Er, Et, Ec.
  rewrite length_replicate in Ev; rewrite length_replicate in Er;
  rewrite length_replicate in Et; rewrite length_replicate in Ec.
  fold l in Ev, Er, Et, Ec.
  specialize (Ev Hlt); specialize (Er Hlt).
  rewrite (Et Hlt), (Ec Hlt).
  do 2 (split; [reflexivity|]).
  subst wv wr. simpl in Ev, Er.
  split; intros Hnan; rewrite Hnan in Ev, Er; rewrite Ev, Er.
  - split; apply lookup_replicate_2; exact Hlt.
  - split; reflexivity.
Qed.

(** C5 (amended). From a non-empty cloud the builder returns a point set
    with one ray per point kept by the downsampling pass. For a kept point
    with a NaN coordinate the builder only logs: the valid flag and the range
    of its ray are the ones the allocator put there (the range is not set to
    -1), its bearing and cluster are written like those of any other point,
    and it keeps its position. Every other kept point is valid exactly when
    its range is strictly inside the configured bounds, and carries -1 as
    range otherwise. *)
Theorem PointCloudToLDP_rays (rmin rmax res : float) (cloud : PointCloudT) :
  points cloud <> [] ->
  exists cloud_f ldp,
    cloud_filter res (points cloud) = Some cloud_f /\
    PointCloudToLDP rmin rmax res cloud = Some ldp /\
    nrays ldp = length cloud_f /\
    length (valid ldp) = length cloud_f /\
    length (readings ldp) = length cloud_f /\
    forall i p, cloud_f !! i = Some p ->
      theta ldp !! i = Some (pt_atan2 (pt_y p) (pt_x p)) /\
      cluster ldp !! i = Some (-1) /\
      (has_nan p = true ->
         valid ldp !! i = Some alloc_valid /\ readings ldp !! i = Some alloc_reading) /\
      (has_nan p = false ->
         valid ldp !! i =
           Some (if fgt (cloud_range p) rmin && flt (cloud_range p) rmax then 1 else 0) /\
         readings ldp !! i =
           Some (if fgt (cloud_range p) rmin && flt (cloud_range p) rmax
                 then cloud_range p else (-1)%float)).
Proof.
  intros Hne. unfold PointCloudToLDP.
  destruct (points cloud) as [|p0 rest]; [congruence|].
  simpl cloud_filter.
  destruct (cloud_build rmin rmax (p0 :: filter_loop res p0 rest))
    as (ldp & E & Hn & Hv & Hr & _ & _ & Hcells); [discriminate|].
  exists (p0 :: filter_loop res p0 rest), ldp.
  split; [reflexivity|]. split; [exact E|].
  repeat (split; [assumption|]). exact Hcells.
Qed.

Lemma filter_loop_app res (xs ys : list PointT) : forall pa,
  filter_loop res pa (xs ++ ys) =
  filter_loop res pa xs ++ filter_loop res (default pa (last (filter_loop res pa xs))) ys.
Proof.
  induction xs as [|x xs IH]; intros pa; simpl; [reflexivity|].
  destruct (fgt (dist2 pa x) (max_d2 res)).
  - rewrite IH. simpl. f_equal. f_equal. rewrite last_cons.
    destruct (last (filter_loop res x xs)); reflexivity.
  - apply IH.
Qed.

Lemma filter_loop_spaced res (pts : list PointT) : forall p0 i pa pb,
  (p0 :: filter_loop res p0 pts) !! i = Some pa ->
  (p0 :: filter_loop res p0 pts) !! S i = Some pb ->
  fgt (dist2 pa pb) (max_d2 res) = true.
Proof.
  induction pts as [|x pts IH]; intros p0 i pa pb Ha Hb; simpl in *.
  - destruct i; discriminate.
  - destruct (fgt (dist2 p0 x) (max_d2 res)) eqn:E.
    + destruct i as [|i].
      * simpl in Ha, Hb. injection Ha as <-. injection Hb as <-. exact E.
      * apply (IH x i pa pb); assumption.
    + apply (IH p0 i pa pb); assumption.
Qed.

(** C7 (amended). The downsampling pass of the cloud builder keeps the
    first point whatever it is. When the loop reaches a later point [pb],
    with [kept] the points kept so far and [pa] the last of them, [pb] is
    appended exactly when the squared planar distance [dx*dx + dy*dy] from
    [pa] to [pb] is strictly greater than the squared resolution
    [cloud_res_ * cloud_res_], and that decision is final: the code compares
    the squares, which for a negative resolution is not the comparison of
    the distance with the resolution. Hence the squared distance of any two
    consecutive kept points is greater than the squared resolution, and the
    built point set has one ray per kept point, in the same order. *)
Theorem cloud_filter_greedy (rmin rmax res : float) (stamp : Time) (frame : string)
    (p0 : PointT) (rest : list PointT) :
  exists cloud_f ldp,
    cloud_filter res (p0 :: rest) = Some cloud_f /\
    head cloud_f = Some p0 /\
    (forall pre pb post, rest = pre ++ pb :: post ->
       exists kept pa,
         cloud_filter res (p0 :: pre) = Some kept /\
         last kept = Some pa /\
         cloud_filter res (p0 :: pre ++ [pb]) =
           Some (if fgt (dist2 pa pb) (res * res)%float then kept ++ [pb] else kept) /\
         (if fgt (dist2 pa pb) (res * res)%float then kept ++ [pb] else kept)
           `prefix_of` cloud_f) /\
    (forall i pa pb, cloud_f !! i = Some pa -> cloud_f !! S i = Some pb ->
       fgt (dist2 pa pb) (res * res)%float = true) /\
    PointCloudToLDP rmin rmax res (mkPointCloudT stamp frame (p0 :: rest)) = Some ldp /\
    nrays ldp = length cloud_f /\
    theta ldp = map (fun p => pt_atan2 (pt_y p) (pt_x p)) cloud_f.
Proof.
  destruct (cloud_build rmin rmax (p0 :: filter_loop res p0 rest))
    as (ldp & E & Hn & _ & _ & Ht & _ & Hcells); [discriminate|].
  exists (p0 :: filter_loop res p0 rest), ldp.
  split; [reflexivity|]. split; [reflexivity|].
  split; [|split; [|split; [exact E|split; [exact Hn|]]]].
  - intros pre pb post ->.
    exists (p0 :: filter_loop res p0 pre), (default p0 (last (filter_loop res p0 pre))).
    split; [reflexivity|].
    split. { rewrite last_cons. destruct (last (filter_loop res p0 pre)); reflexivity. }
    assert (Estep : p0 :: filter_loop res p0 (pre ++ [pb]) =
              if fgt (dist2 (default p0 (last (filter_loop res p0 pre))) pb) (res * res)%float
              then (p0 :: filter_loop res p0 pre) ++ [pb] else p0 :: filter_loop res p0 pre).
    { rewrite filter_loop_app. simpl. unfold max_d2.
      destruct (fgt _ _); [reflexivity | simpl; rewrite app_nil_r; reflexivity]. }
    split. { simpl. rewrite Estep. reflexivity. }
    rewrite <- Estep.
    replace (pre ++ pb :: post) with ((pre ++ [pb]) ++ post)
      by (rewrite <- app_assoc; reflexivity).
    rewrite (filter_loop_app res (pre ++ [pb]) post).
    rewrite app_comm_cons. apply prefix_app_r. reflexivity.
  - intros i pa pb Ha Hb. apply (filter_loop_spaced res rest p0 i pa pb Ha Hb).
  - apply list_eq. intros i. rewrite list_lookup_fmap.
    destruct ((p0 :: filter_loop res p0 rest) !! i) as [p|] eqn:Ei.
    + destruct (Hcells i p Ei) as (-> & _). reflexivity.
    + simpl. apply lookup_ge_None. rewrite Ht. apply lookup_ge_None. exact Ei.
Qed.

(** Both builders return on a reading with at least one sample. *)
Lemma laserScanToLDP_some (scan_msg : LaserScan) :
  ranges scan_msg <> [] -> exists ldp, laserScanToLDP scan_msg = Some ldp.
Proof.
  intros Hne. unfold laserScanToLDP.
  set (n := length (ranges scan_msg)).
  set (wt := fun (i : nat) (_ : float) =>
               Some (F32.add (angle_min scan_msg)
                             (F32.mul (F32.of_nat i) (angle_increment scan_msg)))).
  pose proof (scan_ray_theta scan_msg : forall i a s, _ = match wt i a with _ => _ end) as Bt.
  assert (Hn : (0 < n)%nat) by (subst n; destruct (ranges scan_msg); simpl; [congruence | lia]).
  destruct (finish_ldp_some n
              (for_each (scan_ray scan_msg) 0 (ranges scan_msg) (ld_alloc_new n)) Hn)
    as (lo & hi & ->); [|eexists; reflexivity].
  rewrite (for_each_length _ theta wt Bt). apply length_replicate.
Qed.

Lemma PointCloudToLDP_some (rmin rmax res : float) (cloud : PointCloudT) :
  points cloud <> [] -> exists ldp, PointCloudToLDP rmin rmax res cloud = Some ldp.
Proof.
  intros Hne. unfold PointCloudToLDP.
  destruct (points cloud) as [|p0 rest]; [congruence|]. simpl cloud_filter.
  destruct (cloud_build rmin rmax (p0 :: filter_loop res p0 rest)) as (ldp & E & _);
    [discriminate|].
  exists ldp. exact E.
Qed.

(** C8. The builders fail on a reading without samples, and only there:
    [laserScanToLDP] then reads [theta[0]] of an array of length 0 (and
    [theta[n-1]] with [n-1] wrapped around), and [PointCloudToLDP] reads
    [cloud->points[0]] of an empty vector. *)
Theorem builders_empty_input (rmin rmax res : float)
    (scan_msg : LaserScan) (cloud : PointCloudT) :
  (laserScanToLDP scan_msg = None <-> ranges scan_msg = []) /\
  (PointCloudToLDP rmin rmax res cloud = None <-> points cloud = []).
Proof.
  split; split.
  - intros E. destruct (ranges scan_msg) as [|r rs] eqn:Er; [reflexivity|].
    destruct (laserScanToLDP_some scan_msg) as (ldp & El); congruence.
  - intros E. unfold laserScanToLDP. rewrite E. reflexivity.
  - intros E. destruct (points cloud) as [|p ps] eqn:Ep; [reflexivity|].
    destruct (PointCloudToLDP_some rmin rmax res cloud) as (ldp & El); congruence.
  - intros E. unfold PointCloudToLDP. rewrite E. reflexivity.
Qed.

End BuilderFacts.

(** ** Squares are not negative *)

Lemma binary_round_aux_not_neg (mx ex : Z) (lx : location) :
  SFltb (binary_round_aux FloatOps.prec FloatOps.emax false mx ex lx) (S754_zero false) = false.
Proof.
  unfold binary_round_aux.
  destruct (shr_fexp FloatOps.prec FloatOps.emax mx ex lx) as [mrs' e'].
  destruct (shr_fexp FloatOps.prec FloatOps.emax _ e' loc_Exact) as [mrs'' e''].
  destruct (shr_m mrs''); [reflexivity| |reflexivity].
  destruct (Z.leb e'' _); reflexivity.
Qed.

Lemma square_not_neg (l : float) : PrimFloat.ltb (l * l) 0 = false.
Proof.
  rewrite ltb_spec, mul_spec.
  change (Prim2SF 0) with (S754_zero false).
  unfold SF64mul.
  destruct (Prim2SF l) as [sg|sg| |sg m e]; simpl.
  - destruct sg; reflexivity.
  - destruct sg; reflexivity.
  - reflexivity.
  - replace (xorb sg sg) with false by (destruct sg; reflexivity).
    apply binary_round_aux_not_neg.
Qed.

(** ** The pipeline *)

Section PipelineFacts.
Context {X : Externals}.

(** [getPrediction] writes the two "last used" members and nothing else. *)
Lemma getPrediction_state (w : World) (cfg : Config) (st : State) (stamp : Time) :
  exists o q, snd (fst (getPrediction w cfg st stamp)) = set_last_used st o q.
Proof.
  unfold getPrediction.
  destruct (use_odom_ cfg && received_odom_ st); simpl;
    destruct (use_imu_ cfg && received_imu_ st); simpl;
    destruct (use_tf_ cfg); simpl;
    try destruct (lookupTransformAt w _ _ _ _ _); simpl;
    try (eexists; eexists; reflexivity);
    exists (last_used_odom_pose_ st), (last_used_imu_orientation_ st);
    destruct st; reflexivity.
Qed.

(** C1. With the frame lookup enabled, a lookup between the time of the
    previous cycle and the current stamp that succeeds is returned as it is,
    translation and rotation, whichever of the velocity, odometry and
    orientation sources are enabled and have data. When the lookup fails the
    result, and the state left behind, are those of the same call with the
    frame lookup disabled. *)
Theorem getPrediction_tf_precedence (w : World) (cfg : Config) (st : State) (stamp : Time) :
  use_tf_ cfg = true ->
  (forall t,
     lookupTransformAt w (base_frame_ cfg) (last_icp_time_ st)
                         (base_frame_ cfg) stamp (fixed_frame_ cfg) = Some t ->
     fst (fst (getPrediction w cfg st stamp)) = t) /\
  (lookupTransformAt w (base_frame_ cfg) (last_icp_time_ st)
                       (base_frame_ cfg) stamp (fixed_frame_ cfg) = None ->
     fst (getPrediction w cfg st stamp) =
     fst (getPrediction w (with_use_tf cfg false) st stamp)).
Proof.
  intros Htf. unfold getPrediction. rewrite Htf. simpl.
  split; [intros t Hl | intros Hl];
    destruct (use_vel_ cfg); simpl;
    destruct (use_odom_ cfg && received_odom_ st); simpl;
    destruct (use_imu_ cfg && received_imu_ st); simpl;
    rewrite Hl; reflexivity.
Qed.

Lemma newKeyframeNeeded_eq (cfg : Config) (d : Transform) :
  newKeyframeNeeded cfg d =
  fgt (abs (getYaw (tf_getRotation d))) (kf_dist_angular_ cfg) ||
  fgt (tf_getX d * tf_getX d + tf_getY d * tf_getY d)%float
      (kf_dist_linear_ cfg * kf_dist_linear_ cfg)%float.
Proof.
  unfold newKeyframeNeeded, kf_dist_linear_sq_.
  destruct (fgt (abs _) _); [reflexivity|]. simpl. destruct (fgt _ _); reflexivity.
Qed.

(** [processScan], with the prediction and the solver call named. *)
Lemma processScan_eq (w : World) (cfg : Config) (st : State) (curr : LDP) (time : Time) :
  processScan w cfg st curr time =
  let st0 := set_prev st (zero_motion (prev_ldp_scan_ st)) in
  let st1 := solver_state w cfg st time in
  let ev_pred := snd (getPrediction w cfg st0 time) in
  let input := solver_input w cfg st curr time in
  let output := solver_output w cfg st curr time in
  let d := cycle_offset w cfg st curr time in
  if negb (sm_valid output =? 0) then
    let st2 := set_poses st1 (tf_mul (keyframe_base_in_fixed_ st1) d)
                         (keyframe_base_in_fixed_ st1) in
    match covariance cfg st2 output with
    | Some (xy_cov, yaw_cov) =>
        Some (swap cfg st2 curr d time,
              ev_pred ++ [EvIcp input] ++
              publish cfg (level cfg st2 (last_base_in_fixed_ st2)) xy_cov yaw_cov time)
    | None => None
    end
  else Some (swap cfg st1 curr d time,
             ev_pred ++ [EvIcp input] ++ [EvWarn "Error in scan matching"]).
Proof.
  unfold processScan, cycle_offset, solver_output, solver_input, solver_state.
  destruct (getPrediction w cfg _ time) as [[pred st1] evp]. cbn [fst snd].
  destruct (negb (sm_valid _ =? 0)); cbn [mbind option_bind]; [|reflexivity].
  destruct (covariance cfg _ _) as [[xy yaw]|]; reflexivity.
Qed.

Lemma covariance_some (cfg : Config) (st : State) (output : sm_result) :
  cov_params_ok cfg -> exists xy yaw, covariance cfg st output = Some (xy, yaw).
Proof.
  intros [Hp Ho]. unfold covariance.
  destruct (negb (do_compute_covariance cfg =? 0)); [eexists; eexists; reflexivity|].
  destruct (lookup_lt_is_Some_2 (position_covariance_ cfg) 0%nat) as [p0 ->]; [lia|].
  destruct (lookup_lt_is_Some_2 (position_covariance_ cfg) 1%nat) as [p1 ->]; [lia|].
  destruct (lookup_lt_is_Some_2 (orientation_covariance_ cfg) 2%nat) as [o2 ->]; [lia|].
  eexists; eexists; reflexivity.
Qed.

(** C2. A measured offset [d] promotes a new keyframe exactly when
    [|yaw d|] is strictly greater than the angular threshold or
    [x^2 + y^2] is strictly greater than the square of the linear threshold;
    a quantity equal to its threshold does not count. On promotion the
    current point set becomes the reference and the keyframe pose becomes the
    pose of the cycle; otherwise the keyframe pose is kept and the reference
    is the one [processScan] started with (its motion fields zeroed, as at
    the start of every cycle). *)
Theorem keyframe_promotion (w : World) (cfg : Config) (st : State) (curr : LDP) (time : Time) :
  cov_params_ok cfg ->
  (forall d,
     newKeyframeNeeded cfg d = true <->
     PrimFloat.ltb (kf_dist_angular_ cfg) (abs (getYaw (tf_getRotation d))) = true \/
     PrimFloat.ltb (kf_dist_linear_ cfg * kf_dist_linear_ cfg)
                   (tf_getX d * tf_getX d + tf_getY d * tf_getY d) = true) /\
  (forall d,
     abs (getYaw (tf_getRotation d)) = kf_dist_angular_ cfg ->
     newKeyframeNeeded cfg d =
     PrimFloat.ltb (kf_dist_linear_ cfg * kf_dist_linear_ cfg)
                   (tf_getX d * tf_getX d + tf_getY d * tf_getY d)) /\
  (forall d,
     (tf_getX d * tf_getX d + tf_getY d * tf_getY d)%float =
     (kf_dist_linear_ cfg * kf_dist_linear_ cfg)%float ->
     newKeyframeNeeded cfg d =
     PrimFloat.ltb (kf_dist_angular_ cfg) (abs (getYaw (tf_getRotation d)))) /\
  exists st' ev,
    processScan w cfg st curr time = Some (st', ev) /\
    (newKeyframeNeeded cfg (cycle_offset w cfg st curr time) = true ->
       prev_ldp_scan_ st' = curr /\
       keyframe_base_in_fixed_ st' = last_base_in_fixed_ st') /\
    (newKeyframeNeeded cfg (cycle_offset w cfg st curr time) = false ->
       prev_ldp_scan_ st' = zero_motion (prev_ldp_scan_ st) /\
       keyframe_base_in_fixed_ st' = keyframe_base_in_fixed_ st) /\
    (sm_valid (solver_output w cfg st curr time) <> 0 ->
       last_base_in_fixed_ st' =
       tf_mul (keyframe_base_in_fixed_ st) (cycle_offset w cfg st curr time)).
Proof.
  intros Hcov.
  split; [|split; [|split]].
  - intros d. rewrite newKeyframeNeeded_eq. unfold fgt.
    rewrite orb_true_iff. reflexivity.
  - intros d Ha. rewrite newKeyframeNeeded_eq, Ha, fgt_irrefl. reflexivity.
  - intros d Hl. rewrite newKeyframeNeeded_eq, Hl, fgt_irrefl, orb_false_r. reflexivity.
  - rewrite processScan_eq. cbv zeta.
    set (d := cycle_offset w cfg st curr time).
    set (out := solver_output w cfg st curr time).
    unfold solver_state.
    destruct (getPrediction_state w cfg (set_prev st (zero_motion (prev_ldp_scan_ st))) time)
      as (o & q & ->).
    destruct (negb (sm_valid out =? 0)) eqn:Ev.
    + match goal with |- context [covariance cfg ?s out] =>
        destruct (covariance_some cfg s out Hcov) as (xy & yaw & ->) end.
      eexists; eexists; split; [reflexivity|].
      unfold swap.
      destruct (newKeyframeNeeded cfg d); simpl;
        (split; [|split]); intros; try discriminate; auto.
    + eexists; eexists; split; [reflexivity|].
      apply negb_false_iff, Z.eqb_eq in Ev.
      unfold swap.
      destruct (newKeyframeNeeded cfg d); simpl;
        (split; [|split]); intros; try discriminate; try contradiction; auto.
Qed.

Lemma getPrediction_events (w : World) (cfg : Config) (st : State) (stamp : Time) :
  List.filter is_output (snd (getPrediction w cfg st stamp)) = [] /\
  List.filter is_static_lookup (snd (getPrediction w cfg st stamp)) = [] /\
  icp_calls (snd (getPrediction w cfg st stamp)) = [] /\
  forall e, In e (snd (getPrediction w cfg st stamp)) -> event_covariance e = None.
Proof.
  unfold getPrediction.
  destruct (use_odom_ cfg && received_odom_ st); simpl;
    destruct (use_imu_ cfg && received_imu_ st); simpl;
    destruct (use_tf_ cfg); simpl;
    try destruct (lookupTransformAt w _ _ _ _ _); simpl;
    (repeat split; try reflexivity; intros e He;
     repeat (destruct He as [<-|He]; [reflexivity|]); destruct He).
Qed.

Lemma publish_events (cfg : Config) (ct : Transform) (xy : Matrix2f) (yaw : float) (time : Time) :
  List.filter is_static_lookup (publish cfg ct xy yaw time) = [] /\
  icp_calls (publish cfg ct xy yaw time) = [] /\
  forall e c, In e (publish cfg ct xy yaw time) -> event_covariance e = Some c ->
              c = covariance36 xy yaw.
Proof.
  split; [|split].
  - unfold publish.
    destruct (publish_pose_ cfg), (publish_pose_stamped_ cfg),
      (publish_pose_with_covariance_ cfg), (publish_pose_with_covariance_stamped_ cfg),
      (publish_tf_ cfg); reflexivity.
  - unfold publish.
    destruct (publish_pose_ cfg), (publish_pose_stamped_ cfg),
      (publish_pose_with_covariance_ cfg), (publish_pose_with_covariance_stamped_ cfg),
      (publish_tf_ cfg); reflexivity.
  - intros e c He Hc. unfold publish in He.
    repeat match type of He with
           | In _ (_ ++ _) => apply in_app_or in He; destruct He as [He|He]
           end;
      match type of He with In _ (if ?b then _ else _) => destruct b end;
      try (destruct He as [<-|[]]; simpl in Hc; congruence); destruct He.
Qed.

Lemma icp_calls_app (a b : list Event) : icp_calls (a ++ b) = icp_calls a ++ icp_calls b.
Proof.
  induction a as [|e a IH]; simpl; [reflexivity|].
  destruct e; simpl; rewrite IH; reflexivity.
Qed.

Lemma newKeyframeNeeded_identity (cfg : Config) :
  identity_reads_zero ->
  PrimFloat.ltb (kf_dist_angular_ cfg) 0 = false ->
  newKeyframeNeeded cfg tf_getIdentity = false.
Proof.
  intros (Hx & Hy & Hyaw) Hang.
  rewrite newKeyframeNeeded_eq, Hx, Hy, Hyaw. unfold fgt.
  change (abs 0) with 0%float. change (0 * 0 + 0 * 0)%float with 0%float.
  rewrite Hang, square_not_neg. reflexivity.
Qed.

(** C3 (amended). Whenever the solver reports an invalid result, the
    measured offset of the cycle is the identity, the cycle completes, no
    pose message and no frame broadcast is published, and the pose in the
    fixed frame is what it was: all of this whatever the configuration is.
    When in addition the configured angular threshold is not negative (the
    identity transform reading as a zero offset, as tf has it), the keyframe
    pose and the reference point set are what they were too (the reference
    with its motion fields zeroed, as at the start of every cycle). *)
Theorem failed_match_skips_cycle (w : World) (cfg : Config) (st : State)
    (curr : LDP) (time : Time) :
  sm_valid (solver_output w cfg st curr time) = 0 ->
  cycle_offset w cfg st curr time = tf_getIdentity /\
  exists st' ev,
    processScan w cfg st curr time = Some (st', ev) /\
    List.filter is_output ev = [] /\
    last_base_in_fixed_ st' = last_base_in_fixed_ st /\
    (identity_reads_zero ->
     PrimFloat.ltb (kf_dist_angular_ cfg) 0 = false ->
     keyframe_base_in_fixed_ st' = keyframe_base_in_fixed_ st /\
     prev_ldp_scan_ st' = zero_motion (prev_ldp_scan_ st)).
Proof.
  intros Hinv.
  assert (Hd : cycle_offset w cfg st curr time = tf_getIdentity).
  { unfold cycle_offset, measured_offset. rewrite Hinv. reflexivity. }
  split; [exact Hd|].
  rewrite processScan_eq. cbv zeta. rewrite Hinv, Hd. simpl negb. cbv iota.
  eexists; eexists; split; [reflexivity|].
  split.
  { rewrite !List.filter_app.
    destruct (getPrediction_events w cfg
                (set_prev st (zero_motion (prev_ldp_scan_ st))) time) as (-> & _).
    reflexivity. }
  unfold solver_state.
  destruct (getPrediction_state w cfg (set_prev st (zero_motion (prev_ldp_scan_ st))) time)
    as (o & q & ->).
  split.
  { unfold swap. destruct (newKeyframeNeeded cfg tf_getIdentity); reflexivity. }
  intros Hid Hang.
  unfold swap. rewrite (newKeyframeNeeded_identity cfg Hid Hang).
  simpl. auto.
Qed.

Lemma covariance36_layout (xy : Matrix2f) (yaw : float) (i j : nat) :
  (i < 6)%nat -> (j < 6)%nat ->
  covariance36 xy yaw !! (6 * i + j)%nat = Some (layout6 (entry xy) yaw i j).
Proof.
  intros Hi Hj.
  destruct i as [|[|[|[|[|[|i]]]]]]; try lia;
    destruct j as [|[|[|[|[|[|j]]]]]]; try lia; reflexivity.
Qed.

Lemma layout6_ext (b1 b2 : nat -> nat -> float) (yaw : float) (i j : nat) :
  (forall i' j', (i' < 2)%nat -> (j' < 2)%nat -> b1 i' j' = b2 i' j') ->
  layout6 b1 yaw i j = layout6 b2 yaw i j.
Proof.
  intros H. unfold layout6.
  destruct (i <? 2)%nat eqn:Ei; [|reflexivity].
  destruct (j <? 2)%nat eqn:Ej; [|reflexivity].
  simpl. apply H; apply Nat.ltb_lt; assumption.
Qed.

(** Eigen's [rotation * xy_cov * rotation.transpose()], entry by entry. *)
Lemma entry_rotated (r sigma : Matrix2f) (i j : nat) :
  (i < 2)%nat -> (j < 2)%nat ->
  entry (m2_mul (m2_mul r sigma) (m2_transpose r)) i j = rotated_entry r sigma i j.
Proof.
  intros Hi Hj.
  destruct i as [|[|i]]; try lia; destruct j as [|[|j]]; try lia;
    cbv [rotated_entry product_entry entry m2_mul m2_transpose m00 m01 m10 m11];
    reflexivity.
Qed.

(** C4. What the code publishes where the claim has the rotation by the
    keyframe's heading. When the match is valid and the solver computes the
    covariance, every pose-with-covariance message of the cycle carries, in
    the upper left 2x2 block of its 6x6 covariance, [R * Sigma * R^T] with
    [Sigma] the 2x2 position block of the solver's matrix; the last cell
    carries the solver's (2,2) entry, not rotated, and all other cells are
    zero; such a message is published for each of the two enabled topics.
    The rotation [R], however, is by the heading [getLaserRotation] returns,
    the yaw of the keyframe pose composed with [laser_from_base_]: neither
    the heading of the keyframe, which the claim names, nor the heading of
    the sensor in the fixed frame, which the function's own names
    [laser_in_fixed] and [fixed_from_laser_rot] announce and which takes
    [base_from_laser_]. With a sensor mounted at a yaw the three differ. *)
Theorem covariance_projection (w : World) (cfg : Config) (st : State)
    (curr : LDP) (time : Time) :
  sm_valid (solver_output w cfg st curr time) <> 0 ->
  do_compute_covariance cfg <> 0 ->
  exists st' ev,
    processScan w cfg st curr time = Some (st', ev) /\
    (publish_pose_with_covariance_ cfg = true ->
       exists pose c, In (EvPoseWithCovariance pose c) ev) /\
    (publish_pose_with_covariance_stamped_ cfg = true ->
       exists pose c, In (EvPoseWithCovarianceStamped time (fixed_frame_ cfg) pose c) ev) /\
    forall e c, In e ev -> event_covariance e = Some c ->
      length c = 36%nat /\
      forall i j, (i < 6)%nat -> (j < 6)%nat ->
        c !! (6 * i + j)%nat =
        Some (layout6
                (rotated_entry
                   (Rotation2Df (laser_heading st (keyframe_base_in_fixed_ st)))
                   (solver_xy (solver_output w cfg st curr time)))
                (F32.round (cov_x_m (solver_output w cfg st curr time) 2 2)%nat)
                i j).
Proof.
  intros Hvalid Hcov.
  rewrite processScan_eq. cbv zeta.
  set (out := solver_output w cfg st curr time) in *.
  set (d := cycle_offset w cfg st curr time).
  apply Z.eqb_neq in Hvalid. rewrite Hvalid. simpl negb. cbv iota.
  unfold solver_state.
  destruct (getPrediction_state w cfg (set_prev st (zero_motion (prev_ldp_scan_ st))) time)
    as (o & q & ->).
  unfold covariance. apply Z.eqb_neq in Hcov. rewrite Hcov. simpl negb. cbv iota.
  eexists; eexists; split; [reflexivity|].
  split; [|split].
  - intros Hp. do 2 eexists. apply in_or_app. right. apply in_cons.
    unfold publish. rewrite Hp.
    do 2 (apply in_or_app; right). apply in_or_app. left. apply in_eq.
  - intros Hp. do 2 eexists. apply in_or_app. right. apply in_cons.
    unfold publish. rewrite Hp.
    do 3 (apply in_or_app; right). apply in_or_app. left. apply in_eq.
  - intros e c He Hc.
    apply in_app_or in He. destruct He as [He|[<-|He]].
    + destruct (getPrediction_events w cfg
                  (set_prev st (zero_motion (prev_ldp_scan_ st))) time) as (_ & _ & _ & Hn).
      rewrite (Hn e He) in Hc. discriminate.
    + discriminate.
    + change ([] ++ ?l) with l in He.
      match type of He with In e (publish cfg ?ct ?xy ?yaw time) =>
        destruct (publish_events cfg ct xy yaw time) as (_ & _ & Hpub) end.
      rewrite (Hpub e c He Hc).
      split; [reflexivity|].
      intros i j Hi Hj. rewrite (covariance36_layout _ _ i j Hi Hj). f_equal.
      apply layout6_ext. intros i' j' Hi' Hj'.
      rewrite <- (entry_rotated _ _ i' j' Hi' Hj').
      unfold getLaserRotation, laser_heading. cbn [laser_from_base_ set_poses set_last_used set_prev
        keyframe_base_in_fixed_].
      destruct (q_getRPY _) as [[r p] y]. reflexivity.
Qed.

Lemma solver_input_scans (w : World) (cfg : Config) (st : State) (curr : LDP) (time : Time) :
  laser_ref (solver_input w cfg st curr time) = zero_motion (prev_ldp_scan_ st) /\
  laser_sens (solver_input w cfg st curr time) = curr.
Proof.
  unfold solver_input.
  destruct (getPrediction_state w cfg (set_prev st (zero_motion (prev_ldp_scan_ st))) time)
    as (o & q & E).
  simpl. rewrite E. split; reflexivity.
Qed.

(** What a cycle leaves alone, and what it logs. *)
Lemma processScan_frame (w : World) (cfg : Config) (st : State) (curr : LDP) (time : Time)
    (st' : State) (ev : list Event) :
  processScan w cfg st curr time = Some (st', ev) ->
  initialized_ st' = initialized_ st /\
  base_from_laser_ st' = base_from_laser_ st /\
  laser_from_base_ st' = laser_from_base_ st /\
  List.filter is_static_lookup ev = [] /\
  icp_calls ev = [solver_input w cfg st curr time].
Proof.
  rewrite processScan_eq. cbv zeta. unfold solver_state.
  destruct (getPrediction_events w cfg (set_prev st (zero_motion (prev_ldp_scan_ st))) time)
    as (_ & Hs & Hi & _).
  destruct (getPrediction_state w cfg (set_prev st (zero_motion (prev_ldp_scan_ st))) time)
    as (o & q & ->).
  destruct (negb (sm_valid _ =? 0)).
  - destruct (covariance cfg _ _) as [[xy yaw]|]; [|discriminate].
    intros H. injection H as <- <-.
    split; [|split; [|split; [|split]]];
      try (unfold swap; destruct (newKeyframeNeeded cfg _); reflexivity).
    + rewrite List.filter_app, Hs. cbn [app List.filter is_static_lookup].
      apply publish_events.
    + rewrite icp_calls_app, Hi. cbn [app icp_calls]. f_equal.
      apply publish_events.
  - intros H. injection H as <- <-.
    split; [|split; [|split; [|split]]];
      try (unfold swap; destruct (newKeyframeNeeded cfg _); reflexivity).
    + rewrite List.filter_app, Hs. reflexivity.
    + rewrite icp_calls_app, Hi. reflexivity.
Qed.

Lemma processScan_total (w : World) (cfg : Config) (st : State) (curr : LDP) (time : Time) :
  cov_params_ok cfg -> exists st' ev, processScan w cfg st curr time = Some (st', ev).
Proof.
  intros Hcov. rewrite processScan_eq. cbv zeta.
  destruct (negb (sm_valid _ =? 0)); [|eexists; eexists; reflexivity].
  match goal with |- context [covariance cfg ?s ?o] =>
    destruct (covariance_some cfg s o Hcov) as (xy & yaw & ->) end.
  eexists; eexists; reflexivity.
Qed.

(** The three ways a reading callback can go, for the scan callback. *)
Lemma scanCallback_cases (w : World) (cfg : Config) (st : State) (scan_msg : LaserScan) :
  (initialized_ st = false ->
   lookupTransform w (base_frame_ cfg) (scan_frame_id scan_msg) = None ->
   scanCallback w cfg st scan_msg =
   Some (createCache st scan_msg,
         [EvLookup (base_frame_ cfg) (scan_frame_id scan_msg);
          EvWarn "Could not get initial transform from base to laser frame";
          EvWarn "Skipping scan"])) /\
  (forall t, initialized_ st = false ->
   lookupTransform w (base_frame_ cfg) (scan_frame_id scan_msg) = Some t ->
   scanCallback w cfg st scan_msg =
   ldp ← laserScanToLDP scan_msg;
   '(st', ev) ← processScan w cfg
       (set_flags
          (set_last_icp_time
             (set_prev (set_static (createCache st scan_msg) t (tf_inverse t)) ldp)
             (scan_stamp scan_msg))
          true (received_imu_ st) (received_odom_ st) (received_vel_ st))
       ldp (scan_stamp scan_msg);
   Some (st', EvLookup (base_frame_ cfg) (scan_frame_id scan_msg) :: ev)) /\
  (initialized_ st = true ->
   scanCallback w cfg st scan_msg =
   ldp ← laserScanToLDP scan_msg;
   '(st', ev) ← processScan w cfg st ldp (scan_stamp scan_msg);
   Some (st', ev)).
Proof.
  unfold scanCallback, getBaseLaserTransform.
  split; [|split].
  - intros -> E. simpl. rewrite E. reflexivity.
  - intros t -> E. simpl. rewrite E. simpl.
    destruct (laserScanToLDP scan_msg) as [ldp|]; [|reflexivity]. simpl.
    destruct (processScan _ _ _ _ _) as [[st' ev]|]; reflexivity.
  - intros ->. simpl.
    destruct (laserScanToLDP scan_msg) as [ldp|]; [|reflexivity]. simpl.
    destruct (processScan _ _ _ _ _) as [[st' ev]|]; reflexivity.
Qed.

Lemma cloudCallback_cases (w : World) (cfg : Config) (st : State) (cloud : PointCloudT) :
  (initialized_ st = false ->
   lookupTransform w (base_frame_ cfg) (cloud_frame_id cloud) = None ->
   cloudCallback w cfg st cloud =
   Some (st,
         [EvLookup (base_frame_ cfg) (cloud_frame_id cloud);
          EvWarn "Could not get initial transform from base to laser frame";
          EvWarn "Skipping scan"])) /\
  (forall t, initialized_ st = false ->
   lookupTransform w (base_frame_ cfg) (cloud_frame_id cloud) = Some t ->
   cloudCallback w cfg st cloud =
   ldp ← cloudToLDP cfg cloud;
   '(st', ev) ← processScan w cfg
       (set_flags
          (set_last_icp_time
             (set_prev (set_static st t (tf_inverse t)) ldp)
             (cloud_stamp cloud))
          true (received_imu_ st) (received_odom_ st) (received_vel_ st))
       ldp (cloud_stamp cloud);
   Some (st', EvLookup (base_frame_ cfg) (cloud_frame_id cloud) :: ev)) /\
  (initialized_ st = true ->
   cloudCallback w cfg st cloud =
   ldp ← cloudToLDP cfg cloud;
   '(st', ev) ← processScan w cfg st ldp (cloud_stamp cloud);
   Some (st', ev)).
Proof.
  unfold cloudCallback, getBaseLaserTransform.
  split; [|split].
  - intros -> E. simpl. rewrite E. reflexivity.
  - intros t -> E. simpl. rewrite E. simpl.
    destruct (cloudToLDP cfg cloud) as [ldp|]; [|reflexivity]. simpl.
    destruct (processScan _ _ _ _ _) as [[st' ev]|]; reflexivity.
  - intros ->. simpl.
    destruct (cloudToLDP cfg cloud) as [ldp|]; [|reflexivity]. simpl.
    destruct (processScan _ _ _ _ _) as [[st' ev]|]; reflexivity.
Qed.

Lemma deliver_steady (cfg : Config) (st : State) (m : Message) (st' : State) (ev : list Event) :
  initialized_ st = true ->
  deliver cfg st m = Some (st', ev) ->
  initialized_ st' = true /\
  base_from_laser_ st' = base_from_laser_ st /\
  laser_from_base_ st' = laser_from_base_ st /\
  List.filter is_static_lookup ev = [].
Proof.
  intros Hini. destruct m as [w scan_msg|w cloud|imu_msg|odom_msg|twist_msg|twist]; simpl.
  - destruct (use_cloud_input_ cfg); [intros H; injection H as <- <-; auto|].
    rewrite (proj2 (proj2 (scanCallback_cases w cfg st scan_msg)) Hini).
    destruct (laserScanToLDP scan_msg) as [ldp|]; [|discriminate]. simpl.
    destruct (processScan w cfg st ldp _) as [[s e]|] eqn:E; [|discriminate]. simpl.
    intros H; injection H as <- <-.
    destruct (processScan_frame _ _ _ _ _ _ _ E) as (-> & -> & -> & -> & _). auto.
  - destruct (use_cloud_input_ cfg); [|intros H; injection H as <- <-; auto].
    rewrite (proj2 (proj2 (cloudCallback_cases w cfg st cloud)) Hini).
    destruct (cloudToLDP cfg cloud) as [ldp|]; [|discriminate]. simpl.
    destruct (processScan w cfg st ldp _) as [[s e]|] eqn:E; [|discriminate]. simpl.
    intros H; injection H as <- <-.
    destruct (processScan_frame _ _ _ _ _ _ _ E) as (-> & -> & -> & -> & _). auto.
  - intros H; injection H as <- <-. unfold imuCallback.
    destruct (use_imu_ cfg); [|auto]. simpl. destruct (received_imu_ st); simpl; auto.
  - intros H; injection H as <- <-. unfold odomCallback.
    destruct (use_odom_ cfg); [|auto]. simpl. destruct (received_odom_ st); simpl; auto.
  - intros H; injection H as <- <-.
    destruct (use_vel_ cfg && negb (stamped_vel_ cfg)); simpl; auto.
  - intros H; injection H as <- <-.
    destruct (use_vel_ cfg && stamped_vel_ cfg); simpl; auto.
Qed.

Lemma run_steady (cfg : Config) (ms : list Message) : forall st st' ev,
  initialized_ st = true ->
  run cfg st ms = Some (st', ev) ->
  initialized_ st' = true /\
  base_from_laser_ st' = base_from_laser_ st /\
  laser_from_base_ st' = laser_from_base_ st /\
  List.filter is_static_lookup ev = [].
Proof.
  induction ms as [|m ms IH]; intros st st' ev Hini; simpl.
  - intros H; injection H as <- <-. auto.
  - destruct (deliver cfg st m) as [[s1 e1]|] eqn:E1; [|discriminate]. simpl.
    destruct (run cfg s1 ms) as [[s2 e2]|] eqn:E2; [|discriminate]. simpl.
    intros H; injection H as <- <-.
    destruct (deliver_steady cfg st m s1 e1 Hini E1) as (H1 & <- & <- & F1).
    destruct (IH s1 s2 e2 H1 E2) as (H2 & -> & -> & F2).
    rewrite List.filter_app, F1, F2. auto.
Qed.

(** C9. While [initialized_] is false every reading makes one query for
    the static transform between base and sensor. When the query fails the
    reading is dropped: the callback returns after the query and two
    warnings, and [initialized_] stays false, so the next reading queries
    again. When it succeeds and the callback completes, the transform and its
    inverse are cached and [initialized_] is true. From then on, whatever
    arrives, [initialized_] stays true, the cached transforms are not written
    and the static transform is not queried. *)
Theorem static_transform_state_machine (cfg : Config) :
  (forall w st scan_msg,
     initialized_ st = false ->
     lookupTransform w (base_frame_ cfg) (scan_frame_id scan_msg) = None ->
     exists st',
       scanCallback w cfg st scan_msg =
       Some (st', [EvLookup (base_frame_ cfg) (scan_frame_id scan_msg);
                   EvWarn "Could not get initial transform from base to laser frame";
                   EvWarn "Skipping scan"]) /\
       initialized_ st' = false /\
       prev_ldp_scan_ st' = prev_ldp_scan_ st /\
       last_base_in_fixed_ st' = last_base_in_fixed_ st /\
       keyframe_base_in_fixed_ st' = keyframe_base_in_fixed_ st) /\
  (forall w st cloud,
     initialized_ st = false ->
     lookupTransform w (base_frame_ cfg) (cloud_frame_id cloud) = None ->
     cloudCallback w cfg st cloud =
     Some (st, [EvLookup (base_frame_ cfg) (cloud_frame_id cloud);
                EvWarn "Could not get initial transform from base to laser frame";
                EvWarn "Skipping scan"])) /\
  (forall w st scan_msg t st' ev,
     initialized_ st = false ->
     lookupTransform w (base_frame_ cfg) (scan_frame_id scan_msg) = Some t ->
     scanCallback w cfg st scan_msg = Some (st', ev) ->
     initialized_ st' = true /\
     base_from_laser_ st' = t /\
     laser_from_base_ st' = tf_inverse t /\
     List.filter is_static_lookup ev =
       [EvLookup (base_frame_ cfg) (scan_frame_id scan_msg)]) /\
  (forall w st cloud t st' ev,
     initialized_ st = false ->
     lookupTransform w (base_frame_ cfg) (cloud_frame_id cloud) = Some t ->
     cloudCallback w cfg st cloud = Some (st', ev) ->
     initialized_ st' = true /\
     base_from_laser_ st' = t /\
     laser_from_base_ st' = tf_inverse t /\
     List.filter is_static_lookup ev =
       [EvLookup (base_frame_ cfg) (cloud_frame_id cloud)]) /\
  (forall w st scan_msg,
     cov_params_ok cfg -> ranges scan_msg <> [] ->
     exists st' ev, scanCallback w cfg st scan_msg = Some (st', ev)) /\
  (forall w st cloud,
     cov_params_ok cfg -> points cloud <> [] ->
     exists st' ev, cloudCallback w cfg st cloud = Some (st', ev)) /\
  (forall st ms st' ev,
     initialized_ st = true ->
     run cfg st ms = Some (st', ev) ->
     initialized_ st' = true /\
     base_from_laser_ st' = base_from_laser_ st /\
     laser_from_base_ st' = laser_from_base_ st /\
     List.filter is_static_lookup ev = []).
Proof.
  repeat apply conj.
  - intros w st scan_msg Hini Hl.
    rewrite (proj1 (scanCallback_cases w cfg st scan_msg) Hini Hl).
    eexists; split; [reflexivity|]. simpl. auto.
  - intros w st cloud Hini Hl.
    apply (proj1 (cloudCallback_cases w cfg st cloud) Hini Hl).
  - intros w st scan_msg t st' ev Hini Hl.
    rewrite (proj1 (proj2 (scanCallback_cases w cfg st scan_msg)) t Hini Hl).
    destruct (laserScanToLDP scan_msg) as [ldp|]; [|discriminate]. simpl.
    destruct (processScan _ _ _ _ _) as [[s e]|] eqn:E; [|discriminate]. simpl.
    intros H; injection H as <- <-.
    destruct (processScan_frame _ _ _ _ _ _ _ E) as (-> & -> & -> & F & _).
    simpl. rewrite F. auto.
  - intros w st cloud t st' ev Hini Hl.
    rewrite (proj1 (proj2 (cloudCallback_cases w cfg st cloud)) t Hini Hl).
    destruct (cloudToLDP cfg cloud) as [ldp|]; [|discriminate]. simpl.
    destruct (processScan _ _ _ _ _) as [[s e]|] eqn:E; [|discriminate]. simpl.
    intros H; injection H as <- <-.
    destruct (processScan_frame _ _ _ _ _ _ _ E) as (-> & -> & -> & F & _).
    simpl. rewrite F. auto.
  - intros w st scan_msg Hcov Hne.
    destruct (laserScanToLDP_some scan_msg Hne) as (ldp & El).
    destruct (initialized_ st) eqn:Hini.
    + rewrite (proj2 (proj2 (scanCallback_cases w cfg st scan_msg)) Hini), El. simpl.
      destruct (processScan_total w cfg st ldp (scan_stamp scan_msg) Hcov) as (s & e & ->).
      eexists; eexists; reflexivity.
    + destruct (lookupTransform w (base_frame_ cfg) (scan_frame_id scan_msg)) as [t|] eqn:Hl.
      * rewrite (proj1 (proj2 (scanCallback_cases w cfg st scan_msg)) t Hini Hl), El. simpl.
        match goal with |- context [processScan w cfg ?s0 ldp ?tm] =>
          destruct (processScan_total w cfg s0 ldp tm Hcov) as (s & e & ->) end.
        eexists; eexists; reflexivity.
      * rewrite (proj1 (scanCallback_cases w cfg st scan_msg) Hini Hl).
        eexists; eexists; reflexivity.
  - intros w st cloud Hcov Hne.
    destruct (PointCloudToLDP_some (cloud_range_min_ cfg) (cloud_range_max_ cfg)
                (cloud_res_ cfg) cloud Hne) as (ldp & El).
    fold (cloudToLDP cfg cloud) in El.
    destruct (initialized_ st) eqn:Hini.
    + rewrite (proj2 (proj2 (cloudCallback_cases w cfg st cloud)) Hini), El. simpl.
      destruct (processScan_total w cfg st ldp (cloud_stamp cloud) Hcov) as (s & e & ->).
      eexists; eexists; reflexivity.
    + destruct (lookupTransform w (base_frame_ cfg) (cloud_frame_id cloud)) as [t|] eqn:Hl.
      * rewrite (proj1 (proj2 (cloudCallback_cases w cfg st cloud)) t Hini Hl), El. simpl.
        match goal with |- context [processScan w cfg ?s0 ldp ?tm] =>
          destruct (processScan_total w cfg s0 ldp tm Hcov) as (s & e & ->) end.
        eexists; eexists; reflexivity.
      * rewrite (proj1 (cloudCallback_cases w cfg st cloud) Hini Hl).
        eexists; eexists; reflexivity.
  - intros st ms st' ev. apply run_steady.
Qed.

Lemma deliver_uninitialized (cfg : Config) (st : State) (m : Message)
    (st' : State) (ev : list Event) :
  deliver cfg st m = Some (st', ev) ->
  initialized_ st' = false ->
  initialized_ st = false /\
  last_base_in_fixed_ st' = last_base_in_fixed_ st /\
  keyframe_base_in_fixed_ st' = keyframe_base_in_fixed_ st.
Proof.
  intros E Hf.
  destruct (initialized_ st) eqn:Hini.
  { destruct (deliver_steady cfg st m st' ev Hini E) as (Ht & _). congruence. }
  split; [reflexivity|].
  destruct m as [w scan_msg|w cloud|imu_msg|odom_msg|twist_msg|twist]; simpl in E.
  - destruct (use_cloud_input_ cfg); [injection E as <- <-; auto|].
    destruct (lookupTransform w (base_frame_ cfg) (scan_frame_id scan_msg)) as [t|] eqn:Hl.
    + rewrite (proj1 (proj2 (scanCallback_cases w cfg st scan_msg)) t Hini Hl) in E.
      destruct (laserScanToLDP scan_msg) as [ldp|]; [|discriminate]. simpl in E.
      destruct (processScan _ _ _ _ _) as [[s e]|] eqn:Ep; [|discriminate]. simpl in E.
      injection E as <- <-.
      destruct (processScan_frame _ _ _ _ _ _ _ Ep) as (Hi & _).
      simpl in Hi. congruence.
    + rewrite (proj1 (scanCallback_cases w cfg st scan_msg) Hini Hl) in E.
      injection E as <- <-. simpl. auto.
  - destruct (use_cloud_input_ cfg); [|injection E as <- <-; auto].
    destruct (lookupTransform w (base_frame_ cfg) (cloud_frame_id cloud)) as [t|] eqn:Hl.
    + rewrite (proj1 (proj2 (cloudCallback_cases w cfg st cloud)) t Hini Hl) in E.
      destruct (cloudToLDP cfg cloud) as [ldp|]; [|discriminate]. simpl in E.
      destruct (processScan _ _ _ _ _) as [[s e]|] eqn:Ep; [|discriminate]. simpl in E.
      injection E as <- <-.
      destruct (processScan_frame _ _ _ _ _ _ _ Ep) as (Hi & _).
      simpl in Hi. congruence.
    + rewrite (proj1 (cloudCallback_cases w cfg st cloud) Hini Hl) in E.
      injection E as <- <-. auto.
  - injection E as <- <-. unfold imuCallback.
    destruct (use_imu_ cfg); [|auto]. simpl. destruct (received_imu_ st); simpl; auto.
  - injection E as <- <-. unfold odomCallback.
    destruct (use_odom_ cfg); [|auto]. simpl. destruct (received_odom_ st); simpl; auto.
  - injection E as <- <-.
    destruct (use_vel_ cfg && negb (stamped_vel_ cfg)); simpl; auto.
  - injection E as <- <-.
    destruct (use_vel_ cfg && stamped_vel_ cfg); simpl; auto.
Qed.

(** Until the static transform is resolved both poses are the identity
    the constructor put there. *)
Lemma reachable_identity (cfg : Config) (st : State) :
  reachable cfg st ->
  initialized_ st = false ->
  last_base_in_fixed_ st = tf_getIdentity /\
  keyframe_base_in_fixed_ st = tf_getIdentity.
Proof.
  induction 1 as [raw|st m st' ev Hr IH E]; intros Hf.
  - unfold LaserScanMatcher. destruct (use_cloud_input_ cfg); simpl; auto.
  - destruct (deliver_uninitialized cfg st m st' ev E Hf) as (Hi & -> & ->).
    apply IH, Hi.
Qed.

(** C10. On the reading for which the static transform resolves, the
    point set built from that reading is stored as the reference and built
    again as the current one, and the only solver call of the callback gets
    both: the reading is aligned against itself, the pose and the keyframe
    pose being the identity. On every later reading the solver gets the
    stored reference and the point set built from the reading. *)
Theorem first_reading_is_its_own_reference (cfg : Config) :
  (forall w st scan_msg t st' ev,
     reachable cfg st ->
     initialized_ st = false ->
     lookupTransform w (base_frame_ cfg) (scan_frame_id scan_msg) = Some t ->
     scanCallback w cfg st scan_msg = Some (st', ev) ->
     exists ldp input,
       laserScanToLDP scan_msg = Some ldp /\
       icp_calls ev = [input] /\
       laser_ref input = zero_motion ldp /\
       laser_sens input = ldp /\
       last_base_in_fixed_ st = tf_getIdentity /\
       keyframe_base_in_fixed_ st = tf_getIdentity) /\
  (forall w st cloud t st' ev,
     reachable cfg st ->
     initialized_ st = false ->
     lookupTransform w (base_frame_ cfg) (cloud_frame_id cloud) = Some t ->
     cloudCallback w cfg st cloud = Some (st', ev) ->
     exists ldp input,
       cloudToLDP cfg cloud = Some ldp /\
       icp_calls ev = [input] /\
       laser_ref input = zero_motion ldp /\
       laser_sens input = ldp /\
       last_base_in_fixed_ st = tf_getIdentity /\
       keyframe_base_in_fixed_ st = tf_getIdentity) /\
  (forall w st scan_msg st' ev,
     initialized_ st = true ->
     scanCallback w cfg st scan_msg = Some (st', ev) ->
     exists ldp input,
       laserScanToLDP scan_msg = Some ldp /\
       icp_calls ev = [input] /\
       laser_ref input = zero_motion (prev_ldp_scan_ st) /\
       laser_sens input = ldp) /\
  (forall w st cloud st' ev,
     initialized_ st = true ->
     cloudCallback w cfg st cloud = Some (st', ev) ->
     exists ldp input,
       cloudToLDP cfg cloud = Some ldp /\
       icp_calls ev = [input] /\
       laser_ref input = zero_motion (prev_ldp_scan_ st) /\
       laser_sens input = ldp).
Proof.
  repeat apply conj.
  - intros w st scan_msg t st' ev Hr Hini Hl.
    rewrite (proj1 (proj2 (scanCallback_cases w cfg st scan_msg)) t Hini Hl).
    destruct (laserScanToLDP scan_msg) as [ldp|]; [|discriminate]. simpl.
    destruct (processScan _ _ _ _ _) as [[s e]|] eqn:E; [|discriminate]. simpl.
    intros H; injection H as <- <-.
    destruct (processScan_frame _ _ _ _ _ _ _ E) as (_ & _ & _ & _ & Hc).
    destruct (reachable_identity cfg st Hr Hini) as (Hl1 & Hk1).
    eexists; eexists. split; [reflexivity|]. split; [exact Hc|].
    split; [|split]; [apply solver_input_scans | apply solver_input_scans | auto].
  - intros w st cloud t st' ev Hr Hini Hl.
    rewrite (proj1 (proj2 (cloudCallback_cases w cfg st cloud)) t Hini Hl).
    destruct (cloudToLDP cfg cloud) as [ldp|]; [|discriminate]. simpl.
    destruct (processScan _ _ _ _ _) as [[s e]|] eqn:E; [|discriminate]. simpl.
    intros H; injection H as <- <-.
    destruct (processScan_frame _ _ _ _ _ _ _ E) as (_ & _ & _ & _ & Hc).
    destruct (reachable_identity cfg st Hr Hini) as (Hl1 & Hk1).
    eexists; eexists. split; [reflexivity|]. split; [exact Hc|].
    split; [|split]; [apply solver_input_scans | apply solver_input_scans | auto].
  - intros w st scan_msg st' ev Hini.
    rewrite (proj2 (proj2 (scanCallback_cases w cfg st scan_msg)) Hini).
    destruct (laserScanToLDP scan_msg) as [ldp|]; [|discriminate]. simpl.
    destruct (processScan _ _ _ _ _) as [[s e]|] eqn:E; [|discriminate]. simpl.
    intros H; injection H as <- <-.
    destruct (processScan_frame _ _ _ _ _ _ _ E) as (_ & _ & _ & _ & Hc).
    eexists; eexists. split; [reflexivity|]. split; [exact Hc|].
    split; apply solver_input_scans.
  - intros w st cloud st' ev Hini.
    rewrite (proj2 (proj2 (cloudCallback_cases w cfg st cloud)) Hini).
    destruct (cloudToLDP cfg cloud) as [ldp|]; [|discriminate]. simpl.
    destruct (processScan _ _ _ _ _) as [[s e]|] eqn:E; [|discriminate]. simpl.
    intros H; injection H as <- <-.
    destruct (processScan_frame _ _ _ _ _ _ _ E) as (_ & _ & _ & _ & Hc).
    eexists; eexists. split; [reflexivity|]. split; [exact Hc|].
    split; apply solver_input_scans.
Qed.

End PipelineFacts.

(** ** Further properties of the builders *)

Section MoreBuilderFacts.
Context {X : Externals}.

Lemma uint32_pred_small (n : nat) :
  (0 < n)%nat -> Z.of_nat n <= 2 ^ 32 -> uint32_pred n = (n - 1)%nat.
Proof.
  intros Hn Hb. unfold uint32_pred. rewrite Z.mod_small by lia. lia.
Qed.

Lemma finish_ldp_inv (n : nat) (l r : LDP) :
  finish_ldp n l = Some r ->
  exists lo hi,
    theta l !! 0%nat = Some lo /\ theta l !! uint32_pred n = Some hi /\
    r = set_true_pose (set_odometry (set_bounds l lo hi) zero3) zero3.
Proof.
  unfold finish_ldp.
  destruct (theta l !! 0%nat) as [lo|]; [|discriminate]. simpl.
  destruct (theta l !! uint32_pred n) as [hi|]; [|discriminate]. simpl.
  intros H. injection H as <-. exists lo, hi. auto.
Qed.

Lemma scan_ray_estimate m i r l : estimate (scan_ray m i r l) = estimate l.
Proof. unfold scan_ray. destruct (fgt r (range_min m) && flt r (range_max m)); reflexivity. Qed.

Lemma cloud_ray_estimate rmin rmax i p l : estimate (cloud_ray rmin rmax i p l) = estimate l.
Proof.
  unfold cloud_ray. destruct (has_nan p); [reflexivity|].
  destruct (fgt (cloud_range p) rmin && flt (cloud_range p) rmax); reflexivity.
Qed.

(** The arrays after the loop of [laserScanToLDP]. *)
Lemma scan_loop (m : LaserScan) :
  let l := for_each (scan_ray m) 0 (ranges m) (ld_alloc_new (length (ranges m))) in
  nrays l = length (ranges m) /\
  length (valid l) = length (ranges m) /\
  length (readings l) = length (ranges m) /\
  length (cluster l) = length (ranges m) /\
  theta l = imap (fun i _ => bearing m i) (ranges m) /\
  estimate l = (alloc_pose, alloc_pose, alloc_pose) /\
  forall i r, ranges m !! i = Some r ->
    valid l !! i = Some (if fgt r (range_min m) && flt r (range_max m) then 1 else 0) /\
    readings l !! i =
      Some (if fgt r (range_min m) && flt r (range_max m) then r else (-1)%float).
Proof.
  set (n := length (ranges m)).
  set (wv := fun (_ : nat) (r : float) =>
               Some (if fgt r (range_min m) && flt r (range_max m) then 1 else 0)).
  set (wr := fun (_ : nat) (r : float) =>
               Some (if fgt r (range_min m) && flt r (range_max m) then r else (-1)%float)).
  set (wt := fun (i : nat) (_ : float) =>
               Some (F32.add (angle_min m) (F32.mul (F32.of_nat i) (angle_increment m)))).
  set (wc := fun (_ : nat) (_ : float) => Some (-1)).
  pose proof (scan_ray_valid m : forall i a s, _ = match wv i a with _ => _ end) as Bv.
  pose proof (scan_ray_readings m : forall i a s, _ = match wr i a with _ => _ end) as Br.
  pose proof (scan_ray_theta m : forall i a s, _ = match wt i a with _ => _ end) as Bt.
  pose proof (scan_ray_cluster m : forall i a s, _ = match wc i a with _ => _ end) as Bc.
  intros l.
  assert (Ht : length (theta l) = n).
  { subst l. rewrite (for_each_length _ theta wt Bt). apply length_replicate. }
  split. { subst l. apply (for_each_preserved _ nrays (scan_ray_nrays m)). }
  split. { subst l. rewrite (for_each_length _ valid wv Bv). apply length_replicate. }
  split. { subst l. rewrite (for_each_length _ readings wr Br). apply length_replicate. }
  split. { subst l. rewrite (for_each_length _ cluster wc Bc). apply length_replicate. }
  split.
  { apply list_eq. intros i. rewrite list_lookup_imap.
    destruct (ranges m !! i) as [r|] eqn:Hi; simpl.
    - assert (Hlt : (i < n)%nat) by (apply lookup_lt_Some in Hi; exact Hi).
      pose proof (for_each_lookup _ theta wt Bt (ranges m) 0%nat (ld_alloc_new n) i r Hi) as Et.
      simpl in Et. rewrite length_replicate in Et. exact (Et Hlt).
    - apply lookup_ge_None. rewrite Ht. apply lookup_ge_None. exact Hi. }
  split. { subst l. apply (for_each_preserved _ estimate (scan_ray_estimate m)). }
  intros i r Hi.
  assert (Hlt : (i < n)%nat) by (apply lookup_lt_Some in Hi; exact Hi).
  pose proof (for_each_lookup _ valid wv Bv (ranges m) 0%nat (ld_alloc_new n) i r Hi) as Ev.
  pose proof (for_each_lookup _ readings wr Br (ranges m) 0%nat (ld_alloc_new n) i r Hi) as Er.
  simpl in Ev, Er.
  rewrite length_replicate in Ev; rewrite length_replicate in Er.
  split; [exact (Ev Hlt) | exact (Er Hlt)].
Qed.

(** X1. The scan builder takes the angular bounds of the point set from
    the first and the last bearing it wrote (not from the message's
    [angle_max]), zeroes [odometry] and [true_pose], and leaves [estimate] as
    the allocator returned it. The number of samples is one that
    [unsigned int] holds. *)
Theorem laserScanToLDP_bounds (scan_msg : LaserScan) (ldp : LDP) :
  laserScanToLDP scan_msg = Some ldp ->
  Z.of_nat (length (ranges scan_msg)) < 2 ^ 32 ->
  min_theta ldp = bearing scan_msg 0 /\
  max_theta ldp = bearing scan_msg (length (ranges scan_msg) - 1) /\
  odometry ldp = zero3 /\
  true_pose ldp = zero3 /\
  estimate ldp = (alloc_pose, alloc_pose, alloc_pose).
Proof.
  intros E Hb. unfold laserScanToLDP in E.
  destruct (finish_ldp_inv _ _ _ E) as (lo & hi & Hlo & Hhi & ->).
  destruct (scan_loop scan_msg) as (_ & _ & _ & _ & Ht & He & _).
  cbv zeta in Ht, He. rewrite Ht in Hlo, Hhi.
  rewrite list_lookup_imap in Hlo, Hhi.
  assert (Hn : (0 < length (ranges scan_msg))%nat).
  { destruct (ranges scan_msg); [discriminate Hlo | simpl; lia]. }
  rewrite (uint32_pred_small _ Hn (Z.lt_le_incl _ _ Hb)) in Hhi.
  destruct (ranges scan_msg !! 0%nat); [|discriminate Hlo].
  destruct (ranges scan_msg !! (length (ranges scan_msg) - 1)%nat); [|discriminate Hhi].
  simpl in Hlo, Hhi.
  assert (lo = bearing scan_msg 0) by congruence.
  assert (hi = bearing scan_msg (length (ranges scan_msg) - 1)) by congruence.
  subst lo hi. simpl. rewrite He. auto.
Qed.

(** X2. A sample that is NaN or infinite, and every sample of a message
    whose [range_min] or [range_max] is NaN, gives an invalid ray with
    reading -1: the builder never passes such a value to the solver as a
    range. *)
Theorem laserScanToLDP_rejects_non_finite (scan_msg : LaserScan) (ldp : LDP) (i : nat) (r : float) :
  laserScanToLDP scan_msg = Some ldp ->
  ranges scan_msg !! i = Some r ->
  PrimFloat.is_nan r = true \/ r = infinity \/ r = neg_infinity \/
  PrimFloat.is_nan (range_min scan_msg) = true \/
  PrimFloat.is_nan (range_max scan_msg) = true ->
  valid ldp !! i = Some 0 /\ readings ldp !! i = Some (-1)%float.
Proof.
  intros E Hi Hbad. unfold laserScanToLDP in E.
  destruct (finish_ldp_inv _ _ _ E) as (lo & hi & _ & _ & ->).
  destruct (scan_loop scan_msg) as (_ & _ & _ & _ & _ & _ & Hcells).
  destruct (Hcells i r Hi) as (Hv & Hr). simpl. rewrite Hv, Hr.
  assert (Hno : fgt r (range_min scan_msg) && flt r (range_max scan_msg) = false).
  { unfold fgt, flt. rewrite !ltb_spec.
    destruct Hbad as [H|[H|[H|[H|H]]]].
    - unfold Prim2SF at 2 3. unfold is_nan in *. rewrite H.
      destruct (Prim2SF (range_min scan_msg)); reflexivity.
    - subst r. apply andb_false_intro2.
      change (Prim2SF infinity) with (S754_infinity false).
      destruct (Prim2SF (range_max scan_msg)) as [s|s| |s mm e]; try destruct s; reflexivity.
    - subst r. apply andb_false_intro1.
      change (Prim2SF neg_infinity) with (S754_infinity true).
      destruct (Prim2SF (range_min scan_msg)) as [s|s| |s mm e]; try destruct s; reflexivity.
    - apply andb_false_intro1. unfold Prim2SF at 1. rewrite H. reflexivity.
    - apply andb_false_intro2. unfold Prim2SF at 2. rewrite H.
      destruct (Prim2SF r) as [s|s| |s mm e]; reflexivity. }
  rewrite Hno. auto.
Qed.

(** X3. The cache of [createCache] has one cosine and one sine per sample
    (it is overwritten, not appended to), taken of the very bearings that
    [laserScanToLDP] writes for the same message, and the solver's range
    bounds become those of the message. *)
Theorem createCache_matches_bearings (st : State) (scan_msg : LaserScan) (ldp : LDP) :
  laserScanToLDP scan_msg = Some ldp ->
  a_cos_ (createCache st scan_msg) = map cos (theta ldp) /\
  a_sin_ (createCache st scan_msg) = map sin (theta ldp) /\
  length (a_cos_ (createCache st scan_msg)) = length (ranges scan_msg) /\
  length (a_sin_ (createCache st scan_msg)) = length (ranges scan_msg) /\
  input_min_reading (createCache st scan_msg) = range_min scan_msg /\
  input_max_reading (createCache st scan_msg) = range_max scan_msg.
Proof.
  intros E. unfold laserScanToLDP in E.
  destruct (finish_ldp_inv _ _ _ E) as (lo & hi & _ & _ & ->).
  destruct (scan_loop scan_msg) as (_ & _ & _ & _ & Ht & _).
  cbv zeta in Ht. unfold createCache. simpl. rewrite Ht.
  unfold bearing. rewrite !length_map, !length_imap. repeat split; reflexivity.
Qed.

Lemma filter_loop_sublist res (pts : list PointT) : forall pa,
  filter_loop res pa pts `sublist_of` pts.
Proof.
  induction pts as [|x pts IH]; intros pa; simpl; [constructor|].
  destruct (fgt (dist2 pa x) (max_d2 res)).
  - apply sublist_skip, IH.
  - apply sublist_cons, IH.
Qed.

Lemma filter_loop_fixed res (pts : list PointT) : forall pa,
  filter_loop res pa (filter_loop res pa pts) = filter_loop res pa pts.
Proof.
  induction pts as [|x pts IH]; intros pa; simpl; [reflexivity|].
  destruct (fgt (dist2 pa x) (max_d2 res)) eqn:E.
  - simpl. rewrite E, IH. reflexivity.
  - apply IH.
Qed.

(** X4. The downsampling pass only drops points: what it keeps is a
    subsequence of the cloud, in the cloud's order, starting with the
    cloud's first point, and so never longer than the cloud. *)
Theorem cloud_filter_subsequence (res : float) (pts cloud_f : list PointT) :
  cloud_filter res pts = Some cloud_f ->
  cloud_f `sublist_of` pts /\
  head cloud_f = head pts /\
  (0 < length cloud_f <= length pts)%nat.
Proof.
  destruct pts as [|p0 rest]; [discriminate|]. simpl.
  intros H. injection H as <-.
  assert (Hs : (p0 :: filter_loop res p0 rest) `sublist_of` (p0 :: rest)).
  { apply sublist_skip, filter_loop_sublist. }
  split; [exact Hs|]. split; [reflexivity|].
  apply sublist_length in Hs. simpl in *. lia.
Qed.

(** X5. Downsampling is idempotent: the pass run on what it kept keeps
    all of it. *)
Theorem cloud_filter_idempotent (res : float) (pts cloud_f : list PointT) :
  cloud_filter res pts = Some cloud_f ->
  cloud_filter res cloud_f = Some cloud_f.
Proof.
  destruct pts as [|p0 rest]; [discriminate|]. simpl.
  intros H. injection H as <-. simpl. rewrite filter_loop_fixed. reflexivity.
Qed.

Lemma nan_square_never_exceeded (res d : float) :
  PrimFloat.is_nan res = true -> fgt d (res * res)%float = false.
Proof.
  intros H. unfold fgt. rewrite ltb_spec, mul_spec.
  unfold Prim2SF at 1 2. rewrite H. reflexivity.
Qed.

Lemma filter_loop_nan res (pts : list PointT) (pa : PointT) :
  PrimFloat.is_nan res = true -> filter_loop res pa pts = [].
Proof.
  intros H. induction pts as [|x pts IH]; simpl; [reflexivity|].
  unfold max_d2. rewrite (nan_square_never_exceeded res _ H). exact IH.
Qed.

(** X6. With a NaN resolution no distance compares greater than the
    squared resolution, so the downsampling pass keeps the first point of the
    cloud and nothing else, and the point set built from any cloud has a
    single ray. *)
Theorem nan_resolution_keeps_one_point (rmin rmax res : float) (cloud : PointCloudT)
    (p0 : PointT) (rest : list PointT) :
  PrimFloat.is_nan res = true ->
  points cloud = p0 :: rest ->
  cloud_filter res (points cloud) = Some [p0] /\
  exists ldp,
    PointCloudToLDP rmin rmax res cloud = Some ldp /\
    nrays ldp = 1%nat /\
    theta ldp = [cloud_bearing p0].
Proof.
  intros Hnan Ep. rewrite Ep. simpl. rewrite (filter_loop_nan res rest p0 Hnan).
  split; [reflexivity|].
  unfold PointCloudToLDP. rewrite Ep. simpl cloud_filter.
  rewrite (filter_loop_nan res rest p0 Hnan).
  destruct (cloud_build rmin rmax [p0]) as (ldp & E & Hn & _ & _ & Ht & _ & Hcells);
    [discriminate|].
  exists ldp. split; [exact E|]. split; [exact Hn|].
  destruct (Hcells 0%nat p0 eq_refl) as (H0 & _).
  destruct (theta ldp) as [|t [|t' ts]]; simpl in Ht; try discriminate Ht.
  simpl in H0. unfold cloud_bearing. congruence.
Qed.

(** X7. The cloud builder takes the angular bounds from the bearings of
    the first and of the last point kept by the downsampling pass, whatever
    the bearings in between are; it zeroes [odometry] and [true_pose] and
    leaves [estimate] as the allocator returned it. The number of kept
    points is one that [unsigned int] holds. *)
Theorem PointCloudToLDP_bounds (rmin rmax res : float) (cloud : PointCloudT)
    (cloud_f : list PointT) (ldp : LDP) :
  cloud_filter res (points cloud) = Some cloud_f ->
  PointCloudToLDP rmin rmax res cloud = Some ldp ->
  Z.of_nat (length cloud_f) < 2 ^ 32 ->
  exists first_kept last_kept,
    head (points cloud) = Some first_kept /\
    last cloud_f = Some last_kept /\
    min_theta ldp = cloud_bearing first_kept /\
    max_theta ldp = cloud_bearing last_kept /\
    odometry ldp = zero3 /\
    true_pose ldp = zero3 /\
    estimate ldp = (alloc_pose, alloc_pose, alloc_pose).
Proof.
  intros Ef E Hb. unfold PointCloudToLDP in E. rewrite Ef in E. simpl in E.
  destruct (finish_ldp_inv _ _ _ E) as (lo & hi & Hlo & Hhi & ->).
  assert (Hne : cloud_f <> []).
  { destruct (points cloud); [discriminate|]. simpl in Ef. injection Ef as <-. discriminate. }
  assert (Hn : (0 < length cloud_f)%nat) by (destruct cloud_f; simpl; [congruence | lia]).
  destruct (cloud_build rmin rmax cloud_f Hne) as (ldp' & E' & _ & _ & _ & _ & _ & Hcells).
  destruct (finish_ldp_inv _ _ _ E') as (lo' & hi' & Hlo' & Hhi' & ->).
  simpl in Hcells.
  rewrite (uint32_pred_small _ Hn (Z.lt_le_incl _ _ Hb)) in Hhi.
  destruct (lookup_lt_is_Some_2 cloud_f 0%nat Hn) as [pf Hpf].
  destruct (lookup_lt_is_Some_2 cloud_f (length cloud_f - 1)%nat) as [pl Hpl]; [lia|].
  exists pf, pl.
  destruct (Hcells _ _ Hpf) as (Hf & _). destruct (Hcells _ _ Hpl) as (Hl & _).
  rewrite Hf in Hlo. rewrite Hl in Hhi.
  split.
  { destruct (points cloud) as [|q qs]; [discriminate|]. simpl in Ef. injection Ef as <-.
    simpl in Hpf. simpl. exact Hpf. }
  split. { rewrite last_lookup. replace (pred (length cloud_f)) with (length cloud_f - 1)%nat by lia. exact Hpl. }
  simpl.
  split; [unfold cloud_bearing; congruence|].
  split; [unfold cloud_bearing; congruence|].
  split; [reflexivity|]. split; [reflexivity|].
  apply (for_each_preserved _ estimate (cloud_ray_estimate rmin rmax)).
Qed.

End MoreBuilderFacts.

(** ** Further properties of the pipeline *)

Section MorePipelineFacts.
Context {X : Externals}.

Lemma laserScanToLDP_built (m : LaserScan) (ldp : LDP) :
  laserScanToLDP m = Some ldp -> ldp_built ldp.
Proof.
  intros E. unfold laserScanToLDP in E.
  destruct (finish_ldp_inv _ _ _ E) as (lo & hi & Hlo & _ & ->).
  destruct (scan_loop m) as (Hn & Hv & Hr & Hc & Ht & _).
  cbv zeta in Hn, Hv, Hr, Hc, Ht.
  apply lookup_lt_Some in Hlo. rewrite Ht, length_imap in Hlo.
  unfold ldp_built. simpl. rewrite Hn, Hv, Hr, Hc, Ht, length_imap.
  repeat split; try reflexivity. exact Hlo.
Qed.

Lemma PointCloudToLDP_built (rmin rmax res : float) (cloud : PointCloudT) (ldp : LDP) :
  PointCloudToLDP rmin rmax res cloud = Some ldp -> ldp_built ldp.
Proof.
  intros E. unfold PointCloudToLDP in E.
  destruct (points cloud) as [|p0 rest]; [discriminate|]. simpl cloud_filter in E.
  cbn [mbind option_bind] in E.
  destruct (cloud_build rmin rmax (p0 :: filter_loop res p0 rest))
    as (ldp' & E' & Hn & Hv & Hr & Ht & Hc & _); [discriminate|].
  assert (ldp' = ldp) by congruence. subst ldp'.
  destruct (finish_ldp_inv _ _ _ E) as (lo & hi & _ & _ & Eq).
  unfold ldp_built. rewrite Hn, Hv, Hr, Ht, Hc.
  repeat split; try reflexivity; [simpl; lia | |]; rewrite Eq; reflexivity.
Qed.

Lemma zero_motion_built (l : LDP) : ldp_built l -> ldp_built (zero_motion l).
Proof.
  unfold ldp_built. simpl. intros (H1 & H2 & H3 & H4 & H5 & _).
  repeat split; assumption.
Qed.

(** *** The baselines of the prediction *)

Lemma odom_feed_received (ms : list PoseMsg) : forall st,
  received_odom_ st = true ->
  received_odom_ (odom_feed st ms) = true /\
  last_used_odom_pose_ (odom_feed st ms) = last_used_odom_pose_ st /\
  latest_odom_msg_ (odom_feed st ms) = default (latest_odom_msg_ st) (last ms) /\
  received_imu_ (odom_feed st ms) = received_imu_ st.
Proof.
  induction ms as [|m ms IH]; intros st Hr; [simpl; auto|].
  unfold odom_feed in *. simpl foldl.
  assert (E : odomCallback st m =
              set_latest st (latest_imu_msg_ st) m (latest_vel_msg_ st)).
  { unfold odomCallback. simpl. rewrite Hr. reflexivity. }
  rewrite E.
  destruct (IH (set_latest st (latest_imu_msg_ st) m (latest_vel_msg_ st)) Hr)
    as (H1 & H2 & H3 & H4).
  rewrite H1, H2, H3, H4. simpl. rewrite last_cons.
  destruct (last ms); auto.
Qed.

(** X8. Odometry is consumed as increments from a baseline that the first
    message sets: when the messages [m1 ... mn] arrive at a node that had no
    odometry yet, the next prediction (frame lookup off, no orientation data
    in use) is [inverse(m1) * mn], whatever came in between and whatever the
    velocity input says, and the baseline moves on to [mn]. *)
Theorem odometry_prediction_spans_first_to_last (w : World) (cfg : Config) (st : State)
    (stamp : Time) (m1 : PoseMsg) (rest : list PoseMsg) :
  use_odom_ cfg = true ->
  use_tf_ cfg = false ->
  use_imu_ cfg && received_imu_ st = false ->
  received_odom_ st = false ->
  fst (fst (getPrediction w cfg (odom_feed st (m1 :: rest)) stamp)) =
    tf_mul (tf_inverse (poseMsgToTF m1)) (poseMsgToTF (default m1 (last rest))) /\
  last_used_odom_pose_ (snd (fst (getPrediction w cfg (odom_feed st (m1 :: rest)) stamp))) =
    poseMsgToTF (default m1 (last rest)).
Proof.
  intros Ho Htf Himu Hr.
  unfold odom_feed. simpl foldl.
  assert (E1 : received_odom_ (odomCallback st m1) = true).
  { unfold odomCallback. simpl. rewrite Hr. reflexivity. }
  destruct (odom_feed_received rest (odomCallback st m1) E1) as (H1 & H2 & H3 & H4).
  assert (Hb : last_used_odom_pose_ (odomCallback st m1) = poseMsgToTF m1).
  { unfold odomCallback. simpl. rewrite Hr. reflexivity. }
  assert (Hl : latest_odom_msg_ (odomCallback st m1) = m1).
  { unfold odomCallback. simpl. rewrite Hr. reflexivity. }
  assert (Hi : received_imu_ (odomCallback st m1) = received_imu_ st).
  { unfold odomCallback. simpl. rewrite Hr. reflexivity. }
  rewrite Hb in H2. rewrite Hl in H3. rewrite Hi in H4.
  unfold odom_feed in H1, H2, H3, H4.
  unfold getPrediction. rewrite Ho, Htf, H1. simpl. rewrite H4, Himu. simpl.
  rewrite H2, H3. auto.
Qed.

(** X9. [getPrediction] moves each baseline on to the latest message of
    its source whenever the source is in use and has data, also when the
    frame lookup then replaces the estimate; it writes nothing else, and the
    state it leaves does not depend on the frame lookup, on the stamp or on
    whether the lookup is enabled. *)
Theorem prediction_baselines_advance (w : World) (cfg : Config) (st : State) (stamp : Time) :
  last_used_odom_pose_ (snd (fst (getPrediction w cfg st stamp))) =
    (if use_odom_ cfg && received_odom_ st
     then poseMsgToTF (latest_odom_msg_ st) else last_used_odom_pose_ st) /\
  last_used_imu_orientation_ (snd (fst (getPrediction w cfg st stamp))) =
    (if use_imu_ cfg && received_imu_ st
     then quaternionMsgToTF (latest_imu_msg_ st) else last_used_imu_orientation_ st) /\
  snd (fst (getPrediction w cfg st stamp)) =
    set_last_used st
      (last_used_odom_pose_ (snd (fst (getPrediction w cfg st stamp))))
      (last_used_imu_orientation_ (snd (fst (getPrediction w cfg st stamp)))) /\
  forall w' b stamp',
    snd (fst (getPrediction w' (with_use_tf cfg b) st stamp')) =
    snd (fst (getPrediction w cfg st stamp)).
Proof.
  unfold getPrediction.
  cbn [use_odom_ use_imu_ use_tf_ use_vel_ with_use_tf base_frame_ fixed_frame_].
  destruct (use_odom_ cfg && received_odom_ st); simpl;
    destruct (use_imu_ cfg && received_imu_ st); simpl;
    (split; [|split; [|split]];
     [ destruct (use_tf_ cfg); [destruct (lookupTransformAt w _ _ _ _ _)|]; reflexivity
     | destruct (use_tf_ cfg); [destruct (lookupTransformAt w _ _ _ _ _)|]; reflexivity
     | destruct (use_tf_ cfg); [destruct (lookupTransformAt w _ _ _ _ _)|];
       destruct st; reflexivity
     | intros w' b stamp';
       destruct b; [destruct (lookupTransformAt w' _ _ _ _ _)|];
       (destruct (use_tf_ cfg); [destruct (lookupTransformAt w _ _ _ _ _)|]); reflexivity ]).
Qed.

Lemma imuCallback_others (st : State) (m : QuaternionMsg) :
  received_odom_ (imuCallback st m) = received_odom_ st /\
  last_used_odom_pose_ (imuCallback st m) = last_used_odom_pose_ st /\
  latest_odom_msg_ (imuCallback st m) = latest_odom_msg_ st /\
  latest_vel_msg_ (imuCallback st m) = latest_vel_msg_ st /\
  last_icp_time_ (imuCallback st m) = last_icp_time_ st.
Proof.
  unfold imuCallback. simpl. destruct (received_imu_ st); simpl; repeat split; reflexivity.
Qed.

Lemma imu_feed_received (ms : list QuaternionMsg) : forall st,
  received_imu_ st = true ->
  received_imu_ (imu_feed st ms) = true /\
  last_used_imu_orientation_ (imu_feed st ms) = last_used_imu_orientation_ st /\
  latest_imu_msg_ (imu_feed st ms) = default (latest_imu_msg_ st) (last ms) /\
  received_odom_ (imu_feed st ms) = received_odom_ st /\
  last_used_odom_pose_ (imu_feed st ms) = last_used_odom_pose_ st /\
  latest_odom_msg_ (imu_feed st ms) = latest_odom_msg_ st /\
  latest_vel_msg_ (imu_feed st ms) = latest_vel_msg_ st /\
  last_icp_time_ (imu_feed st ms) = last_icp_time_ st.
Proof.
  induction ms as [|m ms IH]; intros st Hr; [simpl; repeat split; auto|].
  unfold imu_feed in *. simpl foldl.
  assert (E : imuCallback st m =
              set_latest st m (latest_odom_msg_ st) (latest_vel_msg_ st)).
  { unfold imuCallback. simpl. rewrite Hr. reflexivity. }
  rewrite E.
  destruct (IH (set_latest st m (latest_odom_msg_ st) (latest_vel_msg_ st)) Hr)
    as (H1 & H2 & H3 & H4 & H5 & H6 & H7 & H8).
  rewrite H1, H2, H3, H4, H5, H6, H7, H8. simpl. rewrite last_cons.
  destruct (last ms); repeat split; reflexivity.
Qed.

(** X20. The orientation input replaces the rotation of the prediction and
    nothing else: when the orientations [q1 ... qn] arrive at a node that had
    none yet, the next prediction (frame lookup off) is the one the node
    would have made without them (from velocity or odometry, or the
    identity) with its rotation set to [inverse(q1) * qn]. *)
Theorem orientation_replaces_rotation_only (w : World) (cfg : Config) (st : State)
    (stamp : Time) (q1 : QuaternionMsg) (rest : list QuaternionMsg) :
  use_imu_ cfg = true ->
  use_tf_ cfg = false ->
  received_imu_ st = false ->
  fst (fst (getPrediction w cfg (imu_feed st (q1 :: rest)) stamp)) =
  tf_setRotation (fst (fst (getPrediction w cfg st stamp)))
    (q_mul (q_inverse (quaternionMsgToTF q1))
           (quaternionMsgToTF (default q1 (last rest)))).
Proof.
  intros Hu Htf Hr.
  unfold imu_feed. simpl foldl.
  assert (E1 : received_imu_ (imuCallback st q1) = true).
  { unfold imuCallback. simpl. rewrite Hr. reflexivity. }
  destruct (imu_feed_received rest (imuCallback st q1) E1)
    as (H1 & H2 & H3 & H4 & H5 & H6 & H7 & H8).
  destruct (imuCallback_others st q1) as (G4 & G5 & G6 & G7 & G8).
  assert (Hb : last_used_imu_orientation_ (imuCallback st q1) = quaternionMsgToTF q1).
  { unfold imuCallback. simpl. rewrite Hr. reflexivity. }
  assert (Hl : latest_imu_msg_ (imuCallback st q1) = q1).
  { unfold imuCallback. simpl. rewrite Hr. reflexivity. }
  rewrite Hb in H2. rewrite Hl in H3.
  rewrite G4 in H4. rewrite G5 in H5. rewrite G6 in H6. rewrite G7 in H7. rewrite G8 in H8.
  unfold imu_feed in H1, H2, H3, H4, H5, H6, H7, H8.
  unfold getPrediction. rewrite Hu, Htf, H4, H7, H8.
  destruct (use_odom_ cfg && received_odom_ st); simpl;
    rewrite H1, Hr; simpl; rewrite ?H2, ?H3, ?H5, ?H6; reflexivity.
Qed.

(** *** What a cycle leaves behind *)

Lemma getPrediction_carries (w : World) (cfg : Config) (st : State) (stamp : Time) :
  forall e ct cfg' time, In e (snd (getPrediction w cfg st stamp)) -> carries ct cfg' time e.
Proof.
  intros e ct cfg' time. unfold getPrediction.
  destruct (use_odom_ cfg && received_odom_ st); simpl;
    destruct (use_imu_ cfg && received_imu_ st); simpl;
    destruct (use_tf_ cfg); simpl;
    try destruct (lookupTransformAt w _ _ _ _ _); simpl;
    intros He; repeat (destruct He as [<-|He]; [exact I|]); destruct He.
Qed.

Lemma publish_carries (cfg : Config) (ct : Transform) (xy : Matrix2f) (yaw : float) (time : Time) :
  forall e, In e (publish cfg ct xy yaw time) -> carries ct cfg time e.
Proof.
  intros e He. unfold publish in He.
  repeat match type of He with
         | In _ (_ ++ _) => apply in_app_or in He; destruct He as [He|He]
         end;
    match type of He with In _ (if ?b then _ else _) => destruct b end;
    try (destruct He as [<-|[]]; simpl; auto); destruct He.
Qed.

Lemma publish_count (cfg : Config) (ct : Transform) (xy : Matrix2f) (yaw : float) (time : Time) :
  List.filter is_output (publish cfg ct xy yaw time) = publish cfg ct xy yaw time /\
  length (publish cfg ct xy yaw time) = enabled_outputs cfg.
Proof.
  unfold publish, enabled_outputs.
  destruct (publish_pose_ cfg), (publish_pose_stamped_ cfg),
    (publish_pose_with_covariance_ cfg), (publish_pose_with_covariance_stamped_ cfg),
    (publish_tf_ cfg); split; reflexivity.
Qed.

Lemma level_reads (cfg : Config) (st : State) (o : Transform) (q : Quaternion)
    (l : LDP) (a b t : Transform) :
  level cfg (set_poses (set_last_used (set_prev st l) o q) a b) t = level cfg st t.
Proof. reflexivity. Qed.

Lemma cycle_offset_invalid (w : World) (cfg : Config) (st : State) (curr : LDP) (time : Time) :
  sm_valid (solver_output w cfg st curr time) = 0 ->
  cycle_offset w cfg st curr time = tf_getIdentity.
Proof. intros H. unfold cycle_offset, measured_offset. rewrite H. reflexivity. Qed.

(** The state after a cycle. *)
Lemma processScan_after (w : World) (cfg : Config) (st : State) (curr : LDP) (time : Time)
    (st' : State) (ev : list Event) :
  processScan w cfg st curr time = Some (st', ev) ->
  (newKeyframeNeeded cfg (cycle_offset w cfg st curr time) = true ->
     prev_ldp_scan_ st' = curr /\ keyframe_base_in_fixed_ st' = last_base_in_fixed_ st') /\
  (newKeyframeNeeded cfg (cycle_offset w cfg st curr time) = false ->
     prev_ldp_scan_ st' = zero_motion (prev_ldp_scan_ st) /\
     keyframe_base_in_fixed_ st' = keyframe_base_in_fixed_ st) /\
  last_icp_time_ st' = time /\
  same_cache st' st /\
  (sm_valid (solver_output w cfg st curr time) = 0 ->
     last_base_in_fixed_ st' = last_base_in_fixed_ st /\ List.filter is_output ev = []) /\
  (sm_valid (solver_output w cfg st curr time) <> 0 ->
     last_base_in_fixed_ st' =
     tf_mul (keyframe_base_in_fixed_ st) (cycle_offset w cfg st curr time)).
Proof.
  rewrite processScan_eq. cbv zeta. unfold solver_state.
  destruct (getPrediction_events w cfg (set_prev st (zero_motion (prev_ldp_scan_ st))) time)
    as (Ho & _).
  destruct (getPrediction_state w cfg (set_prev st (zero_motion (prev_ldp_scan_ st))) time)
    as (o & q & ->).
  set (d := cycle_offset w cfg st curr time).
  set (out := solver_output w cfg st curr time).
  destruct (negb (sm_valid out =? 0)) eqn:Ev.
  - destruct (covariance cfg _ _) as [[xy yaw]|]; [|discriminate].
    intros H. injection H as <- <-.
    apply negb_true_iff, Z.eqb_neq in Ev.
    unfold swap, same_cache.
    destruct (newKeyframeNeeded cfg d); simpl;
      repeat split; intros; try discriminate; try contradiction; auto.
  - intros H. injection H as <- <-.
    apply negb_false_iff, Z.eqb_eq in Ev.
    unfold swap, same_cache.
    destruct (newKeyframeNeeded cfg d); simpl;
      repeat split; intros; try discriminate; try contradiction; auto;
      rewrite List.filter_app, Ho; reflexivity.
Qed.

(** X10. A cycle with a valid match stores [keyframe * offset] as the
    pose, stamps the cycle, and publishes exactly one message per enabled
    output and none for a disabled one: in this order, the 2D pose, the
    stamped pose, the pose with covariance, the stamped pose with covariance
    and the frame broadcast, each present exactly when its flag is set.
    Every message carries the same pose: the stored one, with roll and pitch
    replaced from the orientation input when that is asked for (the stored
    pose itself is never leveled); the two covariance messages carry the same
    36 entries. Stamped messages carry the stamp of the reading and the fixed
    frame; the broadcast is from the fixed frame to the base frame. *)
Theorem valid_match_outputs (w : World) (cfg : Config) (st : State) (curr : LDP)
    (time : Time) (st' : State) (ev : list Event) :
  processScan w cfg st curr time = Some (st', ev) ->
  sm_valid (solver_output w cfg st curr time) <> 0 ->
  last_base_in_fixed_ st' =
    tf_mul (keyframe_base_in_fixed_ st) (cycle_offset w cfg st curr time) /\
  last_icp_time_ st' = time /\
  length (List.filter is_output ev) = enabled_outputs cfg /\
  (forall e, In e ev ->
     carries (level cfg st (tf_mul (keyframe_base_in_fixed_ st)
                                   (cycle_offset w cfg st curr time))) cfg time e) /\
  (add_imu_roll_pitch_ cfg = false ->
   level cfg st (tf_mul (keyframe_base_in_fixed_ st) (cycle_offset w cfg st curr time)) =
   tf_mul (keyframe_base_in_fixed_ st) (cycle_offset w cfg st curr time)) /\
  exists cov,
    length cov = 36%nat /\
    List.filter is_output ev =
      (if publish_pose_ cfg then
         [EvPose2D
            (tf_getX (level cfg st (tf_mul (keyframe_base_in_fixed_ st)
                                           (cycle_offset w cfg st curr time))))
            (tf_getY (level cfg st (tf_mul (keyframe_base_in_fixed_ st)
                                           (cycle_offset w cfg st curr time))))
            (getYaw (tf_getRotation
                       (level cfg st (tf_mul (keyframe_base_in_fixed_ st)
                                             (cycle_offset w cfg st curr time)))))]
       else []) ++
      (if publish_pose_stamped_ cfg then
         [EvPoseStamped time (fixed_frame_ cfg)
            (poseTFToMsg (level cfg st (tf_mul (keyframe_base_in_fixed_ st)
                                               (cycle_offset w cfg st curr time))))]
       else []) ++
      (if publish_pose_with_covariance_ cfg then
         [EvPoseWithCovariance
            (poseTFToMsg (level cfg st (tf_mul (keyframe_base_in_fixed_ st)
                                               (cycle_offset w cfg st curr time))))
            cov]
       else []) ++
      (if publish_pose_with_covariance_stamped_ cfg then
         [EvPoseWithCovarianceStamped time (fixed_frame_ cfg)
            (poseTFToMsg (level cfg st (tf_mul (keyframe_base_in_fixed_ st)
                                               (cycle_offset w cfg st curr time))))
            cov]
       else []) ++
      (if publish_tf_ cfg then
         [EvSendTransform
            (level cfg st (tf_mul (keyframe_base_in_fixed_ st)
                                  (cycle_offset w cfg st curr time)))
            time (fixed_frame_ cfg) (base_frame_ cfg)]
       else []).
Proof.
  intros E Hv.
  destruct (processScan_after _ _ _ _ _ _ _ E) as (_ & _ & Ht & _ & _ & Hl).
  split; [exact (Hl Hv)|]. split; [exact Ht|].
  revert E. rewrite processScan_eq. cbv zeta. unfold solver_state.
  destruct (getPrediction_events w cfg (set_prev st (zero_motion (prev_ldp_scan_ st))) time)
    as (Ho & _).
  pose proof (getPrediction_carries w cfg (set_prev st (zero_motion (prev_ldp_scan_ st))) time)
    as Hc.
  destruct (getPrediction_state w cfg (set_prev st (zero_motion (prev_ldp_scan_ st))) time)
    as (o & q & ->).
  set (d := cycle_offset w cfg st curr time).
  replace (negb (sm_valid (solver_output w cfg st curr time) =? 0)) with true
    by (symmetry; apply negb_true_iff, Z.eqb_neq; exact Hv).
  destruct (covariance cfg _ _) as [[xy yaw]|]; [|discriminate].
  intros H. injection H as _ <-.
  cbn [last_base_in_fixed_ keyframe_base_in_fixed_ set_poses set_last_used set_prev].
  rewrite level_reads.
  split; [|split; [|split]].
  - rewrite !List.filter_app, Ho. cbn [List.filter is_output app].
    destruct (publish_count cfg (level cfg st (tf_mul (keyframe_base_in_fixed_ st) d)) xy yaw time)
      as (-> & ->).
    reflexivity.
  - intros e He. apply in_app_or in He. destruct He as [He|He]; [apply Hc, He|].
    destruct He as [<-|He]; [exact I|].
    apply publish_carries in He. exact He.
  - intros Hno. unfold level. rewrite Hno. reflexivity.
  - exists (covariance36 xy yaw). split; [reflexivity|].
    rewrite !List.filter_app, Ho. cbn [List.filter is_output app].
    destruct (publish_count cfg (level cfg st (tf_mul (keyframe_base_in_fixed_ st) d)) xy yaw time)
      as (-> & _).
    reflexivity.
Qed.

(** X11. When the solver is not asked for a covariance, every covariance
    that is published is the diagonal matrix with the first two configured
    position variances and the third configured orientation variance
    (converted to single precision) at positions (0,0), (1,1) and (5,5), and
    zero elsewhere: neither the solver's covariance nor any rotation enters. *)
Theorem configured_covariance_published (w : World) (cfg : Config) (st : State) (curr : LDP)
    (time : Time) (st' : State) (ev : list Event) (p0 p1 o2 : float) :
  processScan w cfg st curr time = Some (st', ev) ->
  do_compute_covariance cfg = 0 ->
  position_covariance_ cfg !! 0%nat = Some p0 ->
  position_covariance_ cfg !! 1%nat = Some p1 ->
  orientation_covariance_ cfg !! 2%nat = Some o2 ->
  forall e c, In e ev -> event_covariance e = Some c ->
    length c = 36%nat /\
    forall i j, (i < 6)%nat -> (j < 6)%nat ->
      c !! (6 * i + j)%nat =
      Some (if (i =? j)%nat
            then match i with
                 | 0%nat => F32.round p0
                 | 1%nat => F32.round p1
                 | 5%nat => F32.round o2
                 | _ => 0%float
                 end
            else 0%float).
Proof.
  intros E Hz H0 H1 H2 e c He Hc.
  revert E. rewrite processScan_eq. cbv zeta.
  destruct (getPrediction_events w cfg (set_prev st (zero_motion (prev_ldp_scan_ st))) time)
    as (_ & _ & _ & Hn).
  destruct (negb (sm_valid _ =? 0)).
  - unfold covariance. rewrite Hz. cbn [Z.eqb negb]. rewrite H0, H1, H2.
    cbn [mbind option_bind]. intros H. injection H as _ <-.
    assert (Ec : c = covariance36 (mkMatrix2f (F32.round p0) 0 0 (F32.round p1)) (F32.round o2)).
    { apply in_app_or in He. destruct He as [He|He]; [rewrite (Hn e He) in Hc; discriminate|].
      destruct He as [<-|He]; [discriminate Hc|].
      exact (proj2 (proj2 (publish_events _ _ _ _ _)) e c He Hc). }
    subst c. split; [reflexivity|].
    intros i j Hi Hj.
    destruct i as [|[|[|[|[|[|i]]]]]]; try lia;
      destruct j as [|[|[|[|[|[|j]]]]]]; try lia; reflexivity.
  - intros H. injection H as _ <-.
    apply in_app_or in He. destruct He as [He|He]; [rewrite (Hn e He) in Hc; discriminate|].
    destruct He as [<-|[<-|[]]]; discriminate Hc.
Qed.

(** X12. A cycle fails to complete in exactly one situation: the match is
    valid, the covariance is to be taken from the configuration, and the
    configured position covariance has fewer than two entries or the
    configured orientation covariance fewer than three (the code then reads
    past the end of the vector). *)
Theorem processScan_fails_exactly (w : World) (cfg : Config) (st : State) (curr : LDP)
    (time : Time) :
  processScan w cfg st curr time = None <->
  sm_valid (solver_output w cfg st curr time) <> 0 /\
  do_compute_covariance cfg = 0 /\
  ((length (position_covariance_ cfg) < 2)%nat \/
   (length (orientation_covariance_ cfg) < 3)%nat).
Proof.
  rewrite processScan_eq. cbv zeta.
  set (out := solver_output w cfg st curr time).
  destruct (negb (sm_valid out =? 0)) eqn:Ev.
  - apply negb_true_iff, Z.eqb_neq in Ev.
    unfold covariance.
    destruct (do_compute_covariance cfg =? 0) eqn:Ez; cbn [negb].
    + apply Z.eqb_eq in Ez.
      destruct (position_covariance_ cfg !! 0%nat) as [p0|] eqn:E0; cbn [mbind option_bind].
      * destruct (position_covariance_ cfg !! 1%nat) as [p1|] eqn:E1; cbn [mbind option_bind].
        -- destruct (orientation_covariance_ cfg !! 2%nat) as [o2|] eqn:E2;
             cbn [mbind option_bind].
           ++ apply lookup_lt_Some in E1. apply lookup_lt_Some in E2.
              split; [discriminate|]. intros (_ & _ & [H|H]); lia.
           ++ apply lookup_ge_None in E2.
              split; [intros _; repeat split; auto; right; lia | reflexivity].
        -- apply lookup_ge_None in E1.
           split; [intros _; repeat split; auto; left; lia | reflexivity].
      * apply lookup_ge_None in E0.
        split; [intros _; repeat split; auto; left; lia | reflexivity].
    + apply Z.eqb_neq in Ez. split; [discriminate|]. intros (_ & H & _). contradiction.
  - apply negb_false_iff, Z.eqb_eq in Ev.
    split; [discriminate|]. intros (H & _). contradiction.
Qed.

(** *** The node, message by message *)

(** A delivery either runs no cycle or runs exactly one, from the state
    [s0] that the callback prepared. *)
Lemma deliver_cases (cfg : Config) (st : State) (m : Message) (st' : State) (ev : list Event) :
  deliver cfg st m = Some (st', ev) ->
  (List.filter is_output ev = [] /\ icp_calls ev = [] /\ same_tracking st' st /\
   (use_cloud_input_ cfg = true \/ initialized_ st = true -> same_cache st' st)) \/
  (exists w s0 ldp time ev0 evp,
     processScan w cfg s0 ldp time = Some (st', evp) /\
     ev = ev0 ++ evp /\
     List.filter is_output ev0 = [] /\ icp_calls ev0 = [] /\
     ldp_built ldp /\
     (solver_down m -> forall input, sm_valid (sm_icp w input) = 0) /\
     ((initialized_ st = true /\ s0 = st) \/
      (initialized_ st = false /\ initialized_ s0 = true /\
       prev_ldp_scan_ s0 = ldp /\
       laser_from_base_ s0 = tf_inverse (base_from_laser_ s0) /\
       last_base_in_fixed_ s0 = last_base_in_fixed_ st /\
       keyframe_base_in_fixed_ s0 = keyframe_base_in_fixed_ st /\
       (use_cloud_input_ cfg = true -> same_cache s0 st)))).
Proof.
  assert (Hsame : forall s : State, same_tracking s s /\ same_cache s s).
  { intros s. unfold same_tracking, same_cache. repeat split; reflexivity. }
  destruct m as [w scan_msg|w cloud|imu_msg|odom_msg|twist_msg|twist]; simpl.
  - destruct (use_cloud_input_ cfg) eqn:Hc.
    { intros H; injection H as <- <-. left. repeat split; try reflexivity; apply Hsame. }
    destruct (initialized_ st) eqn:Hini.
    + rewrite (proj2 (proj2 (scanCallback_cases w cfg st scan_msg)) Hini).
      destruct (laserScanToLDP scan_msg) as [ldp|] eqn:El; [|discriminate]. simpl.
      destruct (processScan w cfg st ldp _) as [[s e]|] eqn:Ep; [|discriminate]. simpl.
      intros H; injection H as <- <-. right.
      exists w, st, ldp, (scan_stamp scan_msg), [], e.
      split; [exact Ep|]. repeat (split; [reflexivity|]).
      split; [exact (laserScanToLDP_built _ _ El)|].
      split; [intros Hd; exact Hd|]. left. auto.
    + destruct (lookupTransform w (base_frame_ cfg) (scan_frame_id scan_msg)) as [t|] eqn:Hl.
      * rewrite (proj1 (proj2 (scanCallback_cases w cfg st scan_msg)) t Hini Hl).
        destruct (laserScanToLDP scan_msg) as [ldp|] eqn:El; [|discriminate]. simpl.
        destruct (processScan _ _ _ _ _) as [[s e]|] eqn:Ep; [|discriminate]. simpl.
        intros H; injection H as <- <-. right.
        eexists w, _, ldp, (scan_stamp scan_msg),
          [EvLookup (base_frame_ cfg) (scan_frame_id scan_msg)], e.
        split; [exact Ep|]. repeat (split; [reflexivity|]).
        split; [exact (laserScanToLDP_built _ _ El)|].
        split; [intros Hd; exact Hd|]. right.
        repeat split; try reflexivity; intros; discriminate.
      * rewrite (proj1 (scanCallback_cases w cfg st scan_msg) Hini Hl).
        intros H; injection H as <- <-. left.
        split; [reflexivity|]. split; [reflexivity|].
        split; [unfold same_tracking; simpl; repeat split; reflexivity|].
        intros [H|H]; discriminate.
  - destruct (use_cloud_input_ cfg) eqn:Hc.
    2: { intros H; injection H as <- <-. left. repeat split; try reflexivity; apply Hsame. }
    destruct (initialized_ st) eqn:Hini.
    + rewrite (proj2 (proj2 (cloudCallback_cases w cfg st cloud)) Hini).
      destruct (cloudToLDP cfg cloud) as [ldp|] eqn:El; [|discriminate]. simpl.
      destruct (processScan w cfg st ldp _) as [[s e]|] eqn:Ep; [|discriminate]. simpl.
      intros H; injection H as <- <-. right.
      exists w, st, ldp, (cloud_stamp cloud), [], e.
      split; [exact Ep|]. repeat (split; [reflexivity|]).
      split; [exact (PointCloudToLDP_built _ _ _ _ _ El)|].
      split; [intros Hd; exact Hd|]. left. auto.
    + destruct (lookupTransform w (base_frame_ cfg) (cloud_frame_id cloud)) as [t|] eqn:Hl.
      * rewrite (proj1 (proj2 (cloudCallback_cases w cfg st cloud)) t Hini Hl).
        destruct (cloudToLDP cfg cloud) as [ldp|] eqn:El; [|discriminate]. simpl.
        destruct (processScan _ _ _ _ _) as [[s e]|] eqn:Ep; [|discriminate]. simpl.
        intros H; injection H as <- <-. right.
        eexists w, _, ldp, (cloud_stamp cloud),
          [EvLookup (base_frame_ cfg) (cloud_frame_id cloud)], e.
        split; [exact Ep|]. repeat (split; [reflexivity|]).
        split; [exact (PointCloudToLDP_built _ _ _ _ _ El)|].
        split; [intros Hd; exact Hd|]. right.
        unfold same_cache. repeat split; reflexivity.
      * rewrite (proj1 (cloudCallback_cases w cfg st cloud) Hini Hl).
        intros H; injection H as <- <-. left.
        repeat split; try reflexivity; apply Hsame.
  - intros H; injection H as <- <-. left. unfold imuCallback, same_tracking, same_cache.
    destruct (use_imu_ cfg); simpl; [destruct (received_imu_ st); simpl|];
      repeat split; reflexivity.
  - intros H; injection H as <- <-. left. unfold odomCallback, same_tracking, same_cache.
    destruct (use_odom_ cfg); simpl; [destruct (received_odom_ st); simpl|];
      repeat split; reflexivity.
  - intros H; injection H as <- <-. left. unfold same_tracking, same_cache.
    destruct (use_vel_ cfg && negb (stamped_vel_ cfg)); simpl; repeat split; reflexivity.
  - intros H; injection H as <- <-. left. unfold same_tracking, same_cache.
    destruct (use_vel_ cfg && stamped_vel_ cfg); simpl; repeat split; reflexivity.
Qed.

Lemma solver_input_bounds (w : World) (cfg : Config) (st : State) (curr : LDP) (time : Time) :
  min_reading (solver_input w cfg st curr time) = input_min_reading st /\
  max_reading (solver_input w cfg st curr time) = input_max_reading st.
Proof.
  unfold solver_input.
  destruct (getPrediction_state w cfg (set_prev st (zero_motion (prev_ldp_scan_ st))) time)
    as (o & q & E).
  simpl. rewrite E. split; reflexivity.
Qed.

Lemma deliver_outage (cfg : Config) (st : State) (m : Message) (st' : State) (ev : list Event) :
  identity_reads_zero ->
  PrimFloat.ltb (kf_dist_angular_ cfg) 0 = false ->
  solver_down m ->
  deliver cfg st m = Some (st', ev) ->
  List.filter is_output ev = [] /\
  last_base_in_fixed_ st' = last_base_in_fixed_ st /\
  keyframe_base_in_fixed_ st' = keyframe_base_in_fixed_ st /\
  (initialized_ st = true ->
   initialized_ st' = true /\
   zero_motion (prev_ldp_scan_ st') = zero_motion (prev_ldp_scan_ st)).
Proof.
  intros Hid Hang Hdown E.
  destruct (deliver_cases cfg st m st' ev E)
    as [(Ho & _ & (Hi & _ & _ & _ & Hl & Hk & Hp) & _)
       |(w & s0 & ldp & time & ev0 & evp & Ep & -> & Ho & _ & _ & Hd & Hs)].
  - rewrite Hl, Hk, Hp, Hi. auto.
  - specialize (Hd Hdown).
    assert (Hinv : sm_valid (solver_output w cfg s0 ldp time) = 0) by apply Hd.
    destruct (processScan_after _ _ _ _ _ _ _ Ep) as (_ & Hn & _ & _ & Hz & _).
    destruct (Hz Hinv) as (Hl & Hf).
    rewrite (cycle_offset_invalid _ _ _ _ _ Hinv) in Hn.
    destruct (Hn (newKeyframeNeeded_identity cfg Hid Hang)) as (Hp & Hk).
    destruct (processScan_frame _ _ _ _ _ _ _ Ep) as (Hi & _).
    rewrite List.filter_app, Ho, Hf, Hl, Hk, Hp, Hi.
    destruct Hs as [(Hini & ->)|(Hini & _ & _ & _ & -> & -> & _)].
    + repeat split; auto.
    + repeat split; auto; intros; congruence.
Qed.

(** X13. While the solver reports invalid results (and the angular
    threshold is not negative), the node publishes nothing and neither the
    pose nor the keyframe pose changes, however many readings and other
    messages arrive; once the static transform is resolved the rays of the
    reference scan do not change either. *)
Theorem solver_outage_freezes_pose (cfg : Config) (ms : list Message) (st st' : State)
    (ev : list Event) :
  identity_reads_zero ->
  PrimFloat.ltb (kf_dist_angular_ cfg) 0 = false ->
  Forall solver_down ms ->
  run cfg st ms = Some (st', ev) ->
  List.filter is_output ev = [] /\
  last_base_in_fixed_ st' = last_base_in_fixed_ st /\
  keyframe_base_in_fixed_ st' = keyframe_base_in_fixed_ st /\
  (initialized_ st = true ->
   zero_motion (prev_ldp_scan_ st') = zero_motion (prev_ldp_scan_ st)).
Proof.
  intros Hid Hang Hall. revert st st' ev.
  induction Hall as [|m ms Hm Hms IH]; intros st st' ev; simpl.
  - intros H; injection H as <- <-. auto.
  - destruct (deliver cfg st m) as [[s1 e1]|] eqn:E1; [|discriminate]. simpl.
    destruct (run cfg s1 ms) as [[s2 e2]|] eqn:E2; [|discriminate]. simpl.
    intros H; injection H as <- <-.
    destruct (deliver_outage cfg st m s1 e1 Hid Hang Hm E1) as (F1 & L1 & K1 & P1).
    destruct (IH s1 s2 e2 E2) as (F2 & L2 & K2 & P2).
    rewrite List.filter_app, F1, F2, L2, K2, L1, K1.
    repeat split; try reflexivity.
    intros Hini. destruct (P1 Hini) as (Hi1 & Q1). rewrite (P2 Hi1). exact Q1.
Qed.

(** X14. In every state the node can reach, once the static transform is
    resolved the two cached transforms are inverse to each other:
    [laser_from_base_] is the inverse of [base_from_laser_]. *)
Theorem static_transforms_are_inverse (cfg : Config) (st : State) :
  reachable cfg st ->
  initialized_ st = true ->
  laser_from_base_ st = tf_inverse (base_from_laser_ st).
Proof.
  induction 1 as [raw|st m st' ev Hr IH E]; intros Hini.
  - unfold LaserScanMatcher in Hini. destruct (use_cloud_input_ cfg); discriminate Hini.
  - destruct (deliver_cases cfg st m st' ev E)
      as [(_ & _ & (Hi & Hb & Hl & _) & _)
         |(w & s0 & ldp & time & ev0 & evp & Ep & _ & _ & _ & _ & _ & Hs)].
    + rewrite Hb, Hl. apply IH. congruence.
    + destruct (processScan_frame _ _ _ _ _ _ _ Ep) as (_ & -> & -> & _).
      destruct Hs as [(Hi & ->)|(_ & _ & _ & Hinv & _)]; [apply IH, Hi | exact Hinv].
Qed.

Lemma reachable_built (cfg : Config) (st : State) :
  reachable cfg st -> initialized_ st = true -> ldp_built (prev_ldp_scan_ st).
Proof.
  induction 1 as [raw|st m st' ev Hr IH E]; intros Hini.
  - unfold LaserScanMatcher in Hini. destruct (use_cloud_input_ cfg); discriminate Hini.
  - destruct (deliver_cases cfg st m st' ev E)
      as [(_ & _ & (Hi & _ & _ & _ & _ & _ & Hp) & _)
         |(w & s0 & ldp & time & ev0 & evp & Ep & _ & _ & _ & Hb & _ & Hs)].
    + rewrite Hp. apply IH. congruence.
    + destruct (processScan_after _ _ _ _ _ _ _ Ep) as (Hy & Hn & _).
      assert (H0 : ldp_built (prev_ldp_scan_ s0)).
      { destruct Hs as [(Hi & ->)|(_ & _ & -> & _)]; [apply IH, Hi | exact Hb]. }
      destruct (newKeyframeNeeded cfg (cycle_offset w cfg s0 ldp time)).
      * destruct (Hy eq_refl) as (-> & _). exact Hb.
      * destruct (Hn eq_refl) as (-> & _). apply zero_motion_built, H0.
Qed.

(** X15. Whatever the node has been through, every call of the solver
    gets two point sets that the builders produced: both have at least one
    ray, arrays with one cell per ray, and zero [odometry] and [true_pose];
    the reference in addition has a zero [estimate]. *)
Theorem solver_scans_well_formed (cfg : Config) (st : State) (m : Message)
    (st' : State) (ev : list Event) (input : sm_params) :
  reachable cfg st ->
  deliver cfg st m = Some (st', ev) ->
  In input (icp_calls ev) ->
  ldp_built (laser_ref input) /\
  ldp_built (laser_sens input) /\
  estimate (laser_ref input) = zero3.
Proof.
  intros Hr E Hin.
  destruct (deliver_cases cfg st m st' ev E)
    as [(_ & Hc & _)
       |(w & s0 & ldp & time & ev0 & evp & Ep & -> & _ & Hc0 & Hb & _ & Hs)].
  - rewrite Hc in Hin. destruct Hin.
  - destruct (processScan_frame _ _ _ _ _ _ _ Ep) as (_ & _ & _ & _ & Hc).
    rewrite icp_calls_app, Hc0, Hc in Hin. destruct Hin as [<-|[]].
    destruct (solver_input_scans w cfg s0 ldp time) as (-> & ->).
    split; [|split; [exact Hb | reflexivity]].
    apply zero_motion_built.
    destruct Hs as [(Hi & ->)|(_ & _ & -> & _)]; [exact (reachable_built cfg st Hr Hi) | exact Hb].
Qed.

Lemma reachable_cloud_bounds (cfg : Config) (st : State) :
  reachable cfg st ->
  use_cloud_input_ cfg = true ->
  input_min_reading st = cloud_range_min_ cfg /\
  input_max_reading st = cloud_range_max_ cfg.
Proof.
  intros Hr Hc. induction Hr as [raw|st m st' ev Hr IH E].
  - unfold LaserScanMatcher. rewrite Hc. split; reflexivity.
  - destruct IH as (Hlo & Hhi).
    destruct (deliver_cases cfg st m st' ev E)
      as [(_ & _ & _ & Hs)
         |(w & s0 & ldp & time & ev0 & evp & Ep & _ & _ & _ & _ & _ & Hs)].
    + destruct (Hs (or_introl Hc)) as (_ & _ & -> & ->). auto.
    + destruct (processScan_after _ _ _ _ _ _ _ Ep) as (_ & _ & _ & (_ & _ & -> & ->) & _).
      destruct Hs as [(_ & ->)|(_ & _ & _ & _ & _ & _ & Hs)]; [auto|].
      destruct (Hs Hc) as (_ & _ & -> & ->). auto.
Qed.

(** X16. In cloud mode the range bounds handed to the solver are the
    configured [cloud_range_min_] and [cloud_range_max_] in every call the
    node ever makes. *)
Theorem cloud_mode_solver_bounds (cfg : Config) (st : State) (m : Message)
    (st' : State) (ev : list Event) (input : sm_params) :
  reachable cfg st ->
  use_cloud_input_ cfg = true ->
  deliver cfg st m = Some (st', ev) ->
  In input (icp_calls ev) ->
  min_reading input = cloud_range_min_ cfg /\
  max_reading input = cloud_range_max_ cfg.
Proof.
  intros Hr Hc E Hin.
  destruct (reachable_cloud_bounds cfg st Hr Hc) as (Hlo & Hhi).
  destruct (deliver_cases cfg st m st' ev E)
    as [(_ & Hn & _)
       |(w & s0 & ldp & time & ev0 & evp & Ep & -> & _ & Hc0 & _ & _ & Hs)].
  - rewrite Hn in Hin. destruct Hin.
  - destruct (processScan_frame _ _ _ _ _ _ _ Ep) as (_ & _ & _ & _ & Hi).
    rewrite icp_calls_app, Hc0, Hi in Hin. destruct Hin as [<-|[]].
    destruct (solver_input_bounds w cfg s0 ldp time) as (-> & ->).
    destruct Hs as [(_ & ->)|(_ & _ & _ & _ & _ & _ & Hs)]; [auto|].
    destruct (Hs Hc) as (_ & _ & -> & ->). auto.
Qed.

(** X17. Once the static transform is resolved, the cached cosines and
    sines and the range bounds of the solver are never written again: every
    later solver call gets the bounds of the state, whatever [range_min],
    [range_max] and angles the later readings carry. *)
Theorem cache_frozen_after_initialisation (cfg : Config) (ms : list Message) :
  forall (st st' : State) (ev : list Event),
  initialized_ st = true ->
  run cfg st ms = Some (st', ev) ->
  same_cache st' st /\
  forall input, In input (icp_calls ev) ->
    min_reading input = input_min_reading st /\
    max_reading input = input_max_reading st.
Proof.
  induction ms as [|m ms IH]; intros st st' ev Hini; simpl.
  - intros H; injection H as <- <-.
    split; [unfold same_cache; repeat split; reflexivity | intros input []].
  - destruct (deliver cfg st m) as [[s1 e1]|] eqn:E1; [|discriminate]. simpl.
    destruct (run cfg s1 ms) as [[s2 e2]|] eqn:E2; [|discriminate]. simpl.
    intros H; injection H as <- <-.
    destruct (deliver_steady cfg st m s1 e1 Hini E1) as (Hi1 & _).
    destruct (IH s1 s2 e2 Hi1 E2) as ((C1 & C2 & C3 & C4) & Hcalls).
    assert (Hstep : same_cache s1 st /\
                    forall input, In input (icp_calls e1) ->
                      min_reading input = input_min_reading st /\
                      max_reading input = input_max_reading st).
    { destruct (deliver_cases cfg st m s1 e1 E1)
        as [(_ & Hn & _ & Hs)
           |(w & s0 & ldp & time & ev0 & evp & Ep & -> & _ & Hc0 & _ & _ & Hs)].
      - split; [apply Hs; right; exact Hini|]. rewrite Hn. intros input [].
      - destruct Hs as [(_ & ->)|(Hf & _)]; [|congruence].
        destruct (processScan_after _ _ _ _ _ _ _ Ep) as (_ & _ & _ & Hsc & _).
        split; [exact Hsc|].
        destruct (processScan_frame _ _ _ _ _ _ _ Ep) as (_ & _ & _ & _ & Hi).
        rewrite icp_calls_app, Hc0, Hi. intros input [<-|[]].
        apply solver_input_bounds. }
    destruct Hstep as ((D1 & D2 & D3 & D4) & Hcalls1).
    split; [unfold same_cache; repeat split; congruence|].
    intros input Hin. rewrite icp_calls_app in Hin.
    apply in_app_or in Hin. destruct Hin as [Hin|Hin]; [apply Hcalls1, Hin|].
    destruct (Hcalls input Hin) as (-> & ->). auto.
Qed.

(** X21. In scan mode the range bounds of the solver are those of the
    reading that resolved the static transform: the solver call of that
    callback gets the reading's [range_min] and [range_max], and they are
    what the state holds afterwards. *)
Theorem scan_mode_bounds_from_first_reading (w : World) (cfg : Config) (st : State)
    (scan_msg : LaserScan) (st' : State) (ev : list Event) :
  use_cloud_input_ cfg = false ->
  initialized_ st = false ->
  deliver cfg st (MsgScan w scan_msg) = Some (st', ev) ->
  initialized_ st' = true ->
  input_min_reading st' = range_min scan_msg /\
  input_max_reading st' = range_max scan_msg /\
  exists input,
    icp_calls ev = [input] /\
    min_reading input = range_min scan_msg /\
    max_reading input = range_max scan_msg.
Proof.
  intros Hc Hini E Hi'. simpl in E. rewrite Hc in E.
  destruct (lookupTransform w (base_frame_ cfg) (scan_frame_id scan_msg)) as [t|] eqn:Hl.
  - rewrite (proj1 (proj2 (scanCallback_cases w cfg st scan_msg)) t Hini Hl) in E.
    destruct (laserScanToLDP scan_msg) as [ldp|]; [|discriminate]. simpl in E.
    destruct (processScan _ _ _ _ _) as [[s e]|] eqn:Ep; [|discriminate]. simpl in E.
    injection E as <- <-.
    destruct (processScan_after _ _ _ _ _ _ _ Ep) as (_ & _ & _ & (_ & _ & -> & ->) & _).
    destruct (processScan_frame _ _ _ _ _ _ _ Ep) as (_ & _ & _ & _ & Hcalls).
    split; [reflexivity|]. split; [reflexivity|].
    eexists. split; [simpl; rewrite Hcalls; reflexivity|].
    apply solver_input_bounds.
  - rewrite (proj1 (scanCallback_cases w cfg st scan_msg) Hini Hl) in E.
    injection E as <- <-. simpl in Hi'. congruence.
Qed.

Lemma nan_never_exceeded (a t : float) : PrimFloat.is_nan t = true -> fgt a t = false.
Proof.
  intros H. unfold fgt. rewrite ltb_spec. unfold Prim2SF at 1. rewrite H. reflexivity.
Qed.

(** X18. With NaN thresholds no offset promotes a keyframe: the keyframe
    pose never changes, whatever arrives, and once the static transform is
    resolved the rays of the reference scan are those of the reading that
    resolved it. *)
Theorem nan_thresholds_never_promote (cfg : Config) (ms : list Message) :
  PrimFloat.is_nan (kf_dist_angular_ cfg) = true ->
  PrimFloat.is_nan (kf_dist_linear_ cfg) = true ->
  (forall d, newKeyframeNeeded cfg d = false) /\
  forall (st st' : State) (ev : list Event),
    run cfg st ms = Some (st', ev) ->
    keyframe_base_in_fixed_ st' = keyframe_base_in_fixed_ st /\
    (initialized_ st = true ->
     zero_motion (prev_ldp_scan_ st') = zero_motion (prev_ldp_scan_ st)).
Proof.
  intros Ha Hl.
  assert (Hnever : forall d, newKeyframeNeeded cfg d = false).
  { intros d. rewrite newKeyframeNeeded_eq.
    rewrite (nan_never_exceeded _ _ Ha), (nan_square_never_exceeded _ _ Hl). reflexivity. }
  split; [exact Hnever|].
  induction ms as [|m ms IH]; intros st st' ev; simpl.
  - intros H; injection H as <- <-. auto.
  - destruct (deliver cfg st m) as [[s1 e1]|] eqn:E1; [|discriminate]. simpl.
    destruct (run cfg s1 ms) as [[s2 e2]|] eqn:E2; [|discriminate]. simpl.
    intros H; injection H as <- <-.
    destruct (IH s1 s2 e2 E2) as (K2 & P2). rewrite K2.
    assert (Hstep : keyframe_base_in_fixed_ s1 = keyframe_base_in_fixed_ st /\
                    (initialized_ st = true ->
                     initialized_ s1 = true /\
                     zero_motion (prev_ldp_scan_ s1) = zero_motion (prev_ldp_scan_ st))).
    { destruct (deliver_cases cfg st m s1 e1 E1)
        as [(_ & _ & (Hi & _ & _ & _ & _ & Hk & Hp) & _)
           |(w & s0 & ldp & time & ev0 & evp & Ep & _ & _ & _ & _ & _ & Hs)].
      - rewrite Hk, Hp, Hi. auto.
      - destruct (processScan_after _ _ _ _ _ _ _ Ep) as (_ & Hn & _).
        destruct (Hn (Hnever _)) as (Hp & Hk).
        destruct (processScan_frame _ _ _ _ _ _ _ Ep) as (Hi & _).
        rewrite Hk, Hp, Hi.
        destruct Hs as [(Hini & ->)|(Hini & _ & _ & _ & _ & -> & _)].
        + auto.
        + split; [reflexivity|]. intros; congruence. }
    destruct Hstep as (K1 & P1).
    split; [exact K1|].
    intros Hini. destruct (P1 Hini) as (Hi1 & Q1). rewrite (P2 Hi1). exact Q1.
Qed.

End MorePipelineFacts.

(** ** The node on the example inputs *)

Section OnExamples.
Import Stub Examples.

Lemma getPrediction_tf_precedence_witness :
  fst (fst (getPrediction (world quarter_turn true true 0) all_sources moving 2)) =
    mkPose (mkRot 1 0) 3 4 /\
  fst (getPrediction (world quarter_turn false true 0) all_sources moving 2) =
    fst (getPrediction (world quarter_turn false true 0) (with_use_tf all_sources false) moving 2).
Proof.
  split.
  - apply (proj1 (getPrediction_tf_precedence
                    (world quarter_turn true true 0) all_sources moving 2 eq_refl)).
    reflexivity.
  - apply (proj2 (getPrediction_tf_precedence
                    (world quarter_turn false true 0) all_sources moving 2 eq_refl)).
    reflexivity.
Defined.

(** The prediction that the lookup replaces is the odometry increment. *)
Example prediction_without_lookup :
  fst (fst (getPrediction (world quarter_turn false true 0) all_sources moving 2)) =
  mkPose (mkRot 1 0) 1 2.
Proof. vm_compute. reflexivity. Qed.

(** A measured offset of 0.2 m with the default thresholds. *)
Lemma keyframe_promotion_witness :
  cov_params_ok default_config /\
  exists st' ev,
    processScan (world quarter_turn false true (2 / 10)) default_config
      (after_first default_config) (ldp_of scan2) 2 = Some (st', ev) /\
    prev_ldp_scan_ st' = ldp_of scan2 /\
    keyframe_base_in_fixed_ st' = last_base_in_fixed_ st'.
Proof.
  assert (H : cov_params_ok default_config) by (split; simpl; lia).
  split; [exact H|].
  destruct (keyframe_promotion (world quarter_turn false true (2 / 10)) default_config
              (after_first default_config) (ldp_of scan2) 2 H)
    as (_ & _ & _ & st' & ev & E & Hp & _).
  exists st', ev. split; [exact E|]. apply Hp. vm_compute. reflexivity.
Defined.

Lemma failed_match_skips_cycle_witness :
  exists st' ev,
    processScan (world quarter_turn false false 0) default_config
      (after_first default_config) (ldp_of scan2) 2 = Some (st', ev) /\
    List.filter is_output ev = [] /\
    prev_ldp_scan_ st' = zero_motion (prev_ldp_scan_ (after_first default_config)).
Proof.
  destruct (failed_match_skips_cycle (world quarter_turn false false 0) default_config
              (after_first default_config) (ldp_of scan2) 2)
    as (_ & st' & ev & E & F & _ & K).
  - vm_compute. reflexivity.
  - exists st', ev. split; [exact E|]. split; [exact F|].
    apply K; [repeat split; reflexivity | vm_compute; reflexivity].
Defined.

(** C3, as stated, fails for a negative angular threshold: the solver
    reports an invalid result and the current point set still replaces the
    reference ([fabs(0) > kf_dist_angular_] holds for the threshold -1). *)
Lemma failed_match_promotes_below_zero_threshold :
  sm_valid (solver_output (world quarter_turn false false 0) negative_angular
              (after_first negative_angular) (ldp_of scan2) 2) = 0 /\
  exists st' ev,
    processScan (world quarter_turn false false 0) negative_angular
      (after_first negative_angular) (ldp_of scan2) 2 = Some (st', ev) /\
    prev_ldp_scan_ st' = ldp_of scan2 /\
    prev_ldp_scan_ st' <> zero_motion (prev_ldp_scan_ (after_first negative_angular)).
Proof.
  split; [vm_compute; reflexivity|].
  run_to_result (processScan (world quarter_turn false false 0) negative_angular
                   (after_first negative_angular) (ldp_of scan2) 2).
  split; [by_vm|].
  split; [vm_compute; reflexivity|].
  intros H. apply (f_equal nrays) in H. vm_compute in H. discriminate.
Qed.

Lemma covariance_projection_witness :
  exists st' ev,
    processScan (world quarter_turn false true 0) with_covariance
      (after_first with_covariance) (ldp_of scan2) 2 = Some (st', ev) /\
    exists pose c, In (EvPoseWithCovariance pose c) ev.
Proof.
  destruct (covariance_projection (world quarter_turn false true 0) with_covariance
              (after_first with_covariance) (ldp_of scan2) 2)
    as (st' & ev & E & Hp & _).
  - vm_compute. discriminate.
  - vm_compute. discriminate.
  - exists st', ev. split; [exact E|]. apply Hp. reflexivity.
Defined.

(** C4 on a sensor mounted at 45 degrees: the keyframe pose is the
    identity, so the rotation by its heading, which the claim asks for,
    leaves [diag (1, 4)] as it is, and the node publishes a block whose
    off-diagonal entries are about 1.5. The rotation by the heading of the
    sensor in the fixed frame, which [getLaserRotation] is named after,
    gives about -1.5 there: the code rotates the other way round. *)
Lemma covariance_rotation_includes_sensor_mount :
  exists st' ev pose c,
    processScan (world eighth_turn false true 0) with_covariance
      (after_first_on eighth_turn with_covariance) (ldp_of scan2) 2 = Some (st', ev) /\
    In (EvPoseWithCovariance pose c) ev /\
    keyframe_base_in_fixed_ (after_first_on eighth_turn with_covariance) = tf_getIdentity /\
    (exists v, c !! 1%nat = Some v /\ PrimFloat.ltb 1 v = true) /\
    covariance_for (keyframe_heading (after_first_on eighth_turn with_covariance))
      (solver true 0 (solver_input (world eighth_turn false true 0) with_covariance
         (after_first_on eighth_turn with_covariance) (ldp_of scan2) 2)) !! 1%nat
      = Some 0%float /\
    (exists v,
       covariance_for (sensor_heading (after_first_on eighth_turn with_covariance))
         (solver true 0 (solver_input (world eighth_turn false true 0) with_covariance
            (after_first_on eighth_turn with_covariance) (ldp_of scan2) 2)) !! 1%nat
       = Some v /\ PrimFloat.ltb v (-1) = true) /\
    c <> covariance_for (keyframe_heading (after_first_on eighth_turn with_covariance))
           (solver true 0 (solver_input (world eighth_turn false true 0) with_covariance
              (after_first_on eighth_turn with_covariance) (ldp_of scan2) 2)).
Proof.
  run_to_result (processScan (world eighth_turn false true 0) with_covariance
                   (after_first_on eighth_turn with_covariance) (ldp_of scan2) 2).
  lazymatch goal with
  | |- context [EvPoseWithCovariance ?p ?c :: _] => exists p, c
  end.
  split; [by_vm|].
  split; [right; left; reflexivity|].
  split; [by_vm|].
  split; [eexists; split; [reflexivity | vm_compute; reflexivity]|].
  split; [vm_compute; reflexivity|].
  split.
  { let v := eval vm_compute in
      (default 0%float
         (covariance_for (sensor_heading (after_first_on eighth_turn with_covariance))
            (solver true 0 (solver_input (world eighth_turn false true 0) with_covariance
               (after_first_on eighth_turn with_covariance) (ldp_of scan2) 2)) !! 1%nat)) in
    exists v.
    split; vm_compute; reflexivity. }
  intros H. apply (f_equal (fun l : list float => default 0%float (l !! 1%nat))) in H.
  vm_compute in H. revert H.
  apply float_neq. vm_compute. reflexivity.
Qed.

Lemma PointCloudToLDP_rays_witness :
  exists cloud_f ldp,
    cloud_filter (5 / 100) (points cloud1) = Some cloud_f /\
    PointCloudToLDP (1 / 10) 50 (5 / 100) cloud1 = Some ldp /\
    nrays ldp = length cloud_f.
Proof.
  destruct (PointCloudToLDP_rays (1 / 10) 50 (5 / 100) cloud1)
    as (cf & ldp & A & B & C & _); [simpl; discriminate|].
  exists cf, ldp. auto.
Defined.

(** C5, as stated, fails on a cloud whose first point has a NaN
    coordinate: the point is kept, and its range is the NaN that CSM's
    allocator wrote, not -1. *)
Lemma nan_point_range_is_not_the_sentinel :
  exists ldp,
    PointCloudToLDP (1 / 10) 50 (5 / 100) cloud1 = Some ldp /\
    cloud_filter (5 / 100) (points cloud1) = Some [mkPointT nan 1] /\
    has_nan (mkPointT nan 1) = true /\
    valid ldp !! 0%nat = Some 0 /\
    readings ldp !! 0%nat = Some nan /\
    readings ldp !! 0%nat <> Some (-1)%float.
Proof.
  let v := eval vm_compute in (PointCloudToLDP (1 / 10) 50 (5 / 100) cloud1) in
  lazymatch v with Some ?l => exists l end.
  split; [vm_compute; reflexivity|].
  split; [vm_compute; reflexivity|].
  split; [vm_compute; reflexivity|].
  split; [reflexivity|]. split; [reflexivity|].
  intros H. apply (f_equal (default 0%float)) in H.
  vm_compute in H. revert H.
  apply float_neq. vm_compute. reflexivity.
Qed.

Lemma laserScanToLDP_spec_witness :
  exists ldp,
    laserScanToLDP scan1 = Some ldp /\
    valid ldp = [1; 1; 0] /\
    readings ldp = [1; 2; -1]%float /\
    theta ldp = [0; 1 / 4; 1 / 2]%float.
Proof.
  destruct (laserScanToLDP_spec scan1) as (ldp & E & _); [simpl; discriminate|].
  exists ldp. split; [exact E|].
  vm_compute in E. injection E as <-. repeat split; reflexivity.
Defined.

Lemma cloud_filter_greedy_witness :
  cloud_filter (5 / 100) (points cloud2) = Some [mkPointT 1 0; mkPointT 1 1; mkPointT 2 2] /\
  exists ldp,
    PointCloudToLDP (1 / 10) 50 (5 / 100) cloud2 = Some ldp /\ nrays ldp = 3%nat.
Proof.
  destruct (@cloud_filter_greedy planar (1 / 10) 50 (5 / 100) 2 "laser" (mkPointT 1 0)
              [mkPointT 1 (1 / 64); mkPointT 1 1; mkPointT 2 2])
    as (cf & ldp & Ef & _ & _ & _ & El & En & _).
  vm_compute in Ef. injection Ef as <-.
  split; [vm_compute; reflexivity|].
  exists ldp. split; [exact El | exact En].
Defined.

(** C7, as stated, fails for a negative resolution: with [cloud_res_ = -1]
    the second point of the cloud is 1/2 away from the first, which is more
    than the resolution, and it is dropped all the same, because the squared
    distance 1/4 is not greater than the squared resolution 1. *)
Lemma negative_resolution_drops_distant_point :
  PrimFloat.sqrt (dist2 (mkPointT 0 0) (mkPointT (1 / 2) 0)) = (1 / 2)%float /\
  PrimFloat.ltb (-1) (PrimFloat.sqrt (dist2 (mkPointT 0 0) (mkPointT (1 / 2) 0))) = true /\
  cloud_filter (-1) (points cloud3) = Some [mkPointT 0 0] /\
  exists ldp,
    PointCloudToLDP (1 / 10) 50 (-1) cloud3 = Some ldp /\ nrays ldp = 1%nat.
Proof.
  split; [vm_compute; reflexivity|].
  split; [vm_compute; reflexivity|].
  split; [vm_compute; reflexivity|].
  exists (match PointCloudToLDP (1 / 10) 50 (-1) cloud3 with
          | Some l => l
          | None => ld_alloc_new 0
          end).
  split; vm_compute; reflexivity.
Qed.

Lemma static_transform_state_machine_witness :
  (exists st',
     scanCallback (world None false true 0) default_config
       (LaserScanMatcher default_config raw) scan1 =
     Some (st', [EvLookup "base_link" "laser";
                 EvWarn "Could not get initial transform from base to laser frame";
                 EvWarn "Skipping scan"]) /\
     initialized_ st' = false) /\
  exists st' ev,
    scanCallback (world quarter_turn false true 0) default_config
      (LaserScanMatcher default_config raw) scan1 = Some (st', ev) /\
    initialized_ st' = true /\
    base_from_laser_ st' = mkPose (mkRot 0 1) 0 0.
Proof.
  pose proof (static_transform_state_machine default_config)
    as (Hfail & _ & Hok & _ & Hsome & _).
  split.
  - destruct (Hfail (world None false true 0) (LaserScanMatcher default_config raw) scan1)
      as (st' & E & Hi & _); [reflexivity | reflexivity |].
    exists st'. split; [exact E | exact Hi].
  - destruct (Hsome (world quarter_turn false true 0)
                (LaserScanMatcher default_config raw) scan1)
      as (st' & ev & E); [split; simpl; lia | simpl; discriminate |].
    exists st', ev. split; [exact E|].
    destruct (Hok (world quarter_turn false true 0) (LaserScanMatcher default_config raw)
                scan1 (mkPose (mkRot 0 1) 0 0) st' ev) as (Hi & Hb & _);
      [reflexivity | reflexivity | exact E |].
    split; [exact Hi | exact Hb].
Defined.

Lemma first_reading_is_its_own_reference_witness :
  exists st' ev ldp input,
    scanCallback (world quarter_turn false true 0) default_config
      (LaserScanMatcher default_config raw) scan1 = Some (st', ev) /\
    laserScanToLDP scan1 = Some ldp /\
    icp_calls ev = [input] /\
    laser_ref input = zero_motion ldp /\
    laser_sens input = ldp.
Proof.
  run_to_result (scanCallback (world quarter_turn false true 0) default_config
                   (LaserScanMatcher default_config raw) scan1).
  match goal with |- exists ldp input, ?t = Some (?s, ?e) /\ _ =>
    assert (E : t = Some (s, e)) by by_vm;
    destruct (proj1 (first_reading_is_its_own_reference default_config)
                (world quarter_turn false true 0) (LaserScanMatcher default_config raw)
                scan1 (mkPose (mkRot 0 1) 0 0) s e
                (reach_new default_config raw) eq_refl eq_refl E)
      as (ldp & input & El & Ec & Hr & Hs & _)
  end.
  exists ldp, input. auto.
Defined.

Lemma builders_empty_input_witness :
  laserScanToLDP (scan 1 []) = None /\
  PointCloudToLDP (1 / 10) 50 (5 / 100) (@mkPointCloudT planar 1 "laser" []) = None.
Proof.
  split.
  - apply (proj1 (builders_empty_input (1 / 10) 50 (5 / 100) (scan 1 [])
                    (@mkPointCloudT planar 1 "laser" []))).
    reflexivity.
  - apply (proj2 (builders_empty_input (1 / 10) 50 (5 / 100) (scan 1 [])
                    (@mkPointCloudT planar 1 "laser" []))).
    reflexivity.
Defined.

(** A point with a NaN coordinate that is not the first of its cloud fails
    the distance test and is dropped. *)
Example later_nan_point_is_dropped :
  cloud_filter (5 / 100) [mkPointT 1 0; mkPointT nan 1; mkPointT 1 1] =
  Some [mkPointT 1 0; mkPointT 1 1].
Proof. vm_compute. reflexivity. Qed.

(** Three readings: the static lookup fails, then answers, then is not
    asked any more. *)
Example static_lookup_asked_twice :
  exists st ev,
    run default_config (LaserScanMatcher default_config raw)
      [MsgScan (world None false true 0) scan1;
       MsgScan (world quarter_turn false true 0) scan1;
       MsgScan (world quarter_turn false true 0) scan2] = Some (st, ev) /\
    initialized_ st = true /\
    List.filter is_static_lookup ev =
      [EvLookup "base_link" "laser"; EvLookup "base_link" "laser"].
Proof.
  run_to_result (run default_config (LaserScanMatcher default_config raw)
                   [MsgScan (world None false true 0) scan1;
                    MsgScan (world quarter_turn false true 0) scan1;
                    MsgScan (world quarter_turn false true 0) scan2]).
  split; [by_vm|]. split; reflexivity.
Qed.

(** *** The further properties on the example inputs *)

Lemma laserScanToLDP_bounds_witness :
  min_theta (ldp_of scan1) = bearing scan1 0 /\
  max_theta (ldp_of scan1) = bearing scan1 2.
Proof.
  destruct (laserScanToLDP_bounds scan1 (ldp_of scan1)) as (Hlo & Hhi & _).
  - vm_compute. reflexivity.
  - vm_compute. reflexivity.
  - split; [exact Hlo | exact Hhi].
Defined.

Example scan_bounds_are_first_and_last_bearing :
  min_theta (ldp_of scan1) = 0%float /\ max_theta (ldp_of scan1) = (1 / 2)%float.
Proof. split; vm_compute; reflexivity. Qed.

Lemma laserScanToLDP_rejects_non_finite_witness :
  valid (ldp_of scan3) !! 1%nat = Some 0 /\
  readings (ldp_of scan3) !! 1%nat = Some (-1)%float.
Proof.
  apply (laserScanToLDP_rejects_non_finite scan3 (ldp_of scan3) 1 nan).
  - vm_compute. reflexivity.
  - reflexivity.
  - left. reflexivity.
Defined.

Lemma createCache_matches_bearings_witness :
  a_cos_ (createCache raw scan1) = map cos (theta (ldp_of scan1)) /\
  length (a_cos_ (createCache raw scan1)) = 3%nat.
Proof.
  destruct (createCache_matches_bearings raw scan1 (ldp_of scan1)) as (Hc & _ & Hl & _).
  - vm_compute. reflexivity.
  - split; [exact Hc | exact Hl].
Defined.

Lemma cloud_filter_subsequence_witness :
  [mkPointT 1 0; mkPointT 1 1; mkPointT 2 2] `sublist_of` points cloud2.
Proof.
  apply (@cloud_filter_subsequence planar (5 / 100) (points cloud2)
           [mkPointT 1 0; mkPointT 1 1; mkPointT 2 2]).
  vm_compute. reflexivity.
Defined.

Lemma cloud_filter_idempotent_witness :
  @cloud_filter planar (5 / 100) [mkPointT 1 0; mkPointT 1 1; mkPointT 2 2] =
  Some [mkPointT 1 0; mkPointT 1 1; mkPointT 2 2].
Proof.
  apply (@cloud_filter_idempotent planar (5 / 100) (points cloud2)).
  vm_compute. reflexivity.
Defined.

Lemma nan_resolution_keeps_one_point_witness :
  @cloud_filter planar nan (points cloud2) = Some [mkPointT 1 0].
Proof.
  apply (@nan_resolution_keeps_one_point planar (1 / 10) 50 nan cloud2 (mkPointT 1 0)
           [mkPointT 1 (1 / 64); mkPointT 1 1; mkPointT 2 2]).
  - reflexivity.
  - reflexivity.
Defined.

Lemma PointCloudToLDP_bounds_witness :
  exists first_kept last_kept,
    head (points cloud2) = Some first_kept /\
    last [mkPointT 1 0; mkPointT 1 1; mkPointT 2 2] = Some last_kept /\
    min_theta (ldp_of_cloud cloud2) = cloud_bearing first_kept /\
    max_theta (ldp_of_cloud cloud2) = cloud_bearing last_kept.
Proof.
  destruct (@PointCloudToLDP_bounds planar (1 / 10) 50 (5 / 100) cloud2
              [mkPointT 1 0; mkPointT 1 1; mkPointT 2 2] (ldp_of_cloud cloud2))
    as (f & l & Hf & Hl & Hlo & Hhi & _).
  - vm_compute. reflexivity.
  - vm_compute. reflexivity.
  - vm_compute. reflexivity.
  - exists f, l. auto.
Defined.

Lemma odometry_prediction_spans_first_to_last_witness :
  fst (fst (getPrediction (world quarter_turn false true 0) odometry_only
              (odom_feed (LaserScanMatcher odometry_only raw) [odom1; odom2; odom3]) 5)) =
  tf_mul (tf_inverse (poseMsgToTF odom1)) (poseMsgToTF odom3).
Proof.
  exact (proj1 (odometry_prediction_spans_first_to_last
                  (world quarter_turn false true 0) odometry_only
                  (LaserScanMatcher odometry_only raw) 5 odom1 [odom2; odom3]
                  eq_refl eq_refl eq_refl eq_refl)).
Defined.

Lemma orientation_replaces_rotation_only_witness :
  fst (fst (getPrediction (world quarter_turn false true 0) orientation_only
              (imu_feed (LaserScanMatcher orientation_only raw) [imu1; imu2]) 5)) =
  tf_setRotation
    (fst (fst (getPrediction (world quarter_turn false true 0) orientation_only
                 (LaserScanMatcher orientation_only raw) 5)))
    (q_mul (q_inverse (quaternionMsgToTF imu1)) (quaternionMsgToTF imu2)).
Proof.
  exact (orientation_replaces_rotation_only
           (world quarter_turn false true 0) orientation_only
           (LaserScanMatcher orientation_only raw) 5 imu1 [imu2]
           eq_refl eq_refl eq_refl).
Defined.

Lemma valid_match_outputs_witness :
  exists st' ev,
    processScan (world quarter_turn false true 0) default_config
      (after_first default_config) (ldp_of scan2) 2 = Some (st', ev) /\
    length (List.filter is_output ev) = 2%nat /\
    last_icp_time_ st' = 2.
Proof.
  run_to_result (processScan (world quarter_turn false true 0) default_config
                   (after_first default_config) (ldp_of scan2) 2).
  match goal with |- ?t = Some (?s, ?e) /\ _ =>
    assert (E : t = Some (s, e)) by by_vm;
    destruct (valid_match_outputs (world quarter_turn false true 0) default_config
                (after_first default_config) (ldp_of scan2) 2 s e E)
      as (_ & Ht & Hn & _)
  end.
  - vm_compute. discriminate.
  - split; [exact E|]. split; [exact Hn | exact Ht].
Defined.

Lemma configured_covariance_published_witness :
  exists st' ev pose c,
    processScan (world quarter_turn false true 0) configured_covariance
      (after_first configured_covariance) (ldp_of scan2) 2 = Some (st', ev) /\
    In (EvPoseWithCovariance pose c) ev /\
    length c = 36%nat /\
    c !! 7%nat = Some (F32.round (1 / 1000000000)).
Proof.
  run_to_result (processScan (world quarter_turn false true 0) configured_covariance
                   (after_first configured_covariance) (ldp_of scan2) 2).
  match goal with |- exists pose c, ?t = Some (?s, ?e) /\ _ =>
    lazymatch e with
    | context [EvPoseWithCovariance ?p ?c] =>
        exists p, c;
        assert (E : t = Some (s, e)) by by_vm;
        assert (Hin : In (EvPoseWithCovariance p c) e)
          by (cbn [In]; repeat (first [left; reflexivity | right]));
        destruct (configured_covariance_published
                    (world quarter_turn false true 0) configured_covariance
                    (after_first configured_covariance) (ldp_of scan2) 2 s e
                    (1 / 1000000000) (1 / 1000000000) (1 / 1000000000)
                    E eq_refl eq_refl eq_refl eq_refl
                    (EvPoseWithCovariance p c) c Hin eq_refl) as (Hlen & Hcells)
    end
  end.
  split; [exact E|]. split; [exact Hin|]. split; [exact Hlen|].
  exact (Hcells 1%nat 1%nat ltac:(lia) ltac:(lia)).
Defined.

Lemma solver_outage_freezes_pose_witness :
  exists st' ev,
    run default_config (after_first default_config) outage = Some (st', ev) /\
    List.filter is_output ev = [] /\
    last_base_in_fixed_ st' = last_base_in_fixed_ (after_first default_config).
Proof.
  run_to_result (run default_config (after_first default_config) outage).
  match goal with |- ?t = Some (?s, ?e) /\ _ =>
    assert (E : t = Some (s, e)) by by_vm;
    destruct (solver_outage_freezes_pose default_config outage
                (after_first default_config) s e) as (Hf & Hl & _)
  end.
  - repeat split; reflexivity.
  - vm_compute. reflexivity.
  - unfold outage. repeat (constructor; [simpl; try exact I; intros; reflexivity|]).
    constructor.
  - exact E.
  - split; [exact E|]. split; [exact Hf | exact Hl].
Defined.

Lemma static_transforms_are_inverse_witness :
  exists st' ev,
    deliver default_config (LaserScanMatcher default_config raw)
      (MsgScan (world quarter_turn false true 0) scan1) = Some (st', ev) /\
    laser_from_base_ st' = tf_inverse (base_from_laser_ st').
Proof.
  run_to_result (deliver default_config (LaserScanMatcher default_config raw)
                   (MsgScan (world quarter_turn false true 0) scan1)).
  match goal with |- ?t = Some (?s, ?e) /\ _ =>
    assert (E : t = Some (s, e)) by by_vm;
    split; [exact E|];
    apply (static_transforms_are_inverse default_config s
             (reach_deliver default_config _ _ s e (reach_new default_config raw) E))
  end.
  reflexivity.
Defined.

Lemma solver_scans_well_formed_witness :
  exists st' ev input,
    deliver default_config (LaserScanMatcher default_config raw)
      (MsgScan (world quarter_turn false true 0) scan1) = Some (st', ev) /\
    icp_calls ev = [input] /\
    ldp_built (laser_ref input) /\ ldp_built (laser_sens input).
Proof.
  run_to_result (deliver default_config (LaserScanMatcher default_config raw)
                   (MsgScan (world quarter_turn false true 0) scan1)).
  match goal with |- exists input, ?t = Some (?s, ?e) /\ _ =>
    let c := eval vm_compute in (icp_calls e) in
    lazymatch c with
    | [?i] =>
        exists i;
        assert (E : t = Some (s, e)) by by_vm;
        assert (Hc : icp_calls e = [i]) by by_vm;
        destruct (solver_scans_well_formed default_config
                    (LaserScanMatcher default_config raw)
                    (MsgScan (world quarter_turn false true 0) scan1) s e i
                    (reach_new default_config raw) E
                    (eq_ind_r (fun l => In i l) (in_eq i []) Hc)) as (Hr & Hs & _)
    end
  end.
  auto.
Defined.

Lemma cloud_mode_solver_bounds_witness :
  exists st' ev input,
    deliver cloud_input (LaserScanMatcher cloud_input raw)
      (MsgCloud (world quarter_turn false true 0) cloud2) = Some (st', ev) /\
    icp_calls ev = [input] /\
    min_reading input = (1 / 10)%float /\ max_reading input = 50%float.
Proof.
  run_to_result (deliver cloud_input (LaserScanMatcher cloud_input raw)
                   (MsgCloud (world quarter_turn false true 0) cloud2)).
  match goal with |- exists input, ?t = Some (?s, ?e) /\ _ =>
    let c := eval vm_compute in (icp_calls e) in
    lazymatch c with
    | [?i] =>
        exists i;
        assert (E : t = Some (s, e)) by by_vm;
        assert (Hc : icp_calls e = [i]) by by_vm;
        destruct (cloud_mode_solver_bounds cloud_input
                    (LaserScanMatcher cloud_input raw)
                    (MsgCloud (world quarter_turn false true 0) cloud2) s e i
                    (reach_new cloud_input raw) eq_refl E
                    (eq_ind_r (fun l => In i l) (in_eq i []) Hc)) as (Hlo & Hhi)
    end
  end.
  split; [exact E|]. split; [exact Hc|]. split; [exact Hlo | exact Hhi].
Defined.

Lemma cache_frozen_after_initialisation_witness :
  exists st' ev,
    run default_config (after_first default_config)
      [MsgScan (world quarter_turn false true 0) scan4] = Some (st', ev) /\
    same_cache st' (after_first default_config).
Proof.
  run_to_result (run default_config (after_first default_config)
                   [MsgScan (world quarter_turn false true 0) scan4]).
  match goal with |- ?t = Some (?s, ?e) /\ _ =>
    assert (E : t = Some (s, e)) by by_vm;
    destruct (cache_frozen_after_initialisation default_config
                [MsgScan (world quarter_turn false true 0) scan4]
                (after_first default_config) s e eq_refl E) as (Hs & _)
  end.
  split; [exact E | exact Hs].
Defined.

Example later_bounds_do_not_reach_the_solver :
  exists st' ev input,
    run default_config (after_first default_config)
      [MsgScan (world quarter_turn false true 0) scan4] = Some (st', ev) /\
    icp_calls ev = [input] /\
    range_max scan4 = 20%float /\ max_reading input = 10%float.
Proof.
  run_to_result (run default_config (after_first default_config)
                   [MsgScan (world quarter_turn false true 0) scan4]).
  match goal with |- exists input, ?t = Some (?s, ?e) /\ _ =>
    let c := eval vm_compute in (icp_calls e) in
    lazymatch c with [?i] => exists i end
  end.
  split; [by_vm|]. split; [by_vm|]. split; reflexivity.
Qed.

Lemma scan_mode_bounds_from_first_reading_witness :
  exists st' ev,
    deliver default_config (LaserScanMatcher default_config raw)
      (MsgScan (world quarter_turn false true 0) scan1) = Some (st', ev) /\
    input_min_reading st' = range_min scan1 /\
    input_max_reading st' = range_max scan1.
Proof.
  run_to_result (deliver default_config (LaserScanMatcher default_config raw)
                   (MsgScan (world quarter_turn false true 0) scan1)).
  match goal with |- ?t = Some (?s, ?e) /\ _ =>
    assert (E : t = Some (s, e)) by by_vm;
    destruct (scan_mode_bounds_from_first_reading (world quarter_turn false true 0)
                default_config (LaserScanMatcher default_config raw) scan1 s e
                eq_refl eq_refl E eq_refl) as (Hlo & Hhi & _)
  end.
  split; [exact E|]. split; [exact Hlo | exact Hhi].
Defined.

Lemma nan_thresholds_never_promote_witness :
  newKeyframeNeeded nan_thresholds (mkPose (mkRot 0 1) 3 4) = false.
Proof.
  exact (proj1 (nan_thresholds_never_promote nan_thresholds [] eq_refl eq_refl)
           (mkPose (mkRot 0 1) 3 4)).
Defined.

End OnExamples.
